(** * normadist: the Normal distribution library, verified against its specification

    A shallow embedding of the TypeScript sources
    ([util/erf.ts], [erf.ts], [ierf.ts], [util/factorial], [distributions/normal.ts]).

    A JavaScript [number] is an IEEE 754 binary64 value: it is modelled by the
    primitive type [float], whose operations are the correctly rounded ones
    and whose meaning is given by [Prim2SF] and the specifications of
    [FloatAxioms].  The functions of the host object [Math] that ECMAScript
    leaves implementation-approximated are a parameter ([MathHost]). *)

From Stdlib Require Import Floats ZArith List String Bool Lia.
From Stdlib Require Uint63.
Import ListNotations.

#[local] Set Warnings "-inexact-float".
#[local] Open Scope float_scope.

(** ** JavaScript numbers *)

Module Num.

Definition number := float.

(** [x >= y] and [x > y] are the mirrored IEEE comparisons: false on NaN. *)
Definition geb (x y : number) : bool := y <=? x.
Definition gtb (x y : number) : bool := y <? x.

(** [Number.isNaN]. *)
Definition isNaN (x : number) : bool := is_nan x.

(** The number of an integer below 2^63 in magnitude: the conversion of
    the results of the integer operators and of integer literals. *)
Definition Z2F (z : Z) : number :=
  match z with
  | Z0 => 0
  | Zpos _ => of_uint63 (Uint63.of_Z z)
  | Zneg p => - of_uint63 (Uint63.of_Z (Zpos p))
  end.

(** The integer part (towards zero) of a number; 0 for NaN and infinities. *)
Definition SFtrunc (f : spec_float) : Z :=
  match f with
  | S754_finite s m e => cond_Zopp s (Z.shiftl (Zpos m) e)
  | _ => 0%Z
  end.

Definition wrap32 (z : Z) : Z := ((z + 2 ^ 31) mod 2 ^ 32 - 2 ^ 31)%Z.

(** [ToInt32], the conversion applied by [&], [~], [<<] and [>>]. *)
Definition ToInt32 (x : number) : Z := wrap32 (SFtrunc (Prim2SF x)).

(** [Math.floor], [Math.abs]: exact operations of the host. *)
Definition floor (x : number) : number :=
  match Prim2SF x with
  | S754_finite s m e =>
      if (0 <=? e)%Z then x
      else
        let q := Z.shiftl (Zpos m) e in
        if s then
          (if (Z.shiftl q (- e) =? Zpos m)%Z then - Z2F q else - Z2F (q + 1))
        else Z2F q
  | _ => x
  end.

(** JavaScript's [==] on numbers and the closed interval test. *)
Definition js_eq (x y : number) : bool := x =? y.

Definition in_unit (x : number) : bool := (-1 <=? x) && (x <=? 1).

End Num.
Import Num.

(** ** The host [Math] object

    [Math.exp], [Math.log], [Math.tanh], [Math.atan], [Math.pow] and
    [Math.sqrt] are implementation-approximated in ECMAScript: the program is
    verified against any host, and the properties of the host that a
    theorem relies on are stated as separate laws. *)

Record MathHost := {
  Math_exp  : number -> number;
  Math_log  : number -> number;
  Math_tanh : number -> number;
  Math_atan : number -> number;
  Math_sqrt : number -> number;
  Math_pow  : number -> number -> number
}.

(** ** A reference host

    One concrete host, built from the primitive operations alone: the
    special values are those that ECMAScript prescribes, the other values are
    computed by argument reduction and a truncated series.  It is the host
    at which the program is evaluated on concrete inputs. *)

Module RefHost.

Fixpoint horner (cs : list number) (r : number) : number :=
  match cs with
  | [] => 0
  | c :: cs' => c + r * horner cs' r
  end.

Fixpoint fact_pos (n : nat) : Z :=
  match n with
  | O => 1%Z
  | S k => (Z.of_nat n * fact_pos k)%Z
  end.

Definition ln2_hi : number := 0x1.62e42fee00000p-1.
Definition ln2_lo : number := 0x1.a39ef35793c76p-33.
Definition ln2 : number := 0x1.62e42fefa39efp-1.
Definition inv_ln2 : number := 0x1.71547652b82fep+0.
Definition half_pi : number := 0x1.921fb54442d18p+0.

(** The nearest integer of a number of small magnitude. *)
Definition nearest (x : number) : number :=
  (x + 6755399441055744) - 6755399441055744.

Definition exp_coeffs : list number :=
  Eval vm_compute in map (fun k => 1 / Z2F (fact_pos k)) (seq 0 14).

(** A value kept within the range of the exact function. *)
Definition clamp (lo hi v : number) : number :=
  if v <=? hi then (if lo <=? v then v else lo) else hi.

Definition exp_series (x : number) : number :=
  let k := nearest (x * inv_ln2) in
  let r := (x - k * ln2_hi) - k * ln2_lo in
  Z.ldexp (horner exp_coeffs r) (SFtrunc (Prim2SF k)).

Definition exp (x : number) : number :=
  if is_nan x then nan
  else if x <=? 0 then
    if x <? -745.2 then 0 else clamp 0 1 (exp_series x)
  else if x <=? 0.5 then clamp 1 2 (exp_series x)
  else if 709.782712893384 <? x then infinity
  else exp_series x.

Definition odd_coeffs (alternate : bool) : list number :=
  map (fun k => (if alternate && Nat.odd k then -1 else 1) / Z2F (Z.of_nat (2 * k + 1)))
      (seq 0 14).

Definition atanh_coeffs : list number := Eval vm_compute in odd_coeffs false.
Definition atan_coeffs : list number := Eval vm_compute in odd_coeffs true.

Definition log (x : number) : number :=
  if is_nan x then nan
  else if x <? 0 then nan
  else if x =? 0 then neg_infinity
  else if is_infinity x then infinity
  else
    let (m, e) := Z.frexp x in
    let (m, e) := if m <? 0.7071067811865476 then (2 * m, (e - 1)%Z) else (m, e) in
    let s := (m - 1) / (m + 1) in
    Z2F e * ln2 + 2 * (s * horner atanh_coeffs (s * s)).

Definition tanh (x : number) : number :=
  if is_nan x then nan
  else if 20 <? x then 1
  else if x <? -20 then -1
  else if x =? 0 then x
  else let e2 := exp (2 * x) in clamp (-1) 1 ((e2 - 1) / (e2 + 1)).

Definition halve_angle (y : number) : number := y / (1 + sqrt (1 + y * y)).

Definition atan_small (y : number) : number :=
  let h := halve_angle (halve_angle y) in
  4 * (h * horner atan_coeffs (h * h)).

Definition atan (x : number) : number :=
  if is_nan x then nan
  else if x =? 0 then x
  else
    let a := abs x in
    let v := if is_infinity a then half_pi
             else if 1 <? a then half_pi - atan_small (1 / a)
             else atan_small a in
    clamp (-2) 2 (if x <? 0 then - v else v).

Definition sqrt (x : number) : number :=
  if (0 <=? x) && (x <=? 1) then clamp 0 1 (PrimFloat.sqrt x) else PrimFloat.sqrt x.

Fixpoint pow_pos (b : number) (n : positive) : number :=
  match n with
  | xH => b
  | xO p => let y := pow_pos b p in y * y
  | xI p => let y := pow_pos b p in b * (y * y)
  end.

Definition pow (b e : number) : number :=
  if is_nan e then nan
  else if e =? 0 then 1
  else if is_nan b then nan
  else if is_infinity e then
    let a := abs b in
    if a =? 1 then nan
    else if Bool.eqb (1 <? a) (0 <? e) then infinity else 0
  else if floor e =? e then
    match SFtrunc (Prim2SF e) with
    | Zpos p => pow_pos b p
    | Zneg p => 1 / pow_pos b p
    | Z0 => 1
    end
  else if is_infinity b || (b =? 0) then exp (e * log (abs b))
  else if b <? 0 then nan
  else exp (e * log b).

Definition host : MathHost := {|
  Math_exp := exp;
  Math_log := log;
  Math_tanh := tanh;
  Math_atan := atan;
  Math_sqrt := sqrt;
  Math_pow := pow
|}.

End RefHost.

(** ** Completions, template literals and traces *)

(** A template literal: its text pieces and the numbers interpolated in it. *)
Inductive piece :=
| Text (s : string)
| Interp (x : number).

Definition template := list piece.

(** What a [throw] statement throws: a template string or an [Error] object. *)
Inductive thrown :=
| ThrowString (msg : template)
| ThrowError (msg : template).

Definition message (t : thrown) : template :=
  match t with ThrowString m | ThrowError m => m end.

(** The completion of a call: a value or an exception. *)
Inductive completion (A : Type) :=
| Normal (a : A)
| Throw (t : thrown).
Arguments Normal {A} a.
Arguments Throw {A} t.

Definition bind {A B} (c : completion A) (k : A -> completion B) : completion B :=
  match c with
  | Normal a => k a
  | Throw t => Throw t
  end.

Notation "x <- c ;; k" := (bind c (fun x => k))
  (at level 61, c at next level, right associativity).

Definition throws {A} (c : completion A) : bool :=
  match c with Normal _ => false | Throw _ => true end.

(** An argument of a call: absent, [null], or a value. *)
Inductive js_arg (A : Type) :=
| Undefined
| Null
| Given (a : A).
Arguments Undefined {A}.
Arguments Null {A}.
Arguments Given {A} a.

(** A default parameter value replaces [undefined] only. *)
Definition default {A} (d : A) (a : js_arg A) : js_arg A :=
  match a with
  | Undefined => Given d
  | _ => a
  end.

(** Calls of the function-valued collaborators, in the order they happen. *)
Inductive event :=
| CallCdf (x : number)
| CallErf (x : number).

Definition traced (A : Type) : Type := (A * list event)%type.

Definition tret {A} (a : A) : traced A := (a, []).

Definition tbind {A B} (c : traced A) (k : A -> traced B) : traced B :=
  let (a, l) := c in let (b, l') := k a in (b, l ++ l').

Definition log_call (e : event) : traced unit := (tt, [e]).

Notation "x <~ c ;; k" := (tbind c (fun x => k))
  (at level 61, c at next level, right associativity).

Definition value {A} (c : traced A) : A := fst c.
Definition calls {A} (c : traced A) : list event := snd c.

(** ** The program *)

Definition ErrorFunction := number -> number.

Definition SQRT1_2 : number := 0.7071067811865476.

Section Program.

Context (M : MathHost).

(** *** util/factorial *)

Definition MAX_FACTORIAL_ARG : number := 170.

Definition everySinxteenthFactorial : list number :=
  [ 1.0; 2.0922789888e13; 2.631308369336935e35; 1.2413915592536073e61;
    1.2688693218588417e89; 7.156945704626381e118; 9.916779348709496e149;
    1.974506857221074e182; 3.856204823625804e215; 5.5502938327393044e249;
    4.7147236359920616e284 ].

(** [for (index = start; index <= fx; index++) s *= index], for at most
    [fuel] turns. *)
Fixpoint factorial_loop (fuel : nat) (index fx s : number) : number :=
  match fuel with
  | O => s
  | S k =>
      if index <=? fx then factorial_loop k (index + 1) fx (s * index)
      else s
  end.

(** An array read; [undefined] out of range, which multiplies to NaN. *)
Definition table_at (i : Z) : number :=
  if (i <? 0)%Z then nan else nth (Z.to_nat i) everySinxteenthFactorial nan.

Definition factorial_fueled (fuel : nat) (x : number) : completion number :=
  if x <? 0 then
    Throw (ThrowString [Text "The argument must be nonnegative. The argument was ";
                        Interp x; Text "."])
  else
    let fx := floor x in
    if isNaN fx then Normal nan
    else if gtb fx MAX_FACTORIAL_ARG then Normal infinity
    else
      let start := 1 + Z2F (wrap32 (Z.land (ToInt32 fx) (wrap32 (Z.lnot 15)))) in
      let s := factorial_loop fuel start fx 1.0 in
      Normal (s * table_at (wrap32 (Z.shiftr (ToInt32 fx) 4))).

(** The loop starts at the multiple of sixteen below [fx], so that sixteen
    turns are enough (lemmas [factorial_loop_leaves] and [checked_all]). *)
Definition factorial (x : number) : completion number := factorial_fueled 16 x.

(** *** erf.ts *)

Definition chebyshevErf (x : number) : number :=
  if x =? 0 then 0
  else
    let z := abs x in
    let t := 2 / (2 + z) in
    let r :=
      t * Math_exp M
            (- z * z - 1.26551223 +
             t * (1.00002368 +
             t * (0.37409196 +
             t * (0.09678418 +
             t * (-0.18628806 +
             t * (0.27886807 +
             t * (-1.13520398 +
             t * (1.48851587 +
             t * (-0.82215223 + t * 0.17087277))))))))) in
    if geb x 0 then 1 - r else r - 1.

(** [for (index = 0; index <= degree; index++) ...]: the turns of the
    loop from [index], [n] of them. *)
Fixpoint taylor_loop (n : nat) (index x b : number) : completion number :=
  match n with
  | O => Normal b
  | S k =>
      let t := Z2F (wrap32 (Z.shiftl (ToInt32 index) 1)) in
      let s := Math_pow M (-1) index in
      f <- factorial index ;;
      taylor_loop k (index + 1) x (b + (s * Math_pow M x t) / (f * (t + 1)))
  end.

(** The degree is an integer-valued number, at least -1; it defaults to 40. *)
Definition taylorErf (x : number) (degree : option Z) : completion number :=
  let degree := match degree with Some d => d | None => 40%Z end in
  let a := 1.1283791670955126 * x in
  b <- taylor_loop (Z.to_nat (degree + 1)) 0 x 0 ;;
  Normal (a * b).

Definition vazquezLealErf (x : number) : number :=
  let a := 11.001696879181248 in
  let b := 0.17789761643397722 in
  let c := 55.5 in
  Math_tanh M (a * x - c * Math_atan M (b * x)).

Definition soranzoErf (x : number) : number :=
  let x2 := x * x in
  let x4 := x2 * x2 in
  if x4 =? infinity then 1.0
  else
    let a := 1.2735457 in
    let b := 0.1487936 in
    let c := 0.1480931 in
    let d := 5.16e-4 in
    let f := Math_sqrt M (1 - Math_exp M ((- x2 * (a + b * x2)) / (1 + c * x2 + d * x4))) in
    if geb x 0 then f else - f.

(** *** ierf.ts *)

(** One turn of the refinement loop. *)
Definition halley (pp x : number) : number :=
  let err := chebyshevErf x - pp in
  x + err / (1.12837916709551257 * Math_exp M (- Math_sqrt M x) - x * err).

Definition acklamIerfc (p : number) : number :=
  if geb p 2.0 then -100.0
  else if p <=? 0.0 then 100.0
  else
    let pp := if p <? 1.0 then p else 2.0 - p in
    let t := Math_sqrt M (-2.0 * Math_log M (pp * 0.5)) in
    let x := -0.70711 * ((2.30753 + t * 0.27061) / (1.0 + t * (0.99229 + t * 0.04481)) - t) in
    let x := Nat.iter 2 (halley pp) x in
    if p <? 1.0 then x else - x.

End Program.

(** *** distributions/normal.ts *)

Record NormalDistribution := {
  mean : number;
  standardDeviation : number;
  erf : ErrorFunction
}.

Section Distribution.

Context (M : MathHost).

(** The private constructor.  An optional number is absent or given; the
    error function may also be [null].  The default values replace absent
    arguments before the body runs; [null] is not replaced. *)
Definition constructor (mean standardDeviation : option number)
    (erf : js_arg ErrorFunction) : completion NormalDistribution :=
  let mean := match mean with Some m => m | None => 0.0 end in
  let standardDeviation := match standardDeviation with Some s => s | None => 1.0 end in
  let erf := default (chebyshevErf M) erf in
  if isNaN mean then Throw (ThrowString [Text "The mean must be a number."])
  else if isNaN standardDeviation then
    Throw (ThrowError [Text "The standard deviation must be a number"])
  else if standardDeviation <=? 0 then
    Throw (ThrowError
      [Text "The standard deviation must be positive. The inserted standard deviation was ";
       Interp standardDeviation; Text "."])
  else
    match erf with
    | Given erf => Normal (Build_NormalDistribution mean standardDeviation erf)
    | _ =>
        Throw (ThrowError
          [Text "The error function formula approximation must not be undefined or null."])
    end.

(** [NormalDistribution.standard(erf?)] and
    [NormalDistribution.of(mean?, standardDeviation?, erf?)]. *)
Definition standard (erf : js_arg ErrorFunction) : completion NormalDistribution :=
  constructor (Some 0.0) (Some 1.0) erf.

Definition of_ (mean standardDeviation : option number) (erf : js_arg ErrorFunction)
  : completion NormalDistribution :=
  constructor mean standardDeviation erf.

Variable this : NormalDistribution.

Definition pdf (x : number) : number :=
  let inverseStandardDeviation := 1.0 / standardDeviation this in
  let a := 0.3989422804014327 * inverseStandardDeviation in
  let b := Math_pow M ((x - mean this) * inverseStandardDeviation) 2 in
  let c := Math_exp M (- b / 2.0) in
  a * c.

Definition standardize (x : number) : number :=
  (x - mean this) / standardDeviation this.

(** [cdf], with the calls it makes. *)
Definition cdf_traced (x : number) : traced number :=
  _ <~ log_call (CallCdf x) ;;
  let arg := standardize x * SQRT1_2 in
  _ <~ log_call (CallErf arg) ;;
  tret ((1.0 + erf this arg) / 2.0).

Definition cdf (x : number) : number := value (cdf_traced x).


(** [between], with the calls it makes; the minuend is evaluated first. *)
Definition between_traced (startInterval endInterval : number) : traced number :=
  if geb startInterval endInterval then tret 0
  else
    e <~ cdf_traced endInterval ;;
    s <~ cdf_traced startInterval ;;
    tret (e - s).

Definition between (startInterval endInterval : number) : number :=
  value (between_traced startInterval endInterval).

Definition variance : number := standardDeviation this * standardDeviation this.

End Distribution.

(** [NormalDistribution.isNormalDistributed(cdf, mean, standardDeviation, tolerance = 0.5e-2)],
    with the calls of [cdf] it makes. *)
Definition band (cdf : number -> number) (mean offset : number) : traced number :=
  hi <~ (_ <~ log_call (CallCdf (mean + offset)) ;; tret (cdf (mean + offset))) ;;
  lo <~ (_ <~ log_call (CallCdf (mean - offset)) ;; tret (cdf (mean - offset))) ;;
  tret (hi - lo).

Definition isNormalDistributed (cdf : number -> number) (mean standardDeviation : number)
    (tolerance : option number) : completion (traced bool) :=
  let tolerance := match tolerance with Some t => t | None => 0.5e-2 end in
  if isNaN mean then Throw (ThrowError [Text "The mean must be a number"])
  else if isNaN standardDeviation then
    Throw (ThrowError [Text "The standard deviation must be a number"])
  else if standardDeviation <=? 0 then
    Throw (ThrowError [Text "The standard deviation must be positive"])
  else
    Normal (
      insideFirstStandardDeviation <~ band cdf mean standardDeviation ;;
      if geb (abs (insideFirstStandardDeviation - 0.6826894772086507)) tolerance then tret false
      else
        insideSecondStandardDeviation <~ band cdf mean (2 * standardDeviation) ;;
        if geb (abs (insideSecondStandardDeviation - 0.954499740219751)) tolerance then tret false
        else
          insideThirdStandardDeviation <~ band cdf mean (3 * standardDeviation) ;;
          if geb (abs (insideThirdStandardDeviation - 0.9973002038534888)) tolerance then tret false
          else tret true).

(** ** The specification's wording, for comparison with the program *)

(** The values of [Math] that ECMAScript prescribes and the program meets. *)
Record prescribed_values (M : MathHost) : Prop := {
  exp_nan : Math_exp M nan = nan;
  exp_neg_infinity : Math_exp M neg_infinity = 0;
  log_nan : Math_log M nan = nan;
  sqrt_nan : Math_sqrt M nan = nan;
  tanh_infinity : Math_tanh M infinity = 1;
  tanh_neg_infinity : Math_tanh M neg_infinity = -1
}.

(** Acklam's initial guess, as [acklamIerfc] computes it. *)
Definition acklam_guess (t : number) : number :=
  -0.70711 * ((2.30753 + t * 0.27061) / (1.0 + t * (0.99229 + t * 0.04481)) - t).

(** The refinement as the specification words it: the error function is
    supplied, and the step is [x + err / (c * exp(-sqrt x) * x - x * err)]. *)
Definition stated_halley (M : MathHost) (erf : ErrorFunction) (pp x : number) : number :=
  let err := erf x - pp in
  x + err / (1.1283791670955126 * Math_exp M (- Math_sqrt M x) * x - x * err).

Definition stated_acklamIerfc (M : MathHost) (erf : option ErrorFunction) (p : number) : number :=
  let erf := match erf with Some f => f | None => chebyshevErf M end in
  let pp := if p <? 1 then p else 2 - p in
  let t := Math_sqrt M (-2 * Math_log M (pp * 0.5)) in
  let x0 := acklam_guess t in
  let x1 := stated_halley M erf pp x0 in
  let x2 := stated_halley M erf pp x1 in
  if geb p 1 then - x2 else x2.

(** The refinement as the program performs it: always against
    [chebyshevErf], with the step [x + err / (c * exp(-sqrt x) - x * err)]. *)
Definition performed_halley (M : MathHost) (pp x : number) : number :=
  let err := chebyshevErf M x - pp in
  x + err / (1.1283791670955126 * Math_exp M (- Math_sqrt M x) - x * err).

Definition performed_acklamIerfc (M : MathHost) (p : number) : number :=
  let pp := if p <? 1 then p else 2 - p in
  let t := Math_sqrt M (-2 * Math_log M (pp * 0.5)) in
  let x0 := acklam_guess t in
  let x1 := performed_halley M pp x0 in
  let x2 := performed_halley M pp x1 in
  if geb p 1 then - x2 else x2.

(** The conditions under which construction is said to fail, and those
    under which it does. *)
Definition absent_or_null {A} (a : js_arg A) : bool :=
  match a with Given _ => false | _ => true end.

Definition is_null {A} (a : js_arg A) : bool :=
  match a with Null => true | _ => false end.

Definition invalid_parameters (mean standardDeviation : number) : bool :=
  isNaN mean || isNaN standardDeviation || (standardDeviation <=? 0).

Definition stated_rejects (mean standardDeviation : number) (erf : js_arg ErrorFunction) : bool :=
  invalid_parameters mean standardDeviation || absent_or_null erf.

Definition rejects (mean standardDeviation : number) (erf : js_arg ErrorFunction) : bool :=
  invalid_parameters mean standardDeviation || is_null erf.

Definition mentions (x : number) (t : template) : Prop := In (Interp x) t.

(** The probability of a band and the test of a band. *)
Definition band_value (cdf : number -> number) (mean offset : number) : number :=
  cdf (mean + offset) - cdf (mean - offset).

Definition within (v c tolerance : number) : bool := abs (v - c) <? tolerance.

Definition passes (v c tolerance : number) : bool := negb (geb (abs (v - c)) tolerance).

Definition band_calls (mean offset : number) : list event :=
  [CallCdf (mean + offset); CallCdf (mean - offset)].

(** The factorial of an integer, and the product that [factorial] forms:
    the table entry of the multiple of sixteen below [n] times the product
    of the integers above it, in the order of the loop. *)
Fixpoint Zfact (n : nat) : Z :=
  match n with
  | O => 1%Z
  | S k => (Z.of_nat n * Zfact k)%Z
  end.

Definition blocked_product (n : nat) : number :=
  let q := (n / 16)%nat in
  fold_left (fun s k => s * Z2F (Z.of_nat k)) (seq (16 * q + 1) (n - 16 * q)) 1
  * nth q everySinxteenthFactorial nan.

(** The value of a finite number as [m * 2^e]. *)
Definition dyadic (f : number) : option (Z * Z) :=
  match Prim2SF f with
  | S754_finite s m e => Some (cond_Zopp s (Zpos m), e)
  | S754_zero _ => Some (0%Z, 0%Z)
  | _ => None
  end.

(** [f] is exactly the integer [z]. *)
Definition is_integer (f : number) (z : Z) : bool :=
  match dyadic f with
  | Some (m, e) => if (0 <=? e)%Z then (m * 2 ^ e =? z)%Z else (m =? z * 2 ^ (- e))%Z
  | None => false
  end.

(** [|f - z| * 2^k <= |z|]: [f] is [z] up to a relative error of [2^-k]. *)
Definition is_close (k : Z) (f : number) (z : Z) : bool :=
  match dyadic f with
  | Some (m, e) =>
      if (0 <=? e)%Z then (Z.abs (m * 2 ^ e - z) * 2 ^ k <=? Z.abs z)%Z
      else (Z.abs (m - z * 2 ^ (- e)) * 2 ^ k <=? Z.abs z * 2 ^ (- e))%Z
  | None => false
  end.

(** Auxiliary definitions for [factorial]. *)

(** The loop leaves by its test within [fuel] turns. *)
Fixpoint leaves (fuel : nat) (index fx : number) : bool :=
  match fuel with
  | O => false
  | S k => if index <=? fx then leaves k (index + 1) fx else true
  end.

(** What [factorial] computes once its argument is floored and accepted. *)
Definition factorial_tail (fuel : nat) (fx : number) : number :=
  let start := 1 + Z2F (wrap32 (Z.land (ToInt32 fx) (wrap32 (Z.lnot 15)))) in
  factorial_loop fuel start fx 1.0 * table_at (wrap32 (Z.shiftr (ToInt32 fx) 4)).

Definition loop_start (fx : number) : number :=
  1 + Z2F (wrap32 (Z.land (ToInt32 fx) (wrap32 (Z.lnot 15)))).

(** The facts checked by evaluation for each floored argument. *)
Definition checked (n : nat) (fx : number) : bool :=
  negb (isNaN fx) && negb (gtb fx MAX_FACTORIAL_ARG) &&
  leaves 16 (loop_start fx) fx &&
  PrimFloat.Leibniz.eqb (factorial_tail 16 fx) (blocked_product n) &&
  (if (n <=? 22)%nat then is_integer (blocked_product n) (Zfact n)
   else negb (is_integer (blocked_product n) (Zfact n)) &&
        is_close 51 (blocked_product n) (Zfact n)).

(** The number [r] of [chebyshevErf], a function of [|x|]. *)
Definition chebyshev_r (M : MathHost) (z : number) : number :=
  let t := 2 / (2 + z) in
  t * Math_exp M
        (- z * z - 1.26551223 +
         t * (1.00002368 +
         t * (0.37409196 +
         t * (0.09678418 +
         t * (-0.18628806 +
         t * (0.27886807 +
         t * (-1.13520398 +
         t * (1.48851587 +
         t * (-0.82215223 + t * 0.17087277))))))))).

(** The result of a rounding is a zero, a finite number or an infinity of
    the sign it was given. *)
Inductive signed (s : bool) : spec_float -> Prop :=
| signed_zero : signed s (S754_zero s)
| signed_finite m e : signed s (S754_finite s m e)
| signed_infinity : signed s (S754_infinity s).

(** * Binary64 numbers as integers

    The order of the numbers and the rounding of the arithmetic, read on
    integers: a number is its multiple of 2^-1074, and a rounding takes the
    exact result, a multiple of 2^-2148, to the multiple of the nearest
    number. *)

Section Valuation.

#[local] Open Scope Z_scope.

(** The state after k halvings of an exact mantissa. *)
Definition halved (m : Z) (k : nat) : shr_record :=
  match k with
  | O => Build_shr_record m false false
  | S j => Build_shr_record (m / 2 ^ Z.of_nat k)
             (Z.odd (m / 2 ^ Z.of_nat j))
             (negb (m mod 2 ^ Z.of_nat j =? 0))
  end.

(** Rounding to nearest, ties to even, of m / 2^n. *)
Definition rne (m n : Z) : Z :=
  let q := m / 2 ^ n in
  let r := m mod 2 ^ n in
  match 2 * r ?= 2 ^ n with
  | Lt => q
  | Eq => if Z.even q then q else q + 1
  | Gt => q + 1
  end.

(** The mantissa and exponent that rounding an exact [m * 2^e] produces. *)
Definition round_model (m e : Z) : Z * Z :=
  let n := Z.max 0 (fexp prec emax (Zdigits2 m + e) - e) in
  let M := rne m n in
  let e1 := e + n in
  let n2 := Z.max 0 (fexp prec emax (Zdigits2 M + e1) - e1) in
  (M / 2 ^ n2, e1 + n2).

(** The order-preserving integer of a valid binary64 value, in units of
    2^-1074; the infinities stand just beyond the finite numbers. *)
Definition B2Z (x : spec_float) : Z :=
  match x with
  | S754_zero _ => 0
  | S754_nan => 0
  | S754_infinity s => cond_Zopp s (2 ^ 2098)
  | S754_finite s m e => cond_Zopp s (Zpos m * 2 ^ (e + 1074))
  end.

(** Rounding of a positive integer in units of 2^-2148 to the integer of
    the nearest binary64 value. *)
Definition RN (V : Z) : Z :=
  let n := Z.max (Zdigits2 V - 53) 1074 in
  Z.min (rne V n * 2 ^ (n - 1074)) (2 ^ 2098).

Definition F2Z (x : float) : Z := B2Z (Prim2SF x).

(** The odd extension of [RN]. *)
Definition RNs (V : Z) : Z :=
  match V with
  | Z0 => 0
  | Zpos _ => RN V
  | Zneg p => - RN (Zpos p)
  end.

(** Finite numbers: neither NaN nor an infinity. *)
Definition finite_sf (x : spec_float) : Prop :=
  match x with S754_zero _ | S754_finite _ _ _ => True | _ => False end.

(** A location as two more bits of the mantissa. *)
Definition code (l : location) : Z :=
  match l with
  | loc_Exact => 0
  | loc_Inexact Lt => 1
  | loc_Inexact Eq => 2
  | loc_Inexact Gt => 3
  end.

End Valuation.

(** * Ranges by interval evaluation *)

(** Intervals of numbers. *)
Definition interval : Type := number * number.

Definition contains (i : interval) (x : number) : bool := (fst i <=? x) && (x <=? snd i).

Definition bounded_interval (i : interval) : bool := is_finite (fst i) && is_finite (snd i).

Definition fmin (a b : number) : number := if a <=? b then a else b.

Definition fmax (a b : number) : number := if a <=? b then b else a.

Definition accept (i : interval) : option interval :=
  if bounded_interval i then Some i else None.

Definition iadd_const (c : number) (v : interval) : interval := (c + fst v, c + snd v).

(** The products of a nonnegative interval [t] and an interval [v]. *)
Definition imul_nonneg (t v : interval) : interval :=
  (fmin (fst t * fst v) (snd t * fst v), fmax (fst t * snd v) (snd t * snd v)).

Fixpoint nested (cs : list number) (t : number) : number :=
  match cs with
  | [] => 0
  | c :: cs' => match cs' with [] => c | _ => c + t * nested cs' t end
  end.

Fixpoint horner_range (cs : list number) (t : interval) : option interval :=
  match cs with
  | [] => Some (0, 0)
  | c :: cs' =>
      match cs' with
      | [] => accept (c, c)
      | _ =>
          match horner_range cs' t with
          | Some v =>
              match accept (imul_nonneg t v) with
              | Some p => if is_finite c then accept (iadd_const c p) else None
              | None => None
              end
          | None => None
          end
      end
  end.

Definition chebyshev_coefficients : list number :=
  [1.00002368; 0.37409196; 0.09678418; -0.18628806; 0.27886807;
   -1.13520398; 1.48851587; -0.82215223; 0.17087277].

(** The range of [t * nested cs t] over an interval of nonnegative [t]. *)
Definition poly_range (cs : list number) (t : interval) : option interval :=
  match horner_range cs t with
  | Some v => accept (imul_nonneg t v)
  | None => None
  end.

(** The polynomial stays within [lower, upper] on each of the consecutive
    intervals from [lo] through the break points [bs]. *)
Fixpoint covered (cs : list number) (lo : number) (bs : list number) (lower upper : number)
  : bool :=
  match bs with
  | [] => true
  | b :: bs' =>
      (0 <=? lo) && bounded_interval (lo, b) &&
      match poly_range cs (lo, b) with
      | Some (l, h) => (lower <=? l) && (h <=? upper)
      | None => false
      end &&
      covered cs b bs' lower upper
  end.

(** The end of the last interval. *)
Fixpoint final (lo : number) (bs : list number) : number :=
  match bs with
  | [] => lo
  | b :: bs' => final b bs'
  end.

Definition chebyshev_grid : list number :=
  map (fun k => Z2F (Z.of_nat k) / 16) (seq 1 16).

(** The exponential of a number at most 0.5 is between 0 and 2. *)
Definition exp_keeps_range (M : MathHost) : Prop :=
  forall y, (y <=? 0.5) = true ->
    (0 <=? Math_exp M y) = true /\ (Math_exp M y <=? 2) = true.

(** The ranges of the exact functions, which an accurate host keeps. *)
Record host_ranges (M : MathHost) : Prop := {
  exp_range : exp_keeps_range M;
  exp_unit : forall y, (y <=? 0) = true -> (Math_exp M y <=? 1) = true;
  tanh_range : forall y, is_nan y = false -> in_unit (Math_tanh M y) = true;
  atan_range : forall y, is_nan y = false ->
                (-2 <=? Math_atan M y) = true /\ (Math_atan M y <=? 2) = true;
  sqrt_unit : forall u, (0 <=? u) = true -> (u <=? 1) = true ->
                (0 <=? Math_sqrt M u) = true /\ (Math_sqrt M u <=? 1) = true
}.

(** Two exact values that ECMAScript prescribes at the zeros. *)
Record prescribed_zeros (M : MathHost) : Prop := {
  exp_neg_zero : Math_exp M (-0) = 1;
  sqrt_zero : Math_sqrt M 0 = 0
}.

Definition MAX_VALUE : number := 0x1.fffffffffffffp+1023.

(** * The rest of the library *)

(** *** The error measures of the tests *)

Definition absoluteError (exact approximation : number) : number :=
  abs (exact - approximation).

Definition relativeError (exact approximation : number) : number :=
  abs ((exact - approximation) / exact).

(** *** [random]

    [Math.random] is the sequence of the numbers it returns, call after
    call; the state is the number of calls made.  The loop
    [do { .. } while (r === 0 || r >= 1)] runs for at most [fuel] turns. *)

Definition polar_radius (a b : number) : number :=
  let u := a * 2.0 - 1 in
  let v := b * 2.0 - 1 in
  u * u + v * v.

Fixpoint random_loop (M : MathHost) (this : NormalDistribution) (draws : nat -> number)
    (fuel : nat) (calls : nat) : option (number * nat) :=
  match fuel with
  | O => None
  | S k =>
      let u := draws calls * 2.0 - 1 in
      let v := draws (S calls) * 2.0 - 1 in
      let r := u * u + v * v in
      if (r =? 0) || geb r 1 then random_loop M this draws k (S (S calls))
      else
        Some (mean this
              + standardDeviation this * v * Math_sqrt M ((-2.0 * Math_log M r) / r),
              S (S calls))
  end.

(** The test that sends the loop round again. *)
Definition rejected (r : number) : bool := (r =? 0) || geb r 1.

(** The value returned from the draws [a] and [b]. *)
Definition polar_value (M : MathHost) (this : NormalDistribution) (a b : number) : number :=
  let v := b * 2.0 - 1 in
  let r := polar_radius a b in
  mean this + standardDeviation this * v * Math_sqrt M ((-2.0 * Math_log M r) / r).

(** The square of a number, by the host's [pow], is a number that is not
    negative. *)
Definition pow_square_nonneg (M : MathHost) : Prop :=
  forall z, is_nan z = false -> (0 <=? Math_pow M z 2) = true.

(** The neighbour of -1 towards 0: no number lies between them. *)
Definition above_minus_one : number := -0x1.fffffffffffffp-1.

(** *** index.ts: the class as the package's entry file declares it *)

Module Index.

Definition constructor (mean standardDeviation : number) (erf : js_arg ErrorFunction)
: completion NormalDistribution :=
if standardDeviation <? 0 then
  Throw (ThrowString
    [Text "The standard deviation must be nonnegative. The inserted standard deviation was ";
     Interp standardDeviation; Text "."])
else
  match erf with
  | Given erf => Normal (Build_NormalDistribution mean standardDeviation erf)
  | _ =>
      Throw (ThrowString
        [Text "The error function formula approximation must not be undefined or null."])
  end.

End Index.

(** * Properties *)

(** ** Comparisons and signs of binary64 values *)

Section FloatFacts.

Lemma SFcompare_refl x : x <> S754_nan -> SFcompare x x = Some Eq.
Proof.
  destruct x as [s|s| |s m e]; try destruct s; simpl; try congruence.
  all: rewrite Z.compare_refl, Pos.compare_cont_refl; reflexivity.
Qed.

Lemma is_nan_spec x :
  is_nan x = match Prim2SF x with S754_nan => true | _ => false end.
Proof.
  unfold is_nan. rewrite FloatAxioms.eqb_spec. unfold SFeqb.
  destruct (Prim2SF x) as [s|s| |s m e] eqn:E; try reflexivity.
  all: rewrite SFcompare_refl by discriminate; reflexivity.
Qed.

Lemma SFcompare_antisym x y :
  SFcompare y x = option_map CompOpp (SFcompare x y).
Proof.
  destruct x as [sx|sx| |sx mx ex], y as [sy|sy| |sy my ey]; simpl;
    try destruct sx; try destruct sy; try reflexivity.
  all: rewrite (Z.compare_antisym ex ey); destruct (ex ?= ey)%Z; simpl; try reflexivity.
  all: rewrite (ZC4 my mx); destruct (Pos.compare_cont Eq mx my); reflexivity.
Qed.

Lemma SFcompare_None x y : SFcompare x y = None -> x = S754_nan \/ y = S754_nan.
Proof.
  destruct x as [sx|sx| |sx mx ex], y as [sy|sy| |sy my ey]; simpl; intros H;
    try discriminate; tauto.
Qed.

Lemma ltb_leb_false x y : (x <? y) = true -> (y <=? x) = false.
Proof.
  rewrite ltb_spec, leb_spec. unfold SFltb, SFleb.
  rewrite (SFcompare_antisym (Prim2SF x) (Prim2SF y)).
  destruct (SFcompare (Prim2SF x) (Prim2SF y)) as [[]|]; simpl; congruence.
Qed.


Lemma leb_negb_ltb x y :
  is_nan x = false -> is_nan y = false -> (y <=? x) = negb (x <? y).
Proof.
  rewrite !is_nan_spec, ltb_spec, leb_spec. unfold SFltb, SFleb. intros Hx Hy.
  rewrite (SFcompare_antisym (Prim2SF x) (Prim2SF y)).
  destruct (SFcompare (Prim2SF x) (Prim2SF y)) as [[]|] eqn:E; simpl; try reflexivity.
  apply SFcompare_None in E. destruct E as [E|E]; rewrite E in *; discriminate.
Qed.

Lemma ltb_not_nan x y : (x <? y) = true -> is_nan x = false /\ is_nan y = false.
Proof.
  rewrite !is_nan_spec, ltb_spec. unfold SFltb.
  destruct (Prim2SF x), (Prim2SF y); simpl; try discriminate; auto.
Qed.

Lemma leb_not_nan x y : (x <=? y) = true -> is_nan x = false /\ is_nan y = false.
Proof.
  rewrite !is_nan_spec, leb_spec. unfold SFleb.
  destruct (Prim2SF x), (Prim2SF y); simpl; try discriminate; auto.
Qed.

Lemma eqb_not_nan x y : (x =? y) = true -> is_nan x = false /\ is_nan y = false.
Proof.
  rewrite !is_nan_spec, FloatAxioms.eqb_spec. unfold SFeqb.
  destruct (Prim2SF x), (Prim2SF y); simpl; try discriminate; auto.
Qed.

(** A number at most 0 is not at least 2. *)
Lemma leb_0_geb_2 p : (p <=? 0) = true -> geb p 2 = false.
Proof.
  unfold geb. rewrite !leb_spec. unfold SFleb.
  change (Prim2SF 0) with (S754_zero false).
  change (Prim2SF 2) with (S754_finite false 4503599627370496 (-51)).
  destruct (Prim2SF p) as [s|s| |s m e]; try destruct s; simpl; congruence.
Qed.

Lemma abs_opp x : abs (- x) = abs x.
Proof.
  apply Prim2SF_inj. rewrite !abs_spec, opp_spec. destruct (Prim2SF x); reflexivity.
Qed.

Lemma eqb_opp_zero x : (- x =? 0) = (x =? 0).
Proof.
  rewrite !FloatAxioms.eqb_spec, opp_spec.
  change (Prim2SF 0) with (S754_zero false).
  destruct (Prim2SF x) as [s|s| |s m e]; try destruct s; reflexivity.
Qed.

(** Of a finite number that is not a zero, exactly one of [x] and [-x]
    is at least 0. *)
Lemma geb_opp_zero x :
  is_nan x = false -> (x =? 0) = false -> geb (- x) 0 = negb (geb x 0).
Proof.
  unfold geb. rewrite is_nan_spec, FloatAxioms.eqb_spec, !leb_spec, opp_spec.
  change (Prim2SF 0) with (S754_zero false).
  destruct (Prim2SF x) as [s|s| |s m e]; try destruct s; cbn; congruence.
Qed.

End FloatFacts.

(** ** Rounding never invents a NaN *)

Section Rounding.

Lemma iter_pos_invariant {A} (P : A -> Prop) (f : A -> A) :
  (forall a, P a -> P (f a)) -> forall n a, P a -> P (SpecFloat.iter_pos f n a).
Proof.
  intros Hf. induction n as [n IH|n IH|]; intros a Ha; simpl; auto.
Qed.

Lemma shr_1_nonneg mrs : (0 <= shr_m mrs)%Z -> (0 <= shr_m (shr_1 mrs))%Z.
Proof.
  destruct mrs as [m r s]. simpl. destruct m as [|[p|p|]|[p|p|]]; simpl; lia.
Qed.

Lemma shr_nonneg mrs e n : (0 <= shr_m mrs)%Z -> (0 <= shr_m (fst (shr mrs e n)))%Z.
Proof.
  intros H. unfold shr. destruct n; simpl; auto.
  apply (iter_pos_invariant (fun x => (0 <= shr_m x)%Z)); auto using shr_1_nonneg.
Qed.

Lemma shr_fexp_nonneg m e l :
  (0 <= m)%Z -> (0 <= shr_m (fst (shr_fexp prec emax m e l)))%Z.
Proof.
  intros H. unfold shr_fexp. apply shr_nonneg.
  destruct l as [|[]]; exact H.
Qed.

Lemma round_nearest_even_nonneg m l : (0 <= m)%Z -> (0 <= round_nearest_even m l)%Z.
Proof.
  intros H. unfold round_nearest_even. destruct l as [|[]]; try destruct (Z.even m); lia.
Qed.

Lemma binary_round_aux_signed s m e l :
  (0 <= m)%Z -> signed s (binary_round_aux prec emax s m e l).
Proof.
  intros H. unfold binary_round_aux.
  pose proof (shr_fexp_nonneg m e l H) as H1.
  destruct (shr_fexp prec emax m e l) as [mrs' e']. simpl in H1.
  pose proof (shr_fexp_nonneg _ e' loc_Exact
                (round_nearest_even_nonneg _ (loc_of_shr_record mrs') H1)) as H2.
  destruct (shr_fexp prec emax _ e' loc_Exact) as [mrs'' e'']. simpl in H2.
  destruct (shr_m mrs''); try lia; try constructor.
  destruct (e'' <=? emax - prec)%Z; constructor.
Qed.

Lemma binary_round_signed s m e : signed s (binary_round prec emax s m e).
Proof.
  unfold binary_round. destruct (shl_align m e _) as [mz ez].
  apply binary_round_aux_signed. lia.
Qed.

Lemma signed_not_nan s x : signed s x -> x <> S754_nan.
Proof. intros []; discriminate. Qed.

Lemma binary_normalize_not_nan m e : binary_normalize prec emax m e false <> S754_nan.
Proof.
  destruct m; simpl; try discriminate; eapply signed_not_nan, binary_round_signed.
Qed.

(** Subtracting a finite number, or taking the absolute value, yields NaN
    from NaN only. *)
Lemma sub_finite_not_nan x c :
  is_finite c = true -> is_nan x = false -> is_nan (x - c) = false.
Proof.
  unfold is_finite, is_infinity. rewrite !is_nan_spec, FloatAxioms.eqb_spec, abs_spec, sub_spec.
  change (Prim2SF infinity) with (S754_infinity false).
  intros Hc Hx.
  destruct (Prim2SF x) as [sx|sx| |sx mx ex], (Prim2SF c) as [sc|sc| |sc mc ec];
    try discriminate; try destruct sx; try destruct sc; try reflexivity.
  all: unfold SF64sub, SFsub.
  all: match goal with |- context [binary_normalize _ _ ?m ?e false] =>
         pose proof (binary_normalize_not_nan m e) as N;
         destruct (binary_normalize prec emax m e false) end; congruence.
Qed.

Lemma SFeqb_refl x : x = S754_nan \/ SFeqb x x = true.
Proof.
  destruct x as [s|s| |s m e]; auto; right; unfold SFeqb;
    rewrite SFcompare_refl by discriminate; reflexivity.
Qed.

Lemma binary_round_aux_opp s m e l :
  SFopp (binary_round_aux prec emax s m e l) = binary_round_aux prec emax (negb s) m e l.
Proof.
  unfold binary_round_aux.
  destruct (shr_fexp prec emax m e l) as [mrs' e'].
  destruct (shr_fexp prec emax _ e' loc_Exact) as [mrs'' e''].
  destruct (shr_m mrs''); try reflexivity.
  destruct (e'' <=? emax - prec)%Z; reflexivity.
Qed.

Lemma binary_normalize_opp m e :
  SFopp (binary_normalize prec emax m e false) =
  match m with
  | Z0 => S754_zero true
  | _ => binary_normalize prec emax (- m) e false
  end.
Proof.
  destruct m; simpl; try reflexivity; unfold binary_round;
    match goal with |- context [shl_align ?a ?b ?c] => destruct (shl_align a b c) end;
    apply binary_round_aux_opp.
Qed.

Lemma binary_normalize_antisym d d' e :
  d' = (- d)%Z ->
  binary_normalize prec emax d e false = S754_nan \/
  SFeqb (binary_normalize prec emax d e false)
        (SFopp (binary_normalize prec emax d' e false)) = true.
Proof.
  intros ->. rewrite binary_normalize_opp, Z.opp_involutive.
  destruct d; simpl; auto; apply SFeqb_refl.
Qed.

Lemma SFsub_antisym x y :
  SF64sub x y = S754_nan \/ SFeqb (SF64sub x y) (SFopp (SF64sub y x)) = true.
Proof.
  unfold SF64sub.
  destruct x as [sx|sx| |sx mx ex], y as [sy|sy| |sy my ey];
    try (unfold SFsub; rewrite (Z.min_comm ey ex); apply binary_normalize_antisym; lia);
    simpl; try destruct sx; try destruct sy; simpl; auto; apply SFeqb_refl.
Qed.

(** [x - y] and [-(y - x)] are equal numbers, unless they are NaN. *)
Lemma sub_opp_eqb x y : is_nan (x - y) = false -> (x - y =? - (y - x)) = true.
Proof.
  rewrite is_nan_spec, FloatAxioms.eqb_spec, opp_spec, !sub_spec.
  destruct (SFsub_antisym (Prim2SF x) (Prim2SF y)) as [H|H]; rewrite H; auto; discriminate.
Qed.

Lemma nan_only x : is_nan x = true -> x = nan.
Proof.
  rewrite is_nan_spec. intros H. apply Prim2SF_inj.
  destruct (Prim2SF x); try discriminate. reflexivity.
Qed.

Lemma abs_not_nan x : is_nan (abs x) = is_nan x.
Proof. rewrite !is_nan_spec, abs_spec. destruct (Prim2SF x); reflexivity. Qed.

End Rounding.

(** ** The reference host meets the prescribed values *)

Lemma RefHost_prescribed : prescribed_values RefHost.host.
Proof. split; reflexivity. Qed.

(** ** [acklamIerfc] *)

(** C3.  For every p >= 2.0 [acklamIerfc] returns exactly -100.0 and for
    every p <= 0.0 exactly +100.0: finite sentinels, whatever the host. *)
Theorem acklamIerfc_saturates (M : MathHost) (p : number) :
  (geb p 2.0 = true -> acklamIerfc M p = -100.0) /\
  ((p <=? 0.0) = true -> acklamIerfc M p = 100.0).
Proof.
  unfold acklamIerfc. split; intros H.
  - rewrite H. reflexivity.
  - rewrite (leb_0_geb_2 p H), H. reflexivity.
Qed.

Lemma acklamIerfc_saturates_witness :
  acklamIerfc RefHost.host 2.0 = -100.0 /\
  acklamIerfc RefHost.host infinity = -100.0 /\
  acklamIerfc RefHost.host (-0.5) = 100.0 /\
  acklamIerfc RefHost.host neg_infinity = 100.0.
Proof.
  refine (conj _ (conj _ (conj _ _))).
  - apply (proj1 (acklamIerfc_saturates RefHost.host 2.0)). reflexivity.
  - apply (proj1 (acklamIerfc_saturates RefHost.host infinity)). reflexivity.
  - apply (proj2 (acklamIerfc_saturates RefHost.host (-0.5))). reflexivity.
  - apply (proj2 (acklamIerfc_saturates RefHost.host neg_infinity)). reflexivity.
Defined.

Lemma chebyshevErf_nan (M : MathHost) :
  Math_exp M nan = nan -> chebyshevErf M nan = nan.
Proof.
  intros E. unfold chebyshevErf.
  change (nan =? 0) with false. change (abs nan) with nan.
  change (2 / (2 + nan)) with nan. cbv beta zeta.
  change (- nan * nan - 1.26551223) with nan.
  match goal with |- context [Math_exp M ?a] => change a with nan end.
  rewrite E. reflexivity.
Qed.

Lemma halley_nan (M : MathHost) (pp : number) :
  Math_exp M nan = nan -> halley M pp nan = nan.
Proof.
  intros E. unfold halley. rewrite (chebyshevErf_nan M E).
  apply Prim2SF_inj. rewrite add_spec. reflexivity.
Qed.

(** C10.  [acklamIerfc(NaN)] is NaN: both guards are false on NaN, and the
    NaN goes through the logarithm, the initial guess and both refinement
    turns. *)
Theorem acklamIerfc_nan (M : MathHost) :
  prescribed_values M -> acklamIerfc M nan = nan.
Proof.
  intros P. unfold acklamIerfc.
  change (geb nan 2.0) with false. change (nan <=? 0.0) with false.
  change (nan <? 1.0) with false. cbv iota beta zeta.
  change (2.0 - nan) with nan. change (nan * 0.5) with nan.
  rewrite (log_nan M P). change (-2.0 * nan) with nan. rewrite (sqrt_nan M P).
  match goal with |- context [Nat.iter 2 _ ?a] => change a with nan end.
  simpl Nat.iter. rewrite !(halley_nan M _ (exp_nan M P)). reflexivity.
Qed.

Lemma acklamIerfc_nan_witness : acklamIerfc RefHost.host nan = nan.
Proof. apply (acklamIerfc_nan RefHost.host). exact RefHost_prescribed. Defined.

(** C1, as stated, fails at p = 0.5 on the reference host: the program's
    step divides by [c * exp(-sqrt x) - x * err], without the factor [x]. *)
Lemma acklamIerfc_not_as_stated :
  is_nan (acklamIerfc RefHost.host 0.5) = false /\
  is_nan (stated_acklamIerfc RefHost.host None 0.5) = false /\
  js_eq (acklamIerfc RefHost.host 0.5) (stated_acklamIerfc RefHost.host None 0.5) = false.
Proof. repeat split; vm_compute; reflexivity. Qed.

(** C1, amended.  For every p strictly between 0 and 2, [acklamIerfc(p)]
    reflects, takes t and the initial guess, and makes exactly two refinement
    turns against [chebyshevErf] (it has no error-function parameter) with the
    step [x + err / (c * exp(-sqrt x) - x * err)], and negates when p >= 1. *)
Theorem acklamIerfc_performs (M : MathHost) (p : number) :
  (0 <? p) = true -> (p <? 2) = true ->
  acklamIerfc M p = performed_acklamIerfc M p.
Proof.
  intros H0 H2. unfold acklamIerfc, performed_acklamIerfc.
  unfold geb at 1. rewrite (ltb_leb_false _ _ H2), (ltb_leb_false _ _ H0).
  destruct (ltb_not_nan _ _ H0) as [_ Hp].
  unfold geb. rewrite (leb_negb_ltb p 1 Hp eq_refl).
  destruct (p <? 1); reflexivity.
Qed.

Lemma acklamIerfc_performs_witness :
  acklamIerfc RefHost.host 0.5 = performed_acklamIerfc RefHost.host 0.5.
Proof. apply (acklamIerfc_performs RefHost.host 0.5); reflexivity. Defined.

(** ** Construction *)

(** C2, as stated, fails when the error function is absent: [undefined] is
    replaced by the default before the check, so construction succeeds. *)
Lemma of_undefined_erf_accepted :
  stated_rejects 0 1 Undefined = true /\
  throws (of_ RefHost.host (Some 0) (Some 1) Undefined) = false /\
  throws (standard RefHost.host Undefined) = false.
Proof. repeat split. Qed.

Lemma constructor_cases (M : MathHost) (m s : number) (f : js_arg ErrorFunction) :
  constructor M (Some m) (Some s) f =
  if isNaN m then Throw (ThrowString [Text "The mean must be a number."])
  else if isNaN s then Throw (ThrowError [Text "The standard deviation must be a number"])
  else if s <=? 0 then
    Throw (ThrowError
      [Text "The standard deviation must be positive. The inserted standard deviation was ";
       Interp s; Text "."])
  else match f with
       | Null => Throw (ThrowError
           [Text "The error function formula approximation must not be undefined or null."])
       | Undefined => Normal (Build_NormalDistribution m s (chebyshevErf M))
       | Given g => Normal (Build_NormalDistribution m s g)
       end.
Proof. unfold constructor. destruct f; reflexivity. Qed.

(** C2, amended.  [of] and [standard] throw exactly when the mean is NaN,
    the standard deviation is NaN or at most 0, or the error function is
    [null]; the message for a standard deviation at most 0 carries the value;
    otherwise the distribution has the given mean, standard deviation and error
    function, an absent argument standing for 0, 1 and [chebyshevErf]. *)
Theorem of_validates (M : MathHost) (mean standardDeviation : option number)
    (erf : js_arg ErrorFunction) :
  let m := match mean with Some m => m | None => 0 end in
  let s := match standardDeviation with Some s => s | None => 1 end in
  let f := match erf with Given f => f | _ => chebyshevErf M end in
  throws (of_ M mean standardDeviation erf) = rejects m s erf /\
  (rejects m s erf = false ->
     of_ M mean standardDeviation erf = Normal (Build_NormalDistribution m s f)) /\
  (isNaN m = false -> isNaN s = false -> (s <=? 0) = true ->
     exists t, of_ M mean standardDeviation erf = Throw t /\ mentions s (message t)) /\
  standard M erf = of_ M (Some 0) (Some 1) erf /\
  throws (standard M erf) = is_null erf.
Proof.
  intros m s f.
  assert (E : of_ M mean standardDeviation erf = constructor M (Some m) (Some s) erf)
    by (destruct mean, standardDeviation; reflexivity).
  rewrite E, constructor_cases. unfold rejects, invalid_parameters.
  repeat split.
  - destruct (isNaN m), (isNaN s), (s <=? 0), erf; reflexivity.
  - destruct (isNaN m), (isNaN s), (s <=? 0), erf; simpl; intros; try discriminate; reflexivity.
  - intros -> -> ->. eexists. split; [reflexivity|]. simpl. unfold mentions. simpl. auto.
  - unfold standard. rewrite constructor_cases. destruct erf; reflexivity.
Qed.

Lemma of_validates_witness :
  of_ RefHost.host (Some 2) None Undefined =
    Normal (Build_NormalDistribution 2 1 (chebyshevErf RefHost.host)) /\
  exists t, of_ RefHost.host (Some 0) (Some (-1)) Undefined = Throw t /\
            mentions (-1) (message t).
Proof.
  split.
  - apply (proj1 (proj2 (of_validates RefHost.host (Some 2) None Undefined))). reflexivity.
  - apply (proj1 (proj2 (proj2 (of_validates RefHost.host (Some 0) (Some (-1)) Undefined))));
      reflexivity.
Defined.

(** ** [between] *)

(** C6.  [between(startInterval, endInterval)] is exactly 0 whenever
    startInterval >= endInterval, and then neither [cdf] nor the error function
    is called; otherwise it is cdf(endInterval) - cdf(startInterval).  This
    holds of every distribution, so of every validly constructed one. *)
Theorem between_spec (this : NormalDistribution) (startInterval endInterval : number) :
  (geb startInterval endInterval = true ->
     between_traced this startInterval endInterval = (0, [])) /\
  (geb startInterval endInterval = false ->
     between this startInterval endInterval = cdf this endInterval - cdf this startInterval).
Proof.
  unfold between, between_traced. split; intros ->; reflexivity.
Qed.

Lemma between_spec_witness :
  let this := Build_NormalDistribution 0 1 (chebyshevErf RefHost.host) in
  between_traced this 1 1 = (0, []) /\
  between_traced this 2 1 = (0, []) /\
  between this 0 1 = cdf this 1 - cdf this 0.
Proof.
  intros this. refine (conj _ (conj _ _)).
  - apply (proj1 (between_spec this 1 1)). reflexivity.
  - apply (proj1 (between_spec this 2 1)). reflexivity.
  - apply (proj2 (between_spec this 0 1)). reflexivity.
Defined.

(** ** The limits of the closed forms *)

Lemma chebyshevErf_infinities (M : MathHost) :
  prescribed_values M ->
  chebyshevErf M infinity = 1 /\ chebyshevErf M neg_infinity = -1.
Proof.
  intros P. unfold chebyshevErf.
  change (infinity =? 0) with false. change (neg_infinity =? 0) with false.
  change (abs infinity) with infinity. change (abs neg_infinity) with infinity.
  change (2 / (2 + infinity)) with 0. cbv beta iota zeta.
  match goal with |- context [Math_exp M ?a] => change a with neg_infinity end.
  rewrite (exp_neg_infinity M P). split; reflexivity.
Qed.

(** C4.  At -Infinity (and wherever the fourth power overflows) [soranzoErf]
    returns 1 by its early return, before the sign is restored: it is not
    -1 there, and it is not the opposite of its value at +Infinity. *)
Theorem soranzoErf_neg_infinity (M : MathHost) :
  soranzoErf M infinity = 1 /\
  soranzoErf M neg_infinity = 1 /\
  soranzoErf M (-1e80) = 1 /\
  js_eq (soranzoErf M infinity) (- soranzoErf M neg_infinity) = false.
Proof. repeat split. Qed.

(** ** [isNormalDistributed] *)

(** C7, as stated, fails for a [cdf] that returns NaN: no band is within the
    tolerance of its constant, yet every test [Math.abs(..) >= tolerance]
    is false and the result is true. *)
Lemma isNormalDistributed_nan_cdf :
  within (band_value (fun _ => nan) 0 1) 0.6826894772086507 0.5e-2 = false /\
  exists calls, isNormalDistributed (fun _ => nan) 0 1 None = Normal (true, calls).
Proof. split; [reflexivity | eexists; reflexivity]. Qed.

Lemma passes_within (v c tolerance : number) :
  is_finite c = true -> is_nan v = false -> is_nan tolerance = false ->
  passes v c tolerance = within v c tolerance.
Proof.
  intros Hc Hv Ht. unfold passes, within, geb.
  rewrite (leb_negb_ltb (abs (v - c)) tolerance), negb_involutive; trivial.
  rewrite abs_not_nan. apply sub_finite_not_nan; assumption.
Qed.

(** C7, amended.  [isNormalDistributed] throws under exactly the conditions
    under which construction does for these parameters (NaN mean, NaN standard
    deviation, standard deviation at most 0), though not the same exception;
    otherwise it returns the conjunction of the three tests
    [not (|band - constant| >= tolerance)], stopping at the first band that
    fails; when neither the tolerance nor a band is NaN each test says that
    the band is strictly within the tolerance (by default 0.005) of its
    constant. *)
Theorem isNormalDistributed_spec (M : MathHost) (cdf : number -> number)
    (mean standardDeviation : number) (tolerance : option number) :
  let t := match tolerance with Some t => t | None => 0.005 end in
  let b1 := band_value cdf mean standardDeviation in
  let b2 := band_value cdf mean (2 * standardDeviation) in
  let b3 := band_value cdf mean (3 * standardDeviation) in
  let c1 := 0.6826894772086507 in
  let c2 := 0.954499740219751 in
  let c3 := 0.9973002038534888 in
  throws (isNormalDistributed cdf mean standardDeviation tolerance)
    = invalid_parameters mean standardDeviation /\
  (forall erf, throws (of_ M (Some mean) (Some standardDeviation) (Given erf))
    = invalid_parameters mean standardDeviation) /\
  (invalid_parameters mean standardDeviation = false ->
   exists r, isNormalDistributed cdf mean standardDeviation tolerance = Normal r /\
     value r = passes b1 c1 t && passes b2 c2 t && passes b3 c3 t /\
     (passes b1 c1 t = false -> calls r = band_calls mean standardDeviation) /\
     (passes b1 c1 t = true -> passes b2 c2 t = false ->
        calls r = band_calls mean standardDeviation ++
                  band_calls mean (2 * standardDeviation)) /\
     (is_nan t = false -> is_nan b1 = false -> is_nan b2 = false -> is_nan b3 = false ->
        value r = within b1 c1 t && within b2 c2 t && within b3 c3 t)).
Proof.
  intros t b1 b2 b3 c1 c2 c3.
  assert (E : forall r, passes b1 c1 t && passes b2 c2 t && passes b3 c3 t = r ->
              is_nan t = false -> is_nan b1 = false -> is_nan b2 = false ->
              is_nan b3 = false ->
              r = within b1 c1 t && within b2 c2 t && within b3 c3 t).
  { intros r <- Ht H1 H2 H3. unfold c1, c2, c3. rewrite !passes_within; auto. }
  unfold isNormalDistributed, invalid_parameters. fold t.
  refine (conj _ (conj _ _)).
  - destruct (isNaN mean), (isNaN standardDeviation), (standardDeviation <=? 0); reflexivity.
  - intros erf. unfold of_. rewrite constructor_cases.
    destruct (isNaN mean), (isNaN standardDeviation), (standardDeviation <=? 0); reflexivity.
  - destruct (isNaN mean), (isNaN standardDeviation), (standardDeviation <=? 0);
      try discriminate. intros _. eexists. split; [reflexivity|].
    unfold band, tbind, tret, log_call, value, calls. simpl.
    fold (band_value cdf mean standardDeviation).
    fold (band_value cdf mean (2 * standardDeviation)).
    fold (band_value cdf mean (3 * standardDeviation)).
    fold b1 b2 b3 c1 c2 c3.
    revert E. unfold passes.
    destruct (geb (abs (b1 - c1)) t); simpl.
    { intros E. repeat split; try discriminate. apply E. reflexivity. }
    destruct (geb (abs (b2 - c2)) t); simpl.
    { intros E. repeat split; try discriminate. apply E. reflexivity. }
    destruct (geb (abs (b3 - c3)) t); simpl.
    { intros E. repeat split; try discriminate. apply E. reflexivity. }
    intros E. repeat split; try discriminate. apply E. reflexivity.
Qed.

Lemma isNormalDistributed_spec_witness :
  let this := Build_NormalDistribution 0 1 (chebyshevErf RefHost.host) in
  exists r, isNormalDistributed (cdf this) 0 1 None = Normal r /\
    value r = within (band_value (cdf this) 0 1) 0.6826894772086507 0.005 &&
              within (band_value (cdf this) 0 (2 * 1)) 0.954499740219751 0.005 &&
              within (band_value (cdf this) 0 (3 * 1)) 0.9973002038534888 0.005.
Proof.
  intros this.
  destruct (proj2 (proj2 (isNormalDistributed_spec RefHost.host (cdf this) 0 1 None)))
    as [r [E [_ [_ [_ W]]]]]; [reflexivity|].
  exists r. split; [exact E|]. apply W; reflexivity.
Defined.

(** ** [factorial] *)

Section Factorial.

Lemma factorial_loop_leaves (a b : nat) :
  forall index fx s, leaves a index fx = true ->
  factorial_loop (a + b) index fx s = factorial_loop a index fx s.
Proof.
  induction a as [|a IH]; intros index fx s H; simpl in *; [discriminate|].
  destruct (index <=? fx); [apply IH; exact H | reflexivity].
Qed.

Lemma checked_all :
  forallb (fun n => checked n (Z2F (Z.of_nat n))) (seq 0 171) = true /\
  checked 0 (-0) = true.
Proof. split; vm_compute; reflexivity. Qed.

Lemma checked_upto (n : nat) : (n <= 170)%nat -> checked n (Z2F (Z.of_nat n)) = true.
Proof.
  intros H. destruct checked_all as [A _].
  rewrite forallb_forall in A. apply A. apply in_seq. lia.
Qed.

Lemma SFcompare_Eq x y :
  SFcompare x y = Some Eq ->
  x = y \/ exists s s', x = S754_zero s /\ y = S754_zero s'.
Proof.
  destruct x as [sx|sx| |sx mx ex], y as [sy|sy| |sy my ey]; simpl;
    try destruct sx; try destruct sy; try discriminate; eauto.
  all: destruct (ex ?= ey)%Z eqn:E; try discriminate.
  all: apply Z.compare_eq in E; subst.
  all: destruct (Pos.compare_cont Eq mx my) eqn:E; try discriminate.
  all: apply Pos.compare_eq in E; subst; auto.
Qed.

Lemma eqb_true x y :
  (x =? y) = true -> x = y \/ ((x =? 0) = true /\ (y =? 0) = true).
Proof.
  rewrite !FloatAxioms.eqb_spec. unfold SFeqb.
  destruct (SFcompare (Prim2SF x) (Prim2SF y)) as [[]|] eqn:E; try discriminate.
  intros _. apply SFcompare_Eq in E. destruct E as [E|[s [s' [E1 E2]]]].
  - left. apply Prim2SF_inj. exact E.
  - right. rewrite E1, E2. split; reflexivity.
Qed.

Lemma eqb_zero x : (x =? 0) = true -> x = 0 \/ x = -0.
Proof.
  rewrite FloatAxioms.eqb_spec. unfold SFeqb.
  change (Prim2SF 0) with (S754_zero false).
  destruct (Prim2SF x) as [[]|[]| |[]] eqn:E; try discriminate; intros _.
  - right. apply Prim2SF_inj. rewrite E. reflexivity.
  - left. apply Prim2SF_inj. rewrite E. reflexivity.
Qed.

Lemma factorial_fueled_tail (fuel : nat) (x : number) (n : nat) :
  (16 <= fuel)%nat -> (x <? 0) = false -> checked n (floor x) = true ->
  factorial_fueled fuel x = Normal (blocked_product n).
Proof.
  intros Hf Hx C. unfold checked in C.
  apply andb_prop in C. destruct C as [C _].
  apply andb_prop in C. destruct C as [C E].
  apply andb_prop in C. destruct C as [C L].
  apply andb_prop in C. destruct C as [N G].
  apply negb_true_iff in N. apply negb_true_iff in G.
  apply FloatAxioms.Leibniz.eqb_spec in E.
  unfold factorial_fueled. rewrite Hx, N, G. f_equal.
  rewrite <- E. unfold factorial_tail. f_equal.
  replace fuel with (16 + (fuel - 16))%nat by lia.
  apply factorial_loop_leaves. exact L.
Qed.

End Factorial.

(** C9, as stated, fails at 23: the product is a binary64 number, and 23!
    is not one. *)
Lemma factorial_23_inexact :
  factorial 23 = Normal (blocked_product 23) /\
  is_integer (blocked_product 23) (Zfact 23) = false.
Proof. split; vm_compute; reflexivity. Qed.

(** C9, amended.  [factorial(x)] throws for every negative x, with the
    argument in the message; returns NaN for NaN and +Infinity when floor(x) >
    170; and when floor(x) is an integer n from 0 to 170 it returns the table
    entry of the multiple of sixteen below n times the product of the integers
    above it: exactly n! up to n = 22, and n! up to a relative error of 2^-51
    from 23 on. *)
Theorem factorial_spec (fuel : nat) (x : number) :
  (16 <= fuel)%nat ->
  ((x <? 0) = true ->
     exists t, factorial_fueled fuel x = Throw t /\ mentions x (message t)) /\
  (isNaN x = true -> factorial_fueled fuel x = Normal nan) /\
  ((x <? 0) = false -> gtb (floor x) 170 = true ->
     factorial_fueled fuel x = Normal infinity) /\
  (forall n : nat, (n <= 170)%nat -> (x <? 0) = false ->
     js_eq (floor x) (Z2F (Z.of_nat n)) = true ->
     factorial_fueled fuel x = Normal (blocked_product n) /\
     ((n <= 22)%nat -> is_integer (blocked_product n) (Zfact n) = true) /\
     ((23 <= n)%nat -> is_integer (blocked_product n) (Zfact n) = false /\
                       is_close 51 (blocked_product n) (Zfact n) = true)).
Proof.
  intros Hf. refine (conj _ (conj _ (conj _ _))).
  - intros H. unfold factorial_fueled. rewrite H. eexists. split; [reflexivity|].
    unfold mentions. simpl. auto.
  - unfold isNaN. rewrite is_nan_spec. intros H.
    assert (E : x = nan).
    { apply Prim2SF_inj. destruct (Prim2SF x); try discriminate. reflexivity. }
    subst x. reflexivity.
  - intros H G. unfold factorial_fueled. rewrite H.
    destruct (isNaN (floor x)) eqn:N.
    + unfold gtb in G. apply ltb_not_nan in G. unfold isNaN in N. destruct G; congruence.
    + unfold MAX_FACTORIAL_ARG. rewrite G. reflexivity.
  - intros n Hn Hx E.
    pose proof (checked_upto n Hn) as C.
    assert (C' : checked n (floor x) = true).
    { apply eqb_true in E. destruct E as [E|[E1 E2]]; [rewrite E; exact C|].
      destruct n as [|n].
      - apply eqb_zero in E1. destruct E1 as [-> | ->]; [exact C | apply checked_all].
      - exfalso. clear -E2 Hn.
        assert (A : forallb (fun k => negb (Z2F (Z.of_nat (S k)) =? 0)) (seq 0 170) = true)
          by (vm_compute; reflexivity).
        rewrite forallb_forall in A. specialize (A n).
        rewrite E2 in A. discriminate A. apply in_seq. lia. }
    split; [apply factorial_fueled_tail; assumption|].
    unfold checked in C. apply andb_prop in C. destruct C as [_ C].
    destruct (n <=? 22)%nat eqn:L.
    + apply Nat.leb_le in L. split; [auto | lia].
    + apply Nat.leb_gt in L. apply andb_prop in C. destruct C as [C1 C2].
      apply negb_true_iff in C1. split; [lia | auto].
Qed.

Lemma factorial_spec_witness :
  (exists t, factorial (-1) = Throw t /\ mentions (-1) (message t)) /\
  factorial nan = Normal nan /\
  factorial 171 = Normal infinity /\
  factorial 5.5 = Normal (blocked_product 5) /\
  is_integer (blocked_product 5) 120 = true.
Proof.
  refine (conj _ (conj _ (conj _ _))).
  - apply (proj1 (factorial_spec 16 (-1) (le_n 16))). reflexivity.
  - apply (proj1 (proj2 (factorial_spec 16 nan (le_n 16)))). reflexivity.
  - apply (proj1 (proj2 (proj2 (factorial_spec 16 171 (le_n 16))))); reflexivity.
  - destruct (proj2 (proj2 (proj2 (factorial_spec 16 5.5 (le_n 16)))) 5%nat) as [E [I _]];
      [lia | reflexivity | reflexivity |].
    split; [exact E | apply I; lia].
Defined.

(** ** [chebyshevErf] *)

Section Chebyshev.

Context (M : MathHost).
Lemma chebyshevErf_r x :
  chebyshevErf M x =
  if x =? 0 then 0
  else if geb x 0 then 1 - chebyshev_r M (abs x) else chebyshev_r M (abs x) - 1.
Proof. reflexivity. Qed.

Lemma opp_not_nan x : is_nan (- x) = is_nan x.
Proof. rewrite !is_nan_spec, opp_spec. destruct (Prim2SF x); reflexivity. Qed.

Lemma chebyshevErf_nan_in : chebyshevErf M nan = nan.
Proof.
  rewrite chebyshevErf_r. change (nan =? 0) with false. change (geb nan 0) with false.
  cbv iota. apply Prim2SF_inj. unfold chebyshev_r. rewrite sub_spec, mul_spec. reflexivity.
Qed.

(** Oddness, wherever the value is a number. *)
Lemma chebyshevErf_odd_value x :
  is_nan (chebyshevErf M x) = false ->
  js_eq (chebyshevErf M (- x)) (- chebyshevErf M x) = true.
Proof.
  destruct (is_nan x) eqn:N.
  { apply nan_only in N. subst x. rewrite chebyshevErf_nan_in. discriminate. }
  unfold js_eq. rewrite !chebyshevErf_r, eqb_opp_zero, abs_opp.
  destruct (x =? 0) eqn:Z; [reflexivity|].
  rewrite (geb_opp_zero x N Z). set (r := chebyshev_r M (abs x)).
  assert (A : forall a b, is_nan (a - b) = false -> is_nan (b - a) = false).
  { intros a b H. apply sub_opp_eqb, eqb_not_nan in H.
    rewrite opp_not_nan in H. apply H. }
  destruct (geb x 0); simpl; intros H; apply sub_opp_eqb, A, H.
Qed.

End Chebyshev.

(** * The rounding of the arithmetic is monotone *)

Section RoundingOrder.

#[local] Open Scope Z_scope.

(** ** The number of binary digits *)

Lemma digits2_size p : digits2_pos p = Pos.size p.
Proof. induction p; simpl; congruence. Qed.

Lemma Zdigits2_log2 m : 0 < m -> Zdigits2 m = Z.log2 m + 1.
Proof.
  destruct m as [|p|p]; try lia. intros _. simpl. rewrite digits2_size.
  destruct p; simpl; lia.
Qed.

Lemma Zdigits2_bounds m : 0 < m -> 2 ^ (Zdigits2 m - 1) <= m < 2 ^ Zdigits2 m.
Proof.
  intros H. rewrite (Zdigits2_log2 m H).
  replace (Z.log2 m + 1 - 1) with (Z.log2 m) by lia.
  replace (Z.log2 m + 1) with (Z.succ (Z.log2 m)) by lia.
  apply Z.log2_spec. exact H.
Qed.

Lemma Zdigits2_unique m d : 0 < m -> 2 ^ (d - 1) <= m < 2 ^ d -> Zdigits2 m = d.
Proof.
  intros H B. rewrite (Zdigits2_log2 m H).
  assert (Z.log2 m = d - 1); [|lia].
  apply Z.log2_unique. 
  - destruct (Z.le_gt_cases 0 (d - 1)); trivial.
    assert (d = 0 \/ d < 0) as [-> | N] by lia.
    + change (2 ^ 0) with 1 in B. destruct B. exfalso. lia.
    + rewrite (Z.pow_neg_r 2 d) in B by lia. destruct B. exfalso. lia.
  - replace (Z.succ (d - 1)) with d by lia. exact B.
Qed.

(** ** Shifting an exact mantissa to the right

    [shr] halves a mantissa a number of times, recording the last bit shifted
    out and whether a lower one was set; from an exact start this is the
    quotient, its last remainder bit and the rest. *)

Lemma iter_pos_nat {A} (f : A -> A) p x :
  SpecFloat.iter_pos f p x = Nat.iter (Pos.to_nat p) f x.
Proof.
  revert x. induction p as [p IH|p IH|]; intros x.
  - change (SpecFloat.iter_pos f p~1 x) with (SpecFloat.iter_pos f p (SpecFloat.iter_pos f p (f x))).
    rewrite !IH, Pos2Nat.inj_xI.
    replace (S (2 * Pos.to_nat p)) with (S (Pos.to_nat p + Pos.to_nat p)) by lia.
    rewrite Nat.iter_succ_r, Nat.iter_add. reflexivity.
  - change (SpecFloat.iter_pos f p~0 x) with (SpecFloat.iter_pos f p (SpecFloat.iter_pos f p x)).
    rewrite !IH, Pos2Nat.inj_xO.
    replace (2 * Pos.to_nat p)%nat with (Pos.to_nat p + Pos.to_nat p)%nat by lia.
    rewrite Nat.iter_add. reflexivity.
  - reflexivity.
Qed.

Lemma shr_1_spec m r s :
  0 <= m -> shr_1 (Build_shr_record m r s) = Build_shr_record (m / 2) (Z.odd m) (r || s).
Proof.
  intros H. destruct m as [|[p|p|]|p]; try lia; try reflexivity.
  all: simpl shr_1; f_equal.
  - rewrite Pos2Z.inj_xI. apply Z.div_unique with (r := 1); lia.
  - rewrite Pos2Z.inj_xO. apply Z.div_unique with (r := 0); lia.
Qed.

Lemma shr_1_halved m k : 0 <= m -> shr_1 (halved m k) = halved m (S k).
Proof.
  intros Hm. destruct k as [|j].
  - unfold halved. rewrite shr_1_spec by lia. f_equal.
    + change (Z.of_nat 0) with 0. rewrite Z.pow_0_r, Z.div_1_r. reflexivity.
    + change (Z.of_nat 0) with 0. rewrite Z.pow_0_r, Z.mod_1_r. reflexivity.
  - unfold halved.
    set (P := 2 ^ Z.of_nat j). assert (HP : 0 < P) by (apply Z.pow_pos_nonneg; lia).
    assert (E1 : 2 ^ Z.of_nat (S j) = P * 2).
    { replace (Z.of_nat (S j)) with (Z.of_nat j + 1) by lia.
      rewrite Z.pow_add_r, Z.pow_1_r by lia. reflexivity. }
    assert (E2 : 2 ^ Z.of_nat (S (S j)) = P * 2 * 2).
    { replace (Z.of_nat (S (S j))) with (Z.of_nat j + 1 + 1) by lia.
      rewrite !Z.pow_add_r, Z.pow_1_r by lia. reflexivity. }
    rewrite E1, E2.
    rewrite shr_1_spec by (apply Z.div_pos; lia). f_equal.
    + rewrite Z.div_div by lia. reflexivity.
    + rewrite Z.rem_mul_r by lia. rewrite Zmod_odd.
      pose proof (Z.mod_pos_bound m P HP).
      destruct (Z.odd (m / P)); simpl.
      * destruct (Z.eqb_spec (m mod P + P * 1) 0); [lia | reflexivity].
      * rewrite Z.mul_0_r, Z.add_0_r. reflexivity.
Qed.

Lemma iter_shr_1_halved m k : 0 <= m -> Nat.iter k shr_1 (halved m O) = halved m k.
Proof.
  intros Hm. induction k as [|k IH]; [reflexivity|].
  change (Nat.iter (S k) shr_1 (halved m 0)) with (shr_1 (Nat.iter k shr_1 (halved m 0))).
  rewrite IH. apply shr_1_halved. exact Hm.
Qed.

(** Rounding the shifted mantissa to nearest even is [rne]. *)
Lemma round_halved m k :
  0 <= m ->
  round_nearest_even (shr_m (halved m k)) (loc_of_shr_record (halved m k)) = rne m (Z.of_nat k).
Proof.
  intros Hm. destruct k as [|j].
  - unfold halved, rne. simpl. rewrite Z.mod_1_r, Z.div_1_r. reflexivity.
  - unfold halved, rne. 
    set (P := 2 ^ Z.of_nat j). assert (HP : 0 < P) by (apply Z.pow_pos_nonneg; lia).
    assert (E1 : 2 ^ Z.of_nat (S j) = P * 2).
    { replace (Z.of_nat (S j)) with (Z.of_nat j + 1) by lia.
      rewrite Z.pow_add_r, Z.pow_1_r by lia. reflexivity. }
    rewrite E1. cbv zeta. rewrite Z.rem_mul_r by lia. rewrite Zmod_odd.
    pose proof (Z.mod_pos_bound m P HP).
    unfold shr_m, loc_of_shr_record.
    destruct (Z.odd (m / P)); destruct (Z.eqb_spec (m mod P) 0) as [E|E]; simpl negb; cbv iota.
    + rewrite E. replace (2 * (0 + P * 1)) with (P * 2) by lia. rewrite Z.compare_refl. reflexivity.
    + replace (2 * (m mod P + P * 1) ?= P * 2) with Gt by (symmetry; apply Z.compare_gt_iff; lia).
      reflexivity.
    + rewrite E. replace (2 * (0 + P * 0) ?= P * 2) with Lt by (symmetry; apply Z.compare_lt_iff; lia).
      reflexivity.
    + replace (2 * (m mod P + P * 0) ?= P * 2) with Lt by (symmetry; apply Z.compare_lt_iff; lia).
      reflexivity.
Qed.

Lemma shr_m_halved m k : shr_m (halved m k) = m / 2 ^ Z.of_nat k.
Proof. destruct k; [simpl; rewrite Z.div_1_r|]; reflexivity. Qed.

Lemma shr_exact m e n :
  0 <= m ->
  shr (Build_shr_record m false false) e n = (halved m (Z.to_nat n), e + Z.max 0 n).
Proof.
  intros Hm. unfold shr. destruct n as [|p|p].
  - simpl. f_equal. lia.
  - rewrite iter_pos_nat. change (Build_shr_record m false false) with (halved m 0).
    rewrite iter_shr_1_halved by exact Hm. rewrite Z2Nat.inj_pos. reflexivity.
  - simpl. f_equal. lia.
Qed.

Lemma shr_fexp_exact m e :
  0 <= m ->
  let n := fexp prec emax (Zdigits2 m + e) - e in
  shr_fexp prec emax m e loc_Exact = (halved m (Z.to_nat n), e + Z.max 0 n).
Proof. intros Hm n. unfold shr_fexp. simpl shr_record_of_loc. apply shr_exact, Hm. Qed.

Lemma rne_nonneg m n : 0 <= m -> 0 <= n -> 0 <= rne m n.
Proof.
  intros Hm Hn. unfold rne.
  assert (0 <= m / 2 ^ n) by (apply Z.div_pos; [lia | apply Z.pow_pos_nonneg; lia]).
  destruct (2 * (m mod 2 ^ n) ?= 2 ^ n); try destruct (Z.even _); lia.
Qed.

Lemma of_to_nat n : Z.of_nat (Z.to_nat n) = Z.max 0 n.
Proof. lia. Qed.

(** [binary_round_aux] on an exact mantissa: shift, round, shift again for
    a carry, and overflow to an infinity above the largest exponent. *)
Lemma binary_round_aux_model s m e :
  0 <= m ->
  binary_round_aux prec emax s m e loc_Exact =
  match fst (round_model m e) with
  | Z0 => S754_zero s
  | Zpos mm => if snd (round_model m e) <=? emax - prec then S754_finite s mm (snd (round_model m e))
               else S754_infinity s
  | Zneg _ => S754_nan
  end.
Proof.
  intros Hm. unfold binary_round_aux, round_model.
  rewrite (shr_fexp_exact m e Hm). cbv zeta.
  rewrite round_halved by exact Hm.
  rewrite of_to_nat.
  set (n := Z.max 0 (fexp prec emax (Zdigits2 m + e) - e)).
  rewrite shr_fexp_exact by (apply rne_nonneg; lia).
  rewrite shr_m_halved, of_to_nat. reflexivity.
Qed.

(** ** Rounding to nearest even on integers *)

Lemma pow2_pos n : 0 <= n -> 0 < 2 ^ n.
Proof. intros. apply Z.pow_pos_nonneg; lia. Qed.

Lemma rne_bounds m n : m / 2 ^ n <= rne m n <= m / 2 ^ n + 1.
Proof.
  unfold rne. destruct (2 * (m mod 2 ^ n) ?= 2 ^ n); try destruct (Z.even _); lia.
Qed.

Lemma rne_exact a n : 0 <= n -> rne (a * 2 ^ n) n = a.
Proof.
  intros Hn. pose proof (pow2_pos n Hn). unfold rne.
  rewrite Z.div_mul, Z.mod_mul by lia.
  replace (2 * 0 ?= 2 ^ n) with Lt by (symmetry; apply Z.compare_lt_iff; lia).
  reflexivity.
Qed.

Lemma rne_shift m n k : 0 <= n -> 0 <= k -> rne (m * 2 ^ k) (n + k) = rne m n.
Proof.
  intros Hn Hk. pose proof (pow2_pos n Hn). pose proof (pow2_pos k Hk). unfold rne.
  rewrite Z.pow_add_r by lia.
  rewrite Z.div_mul_cancel_r by lia.
  rewrite Z.mul_mod_distr_r by lia.
  replace (2 * (m mod 2 ^ n * 2 ^ k) ?= 2 ^ n * 2 ^ k)
    with (2 * (m mod 2 ^ n) ?= 2 ^ n); [reflexivity|].
  rewrite Z.mul_assoc. apply Zmult_compare_compat_r. lia.
Qed.

(** Rounding to nearest even is monotone. *)
Lemma rne_mono m1 m2 n : 0 <= n -> m1 <= m2 -> rne m1 n <= rne m2 n.
Proof.
  intros Hn H. pose proof (pow2_pos n Hn) as HP.
  pose proof (Z.div_le_mono m1 m2 (2 ^ n) HP H) as Hq.
  destruct (Z.eq_dec (m1 / 2 ^ n) (m2 / 2 ^ n)) as [E|E].
  - unfold rne. rewrite E.
    assert (R : m1 mod 2 ^ n <= m2 mod 2 ^ n).
    { rewrite !Z.mod_eq by lia. rewrite E. lia. }
    destruct (Z.compare_spec (2 * (m1 mod 2 ^ n)) (2 ^ n));
      destruct (Z.compare_spec (2 * (m2 mod 2 ^ n)) (2 ^ n));
      try destruct (Z.even _); lia.
  - pose proof (rne_bounds m1 n). pose proof (rne_bounds m2 n). lia.
Qed.

Lemma Zdigits2_nonneg m : 0 <= Zdigits2 m.
Proof. destruct m; simpl; lia. Qed.

Lemma Zdigits2_mono a b : 0 < a -> a <= b -> Zdigits2 a <= Zdigits2 b.
Proof.
  intros Ha H. rewrite !Zdigits2_log2 by lia.
  pose proof (Z.log2_le_mono a b H). lia.
Qed.

Lemma Zdigits2_lt m d : 0 < m -> 0 <= d -> m < 2 ^ d -> Zdigits2 m <= d.
Proof.
  intros Hm Hd H. destruct (Z.le_gt_cases (Zdigits2 m) d) as [L|G]; trivial.
  pose proof (Zdigits2_bounds m Hm) as [B _].
  assert (2 ^ d <= 2 ^ (Zdigits2 m - 1)) by (apply Z.pow_le_mono_r; lia). lia.
Qed.

Lemma Zdigits2_ge m d : 0 < m -> 2 ^ (d - 1) <= m -> d <= Zdigits2 m.
Proof.
  intros Hm H. destruct (Z.le_gt_cases d (Zdigits2 m)) as [L|G]; trivial.
  pose proof (Zdigits2_bounds m Hm) as [_ B].
  assert (2 ^ Zdigits2 m <= 2 ^ (d - 1)) by (apply Z.pow_le_mono_r; lia). lia.
Qed.

Lemma Zdigits2_mul_pow2 m k : 0 < m -> 0 <= k -> Zdigits2 (m * 2 ^ k) = Zdigits2 m + k.
Proof.
  intros Hm Hk. pose proof (pow2_pos k Hk).
  pose proof (Zdigits2_nonneg m).
  pose proof (Zdigits2_bounds m Hm) as [B1 B2].
  apply Zdigits2_unique; [nia|].
  assert (0 < Zdigits2 m).
  { destruct m; simpl in *; lia. }
  split.
  - replace (Zdigits2 m + k - 1) with (Zdigits2 m - 1 + k) by lia.
    rewrite Z.pow_add_r by lia. nia.
  - rewrite Z.pow_add_r by lia. nia.
Qed.

(** ** The value of a rounding

    The rounding of [m * 2^e], read as an integer, is [RN] of the exact
    value: it depends on the value only, not on the mantissa and exponent
    that present it. *)

Lemma fexp_spec e : fexp prec emax e = Z.max (e - 53) (-1074).
Proof. reflexivity. Qed.

Lemma rne_0 m : rne m 0 = m.
Proof. rewrite <- (Z.mul_1_r m) at 1. change 1 with (2 ^ 0). apply rne_exact. lia. Qed.

Lemma pow2_lt_mul M a b : 0 <= a -> 0 <= b -> M < 2 ^ a -> M * 2 ^ b < 2 ^ (a + b).
Proof.
  intros Ha Hb H. rewrite Z.pow_add_r by lia. pose proof (pow2_pos b Hb). nia.
Qed.

Lemma pow2_le_mul M a b : 0 <= a -> 0 <= b -> 2 ^ a <= M -> 2 ^ (a + b) <= M * 2 ^ b.
Proof.
  intros Ha Hb H. rewrite Z.pow_add_r by lia. pose proof (pow2_pos b Hb). nia.
Qed.

Section RoundValue.

Variables (m e : Z).
Hypothesis Hm : 0 < m.
Hypothesis He : -2148 <= e.

Let d := Zdigits2 m.
Let fe := Z.max (d + e - 53) (-1074).
Let n := Z.max 0 (fe - e).
Let M := rne m n.
Let e1 := e + n.
Let V := m * 2 ^ (e + 2148).

Lemma d_pos : 0 < d.
Proof. unfold d. destruct m; simpl; lia. Qed.

Lemma unclipped_value :
  rne V (Z.max (Zdigits2 V - 53) 1074) * 2 ^ (Z.max (Zdigits2 V - 53) 1074 - 1074)
  = M * 2 ^ (e1 + 1074).
Proof.
  unfold V. rewrite Zdigits2_mul_pow2 by lia. fold d.
  replace (Z.max (d + (e + 2148) - 53) 1074) with (fe + 2148) by (unfold fe; lia).
  unfold M, e1, n.
  destruct (Z.le_gt_cases e fe) as [L|G].
  - rewrite Z.max_r by lia.
    replace (fe + 2148) with (fe - e + (e + 2148)) by lia.
    rewrite rne_shift by lia. f_equal. f_equal. lia.
  - rewrite Z.max_l by lia. rewrite rne_0.
    replace (m * 2 ^ (e + 2148)) with (m * 2 ^ (e - fe) * 2 ^ (fe + 2148)).
    2:{ rewrite <- Z.mul_assoc, <- Z.pow_add_r by (unfold fe; lia). do 2 f_equal. lia. }
    rewrite rne_exact by (unfold fe; lia).
    rewrite <- Z.mul_assoc, <- Z.pow_add_r by (unfold fe; lia). do 2 f_equal. lia.
Qed.

Lemma M_le : 0 <= M <= 2 ^ 53.
Proof.
  split; [apply rne_nonneg; unfold n; lia|].
  pose proof (Zdigits2_bounds m Hm) as [_ B]. fold d in B.
  pose proof d_pos.
  unfold M. destruct (Z.le_gt_cases fe e) as [L|G].
  - unfold n. rewrite Z.max_l by lia. rewrite rne_0.
    assert (d <= 53) by (unfold fe in L; lia).
    assert (2 ^ d <= 2 ^ 53) by (apply Z.pow_le_mono_r; lia). lia.
  - assert (En : n = fe - e) by (unfold n; lia).
    assert (d - 53 <= n) by (unfold fe in *; lia).
    pose proof (rne_bounds m n) as [_ U].
    assert (m / 2 ^ n < 2 ^ 53); [|lia].
    apply Z.div_lt_upper_bound; [apply pow2_pos; lia|].
    rewrite <- Z.pow_add_r by lia.
    assert (2 ^ d <= 2 ^ (n + 53)) by (apply Z.pow_le_mono_r; lia). lia.
Qed.

Lemma e1_ge : -1074 <= e1.
Proof. unfold e1, n, fe. lia. Qed.

Hypothesis Hhigh : e <= 971 \/ e <= fe.

Lemma M_normal : -1074 < fe -> e <= fe -> 2 ^ 52 <= M.
Proof.
  intros H1 H2. assert (En : n = d - 53) by (unfold n, fe in *; lia).
  pose proof (Zdigits2_bounds m Hm) as [B _]. fold d in B.
  pose proof (rne_bounds m n) as [L _]. fold M in L.
  assert (2 ^ 52 <= m / 2 ^ n); [|lia].
  assert (0 <= n) by (unfold n; lia).
  apply Z.div_le_lower_bound; [apply pow2_pos; lia|].
  rewrite <- Z.pow_add_r by lia. replace (n + 52) with (d - 1) by lia. exact B.
Qed.

Lemma round_model_value :
  B2Z (match fst (round_model m e) with
       | Z0 => S754_zero false
       | Zpos mm => if snd (round_model m e) <=? emax - prec
                    then S754_finite false mm (snd (round_model m e))
                    else S754_infinity false
       | Zneg _ => S754_nan
       end) = Z.min (M * 2 ^ (e1 + 1074)) (2 ^ 2098).
Proof.
  unfold round_model. rewrite !fexp_spec. fold d. fold fe. fold n. fold M. fold e1.
  cbv zeta. pose proof M_le as [M0 M53]. pose proof e1_ge as E1.
  assert (T : 0 < 2 ^ 2098) by (apply pow2_pos; lia).
  change (emax - prec) with 971.
  destruct (Z.eq_dec M 0) as [Z|NZ].
  { rewrite Z. rewrite Z.div_0_l by (apply Z.pow_nonzero; lia). cbn [fst]. cbv [B2Z]. lia. }
  destruct (Z.eq_dec M (2 ^ 53)) as [C|NC].
  - (* carry *)
    rewrite C.
    replace (Zdigits2 (2 ^ 53)) with 54 by reflexivity.
    assert (N2 : Z.max 0 (Z.max (54 + e1 - 53) (-1074) - e1) = 1) by (clear -E1; clearbody e1; lia).
    rewrite N2.
    cbn [fst snd]. change (2 ^ 53 / 2 ^ 1) with (Z.pos (2 ^ 52)%positive). cbv iota.
    destruct (Z.leb_spec (e1 + 1) 971) as [L|G]; cbv [B2Z cond_Zopp].
    + rewrite Z.min_l.
      * change (Z.pos (2 ^ 52)) with (2 ^ 52).
        rewrite <- !Z.pow_add_r by lia. f_equal. lia.
      * rewrite <- Z.pow_add_r by lia. apply Z.lt_le_incl, Z.pow_lt_mono_r; lia.
    + rewrite Z.min_r; [reflexivity|].
      rewrite <- Z.pow_add_r by lia. apply Z.pow_le_mono_r; lia.
  - assert (ML : M < 2 ^ 53) by lia.
    assert (D : Zdigits2 M <= 53) by (apply Zdigits2_lt; lia).
    assert (N2 : Z.max 0 (Z.max (Zdigits2 M + e1 - 53) (-1074) - e1) = 0) by (clear -E1 D; clearbody e1; lia).
    rewrite N2.
    cbn [fst snd]. rewrite Z.pow_0_r, Z.div_1_r, Z.add_0_r.
    destruct M as [|p|p] eqn:EM; try lia.
    destruct (Z.leb_spec e1 971) as [L|G]; cbv [B2Z cond_Zopp].
    + rewrite Z.min_l; [reflexivity|].
      apply Z.lt_le_incl. apply Z.lt_le_trans with (2 ^ (53 + (e1 + 1074))).
      * apply pow2_lt_mul; lia.
      * apply Z.pow_le_mono_r; lia.
    + rewrite Z.min_r; [reflexivity|].
      assert (e <= fe) by (unfold e1, n in G; lia).
      assert (-1074 < fe) by (unfold e1, n in G; lia).
      pose proof (M_normal ltac:(lia) ltac:(lia)) as N. rewrite EM in N.
      apply Z.le_trans with (2 ^ (52 + (e1 + 1074))).
      * apply Z.pow_le_mono_r; lia.
      * apply pow2_le_mul; lia.
Qed.

End RoundValue.

(** The value of [binary_round_aux] on an exact input. *)
Theorem round_value s m e :
  0 < m -> -2148 <= e -> (e <= 971 \/ e <= fexp prec emax (Zdigits2 m + e)) ->
  B2Z (binary_round_aux prec emax s m e loc_Exact) = cond_Zopp s (RN (m * 2 ^ (e + 2148))).
Proof.
  intros Hm He Hh. rewrite binary_round_aux_model by lia.
  unfold RN. cbv zeta. rewrite (unclipped_value m e Hm He).
  rewrite <- (round_model_value m e Hm He Hh).
  destruct (fst (round_model m e)); try reflexivity.
  - destruct s; reflexivity.
  - destruct (snd (round_model m e) <=? emax - prec); reflexivity.
  - destruct s; reflexivity.
Qed.

(** [RN] is monotone. *)
Lemma RN_mono V1 V2 : 0 < V1 -> V1 <= V2 -> RN V1 <= RN V2.
Proof.
  intros H1 H. unfold RN. cbv zeta.
  apply Z.min_le_compat_r.
  set (d1 := Zdigits2 V1). set (d2 := Zdigits2 V2).
  assert (D : d1 <= d2) by (apply Zdigits2_mono; lia).
  set (n1 := Z.max (d1 - 53) 1074). set (n2 := Z.max (d2 - 53) 1074).
  assert (N : n1 <= n2) by (unfold n1, n2; lia).
  destruct (Z.eq_dec n1 n2) as [E|NE].
  - rewrite E. apply Z.mul_le_mono_nonneg_r; [apply Z.pow_nonneg; lia|].
    apply rne_mono; [unfold n2|]; lia.
  - assert (L : n1 < n2) by lia.
    assert (E2 : n2 = d2 - 53) by (unfold n1, n2 in *; lia).
    assert (D12 : d1 < d2) by (unfold n1, n2 in *; lia).
    pose proof (Zdigits2_bounds V1 H1) as [_ B1]. fold d1 in B1.
    pose proof (Zdigits2_bounds V2 ltac:(lia)) as [B2 _]. fold d2 in B2.
    pose proof (Zdigits2_nonneg V1) as P1. fold d1 in P1.
    assert (Hn1 : 1074 <= n1) by (unfold n1; lia).
    (* upper bound on the left *)
    assert (U : rne V1 n1 * 2 ^ (n1 - 1074) <= 2 ^ (Z.max d1 n1 - 1074)).
    { pose proof (rne_bounds V1 n1) as [_ U].
      assert (Q : V1 / 2 ^ n1 + 1 <= 2 ^ (Z.max d1 n1 - n1)).
      { destruct (Z.le_gt_cases n1 d1) as [A|A].
        - rewrite Z.max_l by lia.
          assert (V1 / 2 ^ n1 < 2 ^ (d1 - n1)); [|lia].
          apply Z.div_lt_upper_bound; [apply pow2_pos; lia|].
          rewrite <- Z.pow_add_r by lia. replace (n1 + (d1 - n1)) with d1 by lia. exact B1.
        - rewrite Z.max_r by lia. rewrite Z.sub_diag, Z.pow_0_r.
          assert (V1 / 2 ^ n1 = 0); [|lia].
          apply Z.div_small. split; [lia|].
          assert (2 ^ d1 <= 2 ^ n1) by (apply Z.pow_le_mono_r; lia). lia. }
      replace (Z.max d1 n1 - 1074) with ((Z.max d1 n1 - n1) + (n1 - 1074)) by lia.
      rewrite Z.pow_add_r by lia.
      apply Z.mul_le_mono_nonneg_r; [apply Z.pow_nonneg; lia | lia]. }
    (* lower bound on the right *)
    assert (W : 2 ^ (d2 - 1 - 1074) <= rne V2 n2 * 2 ^ (n2 - 1074)).
    { pose proof (rne_bounds V2 n2) as [Lo _].
      assert (Q : 2 ^ (d2 - 1 - n2) <= V2 / 2 ^ n2).
      { apply Z.div_le_lower_bound; [apply pow2_pos; lia|].
        rewrite <- Z.pow_add_r by lia. replace (n2 + (d2 - 1 - n2)) with (d2 - 1) by lia.
        exact B2. }
      replace (d2 - 1 - 1074) with ((d2 - 1 - n2) + (n2 - 1074)) by lia.
      rewrite Z.pow_add_r by lia.
      apply Z.mul_le_mono_nonneg_r; [apply Z.pow_nonneg; lia | lia]. }
    assert (2 ^ (Z.max d1 n1 - 1074) <= 2 ^ (d2 - 1 - 1074)) by (apply Z.pow_le_mono_r; lia).
    lia.
Qed.

Lemma RN_nonneg V : 0 <= V -> 0 <= RN V.
Proof.
  intros H. unfold RN. cbv zeta. apply Z.min_glb.
  - apply Z.mul_nonneg_nonneg; [apply rne_nonneg; lia | apply Z.pow_nonneg; lia].
  - apply Z.pow_nonneg. lia.
Qed.

Lemma RN_0 : RN 0 = 0.
Proof. reflexivity. Qed.

(** Valid finite numbers. *)
Lemma valid_finite s m e :
  valid_binary (S754_finite s m e) = true ->
  e = Z.max (Zdigits2 (Zpos m) + e - 53) (-1074) /\ e <= 971.
Proof.
  unfold SpecFloat.valid_binary, bounded, canonical_mantissa. rewrite fexp_spec.
  intros H. apply andb_prop in H. destruct H as [H1 H2].
  apply Z.eqb_eq in H1. apply Z.leb_le in H2.
  change (emax - prec) with 971 in H2. simpl Zdigits2. lia.
Qed.

Lemma valid_bounds s m e :
  valid_binary (S754_finite s m e) = true ->
  0 < Zpos m * 2 ^ (e + 1074) < 2 ^ 2098.
Proof.
  intros H. apply valid_finite in H. destruct H as [C B].
  pose proof (Zdigits2_bounds (Zpos m) ltac:(lia)) as [_ U].
  assert (D : Zdigits2 (Zpos m) <= 53) by lia.
  split.
  - apply Z.mul_pos_pos; [lia | apply pow2_pos; lia].
  - apply Z.lt_le_trans with (2 ^ (Zdigits2 (Z.pos m) + (e + 1074))).
    + apply pow2_lt_mul; try lia. apply Zdigits2_nonneg.
    + apply Z.pow_le_mono_r; lia.
Qed.

Lemma valid_lt s1 m1 e1 s2 m2 e2 :
  valid_binary (S754_finite s1 m1 e1) = true ->
  valid_binary (S754_finite s2 m2 e2) = true ->
  e1 < e2 -> Zpos m1 * 2 ^ (e1 + 1074) < Zpos m2 * 2 ^ (e2 + 1074).
Proof.
  intros H1 H2 L. apply valid_finite in H1, H2. destruct H1 as [C1 B1], H2 as [C2 B2].
  pose proof (Zdigits2_bounds (Zpos m1) ltac:(lia)) as [_ U1].
  pose proof (Zdigits2_bounds (Zpos m2) ltac:(lia)) as [L2 _].
  assert (D2 : Zdigits2 (Zpos m2) = 53) by lia. rewrite D2 in L2.
  assert (D1 : Zdigits2 (Zpos m1) <= 53) by lia.
  apply Z.lt_le_trans with (2 ^ (53 + (e1 + 1074))).
  - apply pow2_lt_mul; try lia.
    apply Z.lt_le_trans with (1 := U1). apply Z.pow_le_mono_r; lia.
  - apply Z.le_trans with (2 ^ (52 + (e2 + 1074))).
    + apply Z.pow_le_mono_r; lia.
    + apply pow2_le_mul; lia.
Qed.

(** ** The order of the numbers is the order of their integers *)

Lemma compare_cont_Z p q : Pos.compare_cont Eq p q = (Zpos p ?= Zpos q).
Proof. rewrite Pos.compare_cont_spec. simpl. destruct (p ?= q)%positive; reflexivity. Qed.

Lemma SFcompare_B2Z x y :
  valid_binary x = true -> valid_binary y = true ->
  x <> S754_nan -> y <> S754_nan ->
  SFcompare x y = Some (B2Z x ?= B2Z y).
Proof.
  intros Vx Vy Nx Ny.
  assert (T : 0 < 2 ^ 2098) by (apply pow2_pos; lia).
  destruct x as [sx|sx| |sx mx ex], y as [sy|sy| |sy my ey]; try congruence;
    try (pose proof (valid_bounds _ _ _ Vx)); try (pose proof (valid_bounds _ _ _ Vy));
    cbv [SFcompare B2Z cond_Zopp]; f_equal; symmetry.
  all: try destruct sx; try destruct sy.
  all: try (apply Z.compare_eq_iff; lia); try (apply Z.compare_lt_iff; lia);
       try (apply Z.compare_gt_iff; lia).
  all: destruct (Z.compare_spec ex ey) as [E|L|G].
  all: try (subst ey; rewrite compare_cont_Z).
  all: try (pose proof (valid_lt _ _ _ _ _ _ Vx Vy L)); try (pose proof (valid_lt _ _ _ _ _ _ Vy Vx G)).
  all: try (apply Z.compare_lt_iff; lia); try (apply Z.compare_gt_iff; lia).
  all: assert (P : 0 < 2 ^ (ex + 1074)) by (apply pow2_pos; apply valid_finite in Vx; lia).
  - rewrite <- Z.compare_opp. rewrite !Z.opp_involutive.
    rewrite Z.compare_antisym. f_equal.
    rewrite <- Zmult_compare_compat_r by lia. reflexivity.
  - rewrite <- Zmult_compare_compat_r by lia. reflexivity.
Qed.

(** ** Signed rounding *)

Lemma RNs_mono V1 V2 : V1 <= V2 -> RNs V1 <= RNs V2.
Proof.
  intros H. destruct V1 as [|p1|p1], V2 as [|p2|p2]; unfold RNs; try lia.
  all: try (pose proof (RN_nonneg (Zpos p1) ltac:(lia)));
       try (pose proof (RN_nonneg (Zpos p2) ltac:(lia))); try lia.
  - apply RN_mono; lia.
  - assert (RN (Zpos p2) <= RN (Zpos p1)); [apply RN_mono|]; lia.
Qed.

Lemma RNs_cond s V : 0 < V -> cond_Zopp s (RN V) = RNs (cond_Zopp s V).
Proof. intros H. destruct V; try lia. destruct s; reflexivity. Qed.

(** The comparisons of numbers that are not NaN. *)
Lemma leb_F2Z (x y : float) :
  is_nan x = false -> is_nan y = false -> (x <=? y)%float = (F2Z x <=? F2Z y).
Proof.
  rewrite !is_nan_spec, leb_spec. unfold SFleb, F2Z. intros Nx Ny.
  rewrite SFcompare_B2Z; try apply Prim2SF_valid;
    try (intros E; rewrite E in *; discriminate).
  unfold Z.leb. destruct (B2Z (Prim2SF x) ?= B2Z (Prim2SF y)); reflexivity.
Qed.

Lemma ltb_F2Z (x y : float) :
  is_nan x = false -> is_nan y = false -> (x <? y)%float = (F2Z x <? F2Z y).
Proof.
  rewrite !is_nan_spec, ltb_spec. unfold SFltb, F2Z. intros Nx Ny.
  rewrite SFcompare_B2Z; try apply Prim2SF_valid;
    try (intros E; rewrite E in *; discriminate).
  unfold Z.ltb. destruct (B2Z (Prim2SF x) ?= B2Z (Prim2SF y)); reflexivity.
Qed.

Lemma leb_le (x y : float) :
  (x <=? y)%float = true <-> is_nan x = false /\ is_nan y = false /\ F2Z x <= F2Z y.
Proof.
  split.
  - intros H. destruct (leb_not_nan _ _ H) as [Nx Ny].
    rewrite (leb_F2Z x y Nx Ny) in H. apply Z.leb_le in H. auto.
  - intros [Nx [Ny H]]. rewrite (leb_F2Z x y Nx Ny). apply Z.leb_le. exact H.
Qed.

Lemma is_finite_spec x : is_finite x = true <-> finite_sf (Prim2SF x).
Proof.
  unfold is_finite, is_infinity. rewrite is_nan_spec, FloatAxioms.eqb_spec, abs_spec.
  change (Prim2SF infinity) with (S754_infinity false).
  destruct (Prim2SF x) as [s|s| |s m e]; simpl; try tauto; try (split; [discriminate|tauto]).
Qed.

(** ** The values of the sum, the difference and the product *)

Lemma shl_align_value mx ex ez :
  ez <= ex ->
  Zpos (fst (shl_align mx ex ez)) = Zpos mx * 2 ^ (ex - ez) /\
  snd (shl_align mx ex ez) = ez.
Proof.
  intros H. unfold shl_align.
  destruct (ez - ex) as [|p|p] eqn:E; try lia.
  - assert (ex = ez) by lia. subst. rewrite Z.sub_diag. simpl. split; lia.
  - simpl fst. simpl snd. split; [|reflexivity].
    replace (ex - ez) with (Zpos p) by lia.
    change (Pos.iter xO mx p) with (shift_pos p mx).
    rewrite shift_pos_correct. rewrite Zpower_pos_powerRZ || idtac.
    rewrite Z.pow_pos_fold. lia.
Qed.

Lemma shl_align_cases p e e' :
  exists k, 0 <= k /\ Zpos (fst (shl_align p e e')) = Zpos p * 2 ^ k /\
            snd (shl_align p e e') = e - k /\ snd (shl_align p e e') = Z.min e e'.
Proof.
  unfold shl_align. destruct (e' - e) as [|q|q] eqn:E.
  - exists 0. simpl. split; [lia|]. split; [lia|]. split; lia.
  - exists 0. simpl. split; [lia|]. split; [lia|]. split; lia.
  - exists (Zpos q). simpl fst. simpl snd. split; [lia|]. split; [|split; lia].
    change (Pos.iter xO p q) with (shift_pos q p).
    rewrite shift_pos_correct, Z.pow_pos_fold. lia.
Qed.

Lemma binary_round_value s p e :
  -1074 <= e ->
  B2Z (binary_round prec emax s p e) = cond_Zopp s (RN (Zpos p * 2 ^ (e + 2148))).
Proof.
  intros He. unfold binary_round.
  destruct (shl_align_cases p e (fexp prec emax (Zpos (digits2_pos p) + e)))
    as [k [Hk [Em [Ee Emin]]]].
  destruct (shl_align p e _) as [mz ez]. simpl fst in *. simpl snd in *.
  rewrite fexp_spec in Emin.
  assert (D : Zdigits2 (Zpos mz) + ez = Zdigits2 (Zpos p) + e).
  { rewrite Em, Zdigits2_mul_pow2 by lia. lia. }
  rewrite round_value.
  - f_equal. f_equal. rewrite Em, <- Z.mul_assoc, <- Z.pow_add_r by lia.
    do 2 f_equal. lia.
  - lia.
  - lia.
  - right. rewrite D, fexp_spec. change (Zdigits2 (Zpos p)) with (Zpos (digits2_pos p)). lia.
Qed.

(** [binary_normalize] rounds the integer [S * 2^e]. *)
Lemma binary_normalize_value S e :
  -1074 <= e ->
  B2Z (binary_normalize prec emax S e false) = RNs (S * 2 ^ (e + 2148)).
Proof.
  intros He. pose proof (pow2_pos (e + 2148) ltac:(lia)) as P.
  destruct S as [|p|p]; unfold binary_normalize.
  - reflexivity.
  - rewrite binary_round_value by lia. cbv [cond_Zopp].
    destruct (Zpos p * 2 ^ (e + 2148)) eqn:E; try lia. reflexivity.
  - rewrite binary_round_value by lia. cbv [cond_Zopp].
    replace (Zneg p * 2 ^ (e + 2148)) with (- (Zpos p * 2 ^ (e + 2148))) by lia.
    destruct (Zpos p * 2 ^ (e + 2148)) eqn:E; try lia. reflexivity.
Qed.

Lemma round_canonical s m e :
  valid_binary (S754_finite s m e) = true ->
  binary_round_aux prec emax s (Zpos m) e loc_Exact = S754_finite s m e.
Proof.
  intros V. apply valid_finite in V. destruct V as [C B].
  rewrite binary_round_aux_model by lia. unfold round_model. rewrite !fexp_spec.
  replace (Z.max 0 (Z.max (Zdigits2 (Z.pos m) + e - 53) (-1074) - e)) with 0 by lia.
  cbv zeta. rewrite rne_0, Z.add_0_r.
  replace (Z.max 0 (Z.max (Zdigits2 (Z.pos m) + e - 53) (-1074) - e)) with 0 by lia.
  cbn [fst snd]. rewrite Z.pow_0_r, Z.div_1_r, Z.add_0_r.
  change (emax - prec) with 971.
  destruct (Z.leb_spec e 971); [reflexivity | lia].
Qed.

(** Rounding leaves a valid finite number as it is. *)
Lemma RN_valid s m e :
  valid_binary (S754_finite s m e) = true ->
  RN (Zpos m * 2 ^ (e + 2148)) = Zpos m * 2 ^ (e + 1074).
Proof.
  intros V. pose proof (valid_finite _ _ _ V) as [C B].
  assert (V' : valid_binary (S754_finite false m e) = true) by exact V.
  pose proof (round_value false (Zpos m) e ltac:(lia) ltac:(lia) ltac:(lia)) as R.
  rewrite (round_canonical false m e V') in R. cbv [B2Z cond_Zopp] in R. lia.
Qed.

Lemma RNs_valid x :
  valid_binary x = true -> finite_sf x -> RNs (B2Z x * 2 ^ 1074) = B2Z x.
Proof.
  intros V F. destruct x as [sx|sx| |sx mx ex]; try contradiction; try reflexivity.
  pose proof (valid_finite _ _ _ V) as [C B].
  pose proof (RN_valid _ _ _ V) as R.
  assert (E : Zpos mx * 2 ^ (ex + 1074) * 2 ^ 1074 = Zpos mx * 2 ^ (ex + 2148)).
  { rewrite <- Z.mul_assoc, <- Z.pow_add_r by lia. do 2 f_equal. lia. }
  pose proof (pow2_pos (ex + 2148) ltac:(lia)).
  cbv [B2Z cond_Zopp]. destruct sx.
  - rewrite Z.mul_opp_l, E. 
    destruct (Zpos mx * 2 ^ (ex + 2148)) eqn:EE; try lia. cbv [RNs Z.opp]. rewrite R. reflexivity.
  - rewrite E. destruct (Zpos mx * 2 ^ (ex + 2148)) eqn:EE; try lia. cbv [RNs]. exact R.
Qed.

(** The operands of a sum, aligned on the smaller exponent. *)
Lemma aligned_value s m e ez :
  -1074 <= ez -> ez <= e ->
  cond_Zopp s (Zpos (fst (shl_align m e ez))) * 2 ^ (ez + 2148)
  = cond_Zopp s (Zpos m * 2 ^ (e + 1074)) * 2 ^ 1074.
Proof.
  intros H1 H2. destruct (shl_align_cases m e ez) as [k [Hk [Em [Ee Emin]]]].
  rewrite Em. assert (k = e - ez) by lia. subst k.
  assert (E : Zpos m * 2 ^ (e - ez) * 2 ^ (ez + 2148) = Zpos m * 2 ^ (e + 1074) * 2 ^ 1074).
  { rewrite <- !Z.mul_assoc, <- !Z.pow_add_r by lia. do 2 f_equal. lia. }
  destruct s; cbv [cond_Zopp]; lia.
Qed.

Lemma SFadd_value x y :
  valid_binary x = true -> valid_binary y = true -> finite_sf x -> finite_sf y ->
  B2Z (SF64add x y) = RNs ((B2Z x + B2Z y) * 2 ^ 1074) /\ SF64add x y <> S754_nan.
Proof.
  intros Vx Vy Fx Fy. unfold SF64add.
  destruct x as [sx|sx| |sx mx ex], y as [sy|sy| |sy my ey]; try contradiction.
  - split; [|destruct sx, sy; discriminate]. destruct sx, sy; reflexivity.
  - split; [|discriminate]. unfold SFadd. rewrite Z.add_0_l. symmetry. apply RNs_valid; trivial.
  - split; [|discriminate]. unfold SFadd. rewrite Z.add_0_r. symmetry. apply RNs_valid; trivial.
  - pose proof (valid_finite _ _ _ Vx) as [Cx Bx]. pose proof (valid_finite _ _ _ Vy) as [Cy By].
    unfold SFadd. split; [|apply binary_normalize_not_nan].
    rewrite binary_normalize_value by lia. f_equal.
    rewrite !Z.mul_add_distr_r. rewrite !aligned_value by lia. reflexivity.
Qed.

Lemma SFsub_value x y :
  valid_binary x = true -> valid_binary y = true -> finite_sf x -> finite_sf y ->
  B2Z (SF64sub x y) = RNs ((B2Z x - B2Z y) * 2 ^ 1074) /\ SF64sub x y <> S754_nan.
Proof.
  intros Vx Vy Fx Fy. unfold SF64sub.
  destruct x as [sx|sx| |sx mx ex], y as [sy|sy| |sy my ey]; try contradiction.
  - split; [|destruct sx, sy; discriminate]. destruct sx, sy; reflexivity.
  - split; [|discriminate]. unfold SFsub. rewrite Z.sub_0_l.
    assert (V' : valid_binary (S754_finite (negb sy) my ey) = true) by exact Vy.
    rewrite <- (RNs_valid _ V' I). f_equal. f_equal. destruct sy; cbv [B2Z cond_Zopp negb]; lia.
  - split; [|discriminate]. unfold SFsub. rewrite Z.sub_0_r. symmetry. apply RNs_valid; trivial.
  - pose proof (valid_finite _ _ _ Vx) as [Cx Bx]. pose proof (valid_finite _ _ _ Vy) as [Cy By].
    unfold SFsub. split; [|apply binary_normalize_not_nan].
    rewrite binary_normalize_value by lia. f_equal.
    rewrite !Z.mul_sub_distr_r. rewrite !aligned_value by lia. reflexivity.
Qed.

Lemma SFmul_value x y :
  valid_binary x = true -> valid_binary y = true -> finite_sf x -> finite_sf y ->
  B2Z (SF64mul x y) = RNs (B2Z x * B2Z y) /\ SF64mul x y <> S754_nan.
Proof.
  intros Vx Vy Fx Fy. unfold SF64mul.
  destruct x as [sx|sx| |sx mx ex], y as [sy|sy| |sy my ey]; try contradiction.
  - split; [|discriminate]. reflexivity.
  - split; [|discriminate]. reflexivity.
  - split; [|discriminate]. unfold SFmul. cbv [B2Z]. rewrite Z.mul_0_r. reflexivity.
  - pose proof (valid_finite _ _ _ Vx) as [Cx Bx]. pose proof (valid_finite _ _ _ Vy) as [Cy By].
    unfold SFmul. split.
    2:{ eapply signed_not_nan. apply binary_round_aux_signed. lia. }
    rewrite Pos2Z.inj_mul.
    pose proof (Zdigits2_bounds (Zpos mx) ltac:(lia)) as [Lx Ux].
    pose proof (Zdigits2_bounds (Zpos my) ltac:(lia)) as [Ly Uy].
    rewrite round_value.
    + assert (E : Zpos mx * Zpos my * 2 ^ (ex + ey + 2148)
                  = (Zpos mx * 2 ^ (ex + 1074)) * (Zpos my * 2 ^ (ey + 1074))).
      { replace (ex + ey + 2148) with ((ex + 1074) + (ey + 1074)) by lia.
        rewrite Z.pow_add_r by lia. ring. }
      rewrite E.
      pose proof (valid_bounds _ _ _ Vx). pose proof (valid_bounds _ _ _ Vy).
      rewrite RNs_cond by nia. f_equal.
      destruct sx, sy; cbv [B2Z cond_Zopp xorb]; lia.
    + lia.
    + lia.
    + destruct (Z.le_gt_cases (ex + ey) 971) as [L|G]; [left; exact L | right].
      assert (Zdigits2 (Zpos mx) = 53) by lia. assert (Zdigits2 (Zpos my) = 53) by lia.
      rewrite fexp_spec.
      assert (105 <= Zdigits2 (Zpos mx * Zpos my)); [|lia].
      apply Zdigits2_ge; [lia|].
      replace (105 - 1) with (52 + 52) by lia. rewrite Z.pow_add_r by lia.
      replace (53 - 1) with 52 in * by lia.
      rewrite H in Lx. rewrite H0 in Ly. change (53 - 1) with 52 in Lx, Ly. nia.
Qed.

(** ** The operations on numbers *)

Lemma not_nan_sf x : is_nan x = false <-> Prim2SF x <> S754_nan.
Proof.
  rewrite is_nan_spec. destruct (Prim2SF x); split; intros; try discriminate; congruence.
Qed.

Lemma finite_not_nan x : is_finite x = true -> is_nan x = false.
Proof. unfold is_finite. destruct (is_nan x); [discriminate | reflexivity]. Qed.

Lemma finite_bound x : is_finite x = true -> - 2 ^ 2098 < F2Z x < 2 ^ 2098.
Proof.
  rewrite is_finite_spec. unfold F2Z. pose proof (Prim2SF_valid x) as V.
  assert (T : 0 < 2 ^ 2098) by (apply pow2_pos; lia).
  destruct (Prim2SF x) as [s|s| |s m e]; try contradiction; intros _.
  - cbv [B2Z]. lia.
  - pose proof (valid_bounds _ _ _ V). destruct s; cbv [B2Z cond_Zopp]; lia.
Qed.

Lemma bound_finite x : is_nan x = false -> - 2 ^ 2098 < F2Z x < 2 ^ 2098 -> is_finite x = true.
Proof.
  rewrite is_finite_spec, is_nan_spec. unfold F2Z.
  destruct (Prim2SF x) as [s|s| |s m e]; simpl; try tauto; try discriminate.
  intros _. destruct s; cbv [B2Z cond_Zopp]; lia.
Qed.

Section Arith.

Variables x y : float.
Hypothesis Fx : is_finite x = true.
Hypothesis Fy : is_finite y = true.

(** On finite numbers the sum, the difference and the product are the
    roundings of the exact results, and are not NaN. *)
Lemma add_F2Z :
  is_nan (x + y) = false /\ F2Z (x + y) = RNs ((F2Z x + F2Z y) * 2 ^ 1074).
Proof.
  rewrite not_nan_sf. unfold F2Z. rewrite add_spec.
  destruct (SFadd_value (Prim2SF x) (Prim2SF y)) as [V N];
    try apply Prim2SF_valid; try (apply is_finite_spec; assumption).
  split; assumption.
Qed.

Lemma sub_F2Z :
  is_nan (x - y) = false /\ F2Z (x - y) = RNs ((F2Z x - F2Z y) * 2 ^ 1074).
Proof.
  rewrite not_nan_sf. unfold F2Z. rewrite sub_spec.
  destruct (SFsub_value (Prim2SF x) (Prim2SF y)) as [V N];
    try apply Prim2SF_valid; try (apply is_finite_spec; assumption).
  split; assumption.
Qed.

Lemma mul_F2Z :
  is_nan (x * y) = false /\ F2Z (x * y) = RNs (F2Z x * F2Z y).
Proof.
  rewrite not_nan_sf. unfold F2Z. rewrite mul_spec.
  destruct (SFmul_value (Prim2SF x) (Prim2SF y)) as [V N];
    try apply Prim2SF_valid; try (apply is_finite_spec; assumption).
  split; assumption.
Qed.

End Arith.

(** Between finite bounds a number is finite. *)
Lemma between_finite l x h :
  is_finite l = true -> is_finite h = true ->
  (l <=? x)%float = true -> (x <=? h)%float = true -> is_finite x = true.
Proof.
  intros Fl Fh L H. apply leb_le in L, H. destruct L as [_ [Nx L]], H as [_ [_ H]].
  pose proof (finite_bound l Fl). pose proof (finite_bound h Fh).
  apply bound_finite; [assumption | lia].
Qed.

Lemma pow2_1074_pos : 0 < 2 ^ 1074.
Proof. apply pow2_pos. lia. Qed.

(** Monotonicity of the rounded operations on finite numbers. *)
Lemma add_le a a' b b' :
  is_finite a = true -> is_finite a' = true -> is_finite b = true -> is_finite b' = true ->
  F2Z a <= F2Z a' -> F2Z b <= F2Z b' -> (a + b <=? a' + b')%float = true.
Proof.
  intros Fa Fa' Fb Fb' A B.
  destruct (add_F2Z a b Fa Fb) as [N E]. destruct (add_F2Z a' b' Fa' Fb') as [N' E'].
  apply leb_le. repeat split; trivial. rewrite E, E'. apply RNs_mono.
  pose proof pow2_1074_pos. nia.
Qed.

Lemma sub_le a a' b b' :
  is_finite a = true -> is_finite a' = true -> is_finite b = true -> is_finite b' = true ->
  F2Z a <= F2Z a' -> F2Z b' <= F2Z b -> (a - b <=? a' - b')%float = true.
Proof.
  intros Fa Fa' Fb Fb' A B.
  destruct (sub_F2Z a b Fa Fb) as [N E]. destruct (sub_F2Z a' b' Fa' Fb') as [N' E'].
  apply leb_le. repeat split; trivial. rewrite E, E'. apply RNs_mono.
  pose proof pow2_1074_pos. nia.
Qed.

Lemma mul_le a a' b b' :
  is_finite a = true -> is_finite a' = true -> is_finite b = true -> is_finite b' = true ->
  F2Z a * F2Z b <= F2Z a' * F2Z b' -> (a * b <=? a' * b')%float = true.
Proof.
  intros Fa Fa' Fb Fb' A.
  destruct (mul_F2Z a b Fa Fb) as [N E]. destruct (mul_F2Z a' b' Fa' Fb') as [N' E'].
  apply leb_le. repeat split; trivial. rewrite E, E'. apply RNs_mono. exact A.
Qed.

Lemma leb_total a b :
  is_nan a = false -> is_nan b = false -> (a <=? b)%float = true \/ (b <=? a)%float = true.
Proof.
  intros Na Nb. rewrite !leb_le. destruct (Z.le_ge_cases (F2Z a) (F2Z b)); auto.
Qed.

Lemma leb_trans a b c :
  (a <=? b)%float = true -> (b <=? c)%float = true -> (a <=? c)%float = true.
Proof. rewrite !leb_le. intros [? [? ?]] [? [? ?]]. repeat split; trivial. lia. Qed.

(** ** Rounding from an inexact position, and the division *)

Lemma code_range l : 0 <= code l <= 3.
Proof. destruct l as [|[]]; simpl; lia. Qed.

Lemma shr_1_twice m l :
  0 <= m ->
  shr_1 (shr_1 (Build_shr_record (4 * m + code l) false false)) = shr_record_of_loc m l.
Proof.
  intros Hm. pose proof (code_range l).
  rewrite shr_1_spec by lia.
  assert (E1 : (4 * m + code l) / 2 = 2 * m + code l / 2).
  { replace (4 * m + code l) with (code l + (2 * m) * 2) by lia.
    rewrite Z.div_add by lia. lia. }
  rewrite E1.
  assert (0 <= code l / 2) by (apply Z.div_pos; lia).
  rewrite shr_1_spec by lia.
  assert (E2 : (2 * m + code l / 2) / 2 = m).
  { replace (2 * m + code l / 2) with (code l / 2 + m * 2) by lia.
    rewrite Z.div_add by lia.
    destruct l as [|[]]; simpl; reflexivity. }
  rewrite E2.
  replace (Z.odd (4 * m + code l)) with (Z.odd (code l)).
  2:{ replace (4 * m + code l) with (code l + 2 * (2 * m)) by lia.
      rewrite Z.odd_add_mul_2. reflexivity. }
  replace (Z.odd (2 * m + code l / 2)) with (Z.odd (code l / 2)).
  2:{ replace (2 * m + code l / 2) with (code l / 2 + 2 * m) by lia.
      rewrite Z.odd_add_mul_2. reflexivity. }
  destruct l as [|[]]; reflexivity.
Qed.

Lemma Zdigits2_code m l : 0 < m -> Zdigits2 (4 * m + code l) = Zdigits2 m + 2.
Proof.
  intros Hm. pose proof (code_range l).
  pose proof (Zdigits2_bounds m Hm) as [L U].
  assert (0 < Zdigits2 m) by (destruct m; simpl in *; lia).
  apply Zdigits2_unique; [lia|].
  replace (Zdigits2 m + 2 - 1) with (Zdigits2 m - 1 + 2) by lia.
  rewrite !Z.pow_add_r by lia. change (2 ^ 2) with 4. lia.
Qed.

Lemma shr_inexact m e l n :
  0 <= m -> 0 <= n ->
  shr (shr_record_of_loc m l) e n
  = shr (Build_shr_record (4 * m + code l) false false) (e - 2) (n + 2).
Proof.
  intros Hm Hn. pose proof (code_range l). unfold shr.
  destruct (n + 2) as [|p|p] eqn:E; try lia.
  rewrite iter_pos_nat.
  replace (Pos.to_nat p) with (Z.to_nat n + 2)%nat by lia.
  rewrite Nat.iter_add. change (Nat.iter 2 shr_1 ?x) with (shr_1 (shr_1 x)).
  rewrite shr_1_twice by lia.
  destruct n as [|q|q]; try lia.
  - simpl. f_equal. lia.
  - rewrite iter_pos_nat, Z2Nat.inj_pos. f_equal. lia.
Qed.

(** A rounding from an inexact position is the rounding of the exact
    mantissa carrying the position in two more bits. *)
Lemma binary_round_aux_inexact s m e l :
  0 < m -> e <= fexp prec emax (Zdigits2 m + e) ->
  binary_round_aux prec emax s m e l
  = binary_round_aux prec emax s (4 * m + code l) (e - 2) loc_Exact.
Proof.
  intros Hm Hn. unfold binary_round_aux, shr_fexp.
  rewrite Zdigits2_code by lia.
  replace (Zdigits2 m + 2 + (e - 2)) with (Zdigits2 m + e) by lia.
  rewrite (shr_inexact m e l) by lia.
  simpl (shr_record_of_loc (4 * m + code l) loc_Exact).
  replace (fexp prec emax (Zdigits2 m + e) - (e - 2))
    with (fexp prec emax (Zdigits2 m + e) - e + 2) by lia.
  reflexivity.
Qed.

Lemma new_location_code m r : 0 <= r -> (code (new_location m r) = 0 <-> r = 0).
Proof.
  intros Hr. unfold new_location, new_location_even, new_location_odd.
  destruct (Z.even m); destruct (Z.eqb_spec r 0) as [E|E];
    try (split; intros; [assumption | reflexivity]).
  - destruct (2 * r ?= m); cbv [code]; split; intros; lia.
  - destruct (2 * r + 1 ?= m); cbv [code]; split; intros; lia.
Qed.

(** What the division of two mantissas yields. *)
Lemma div_core m1 e1 m2 e2 :
  0 < m1 -> 0 < m2 ->
  exists s q r,
    SFdiv_core_binary prec emax m1 e1 m2 e2 = (q, e1 - e2 - s, new_location m2 r) /\
    0 <= s /\ m1 * 2 ^ s = q * m2 + r /\ 0 <= r < m2 /\
    e1 - e2 - s = Z.min (fexp prec emax (Zdigits2 m1 + e1 - (Zdigits2 m2 + e2))) (e1 - e2).
Proof.
  intros H1 H2. unfold SFdiv_core_binary.
  set (e' := Z.min (fexp prec emax (Zdigits2 m1 + e1 - (Zdigits2 m2 + e2))) (e1 - e2)).
  assert (Hs : 0 <= e1 - e2 - e') by (unfold e'; lia).
  set (m' := match e1 - e2 - e' with Zpos _ => Z.shiftl m1 (e1 - e2 - e') | Z0 => m1 | Zneg _ => 0 end).
  assert (Em : m' = m1 * 2 ^ (e1 - e2 - e')).
  { rewrite <- Z.shiftl_mul_pow2 by lia. unfold m'.
    destruct (e1 - e2 - e') as [|p|p]; try lia; reflexivity. }
  pose proof (Z_div_mod m' m2 ltac:(lia)) as D.
  destruct (Z.div_eucl m' m2) as [q r]. destruct D as [D1 D2].
  exists (e1 - e2 - e'), q, r.
  replace (e1 - e2 - (e1 - e2 - e')) with e' by lia.
  split; [reflexivity|]. split; [exact Hs|]. split; [lia|]. split; [lia|].
  reflexivity.
Qed.

Lemma fexp_mono a b : a <= b -> fexp prec emax a <= fexp prec emax b.
Proof. rewrite !fexp_spec. lia. Qed.

(** The quotient of 2 by a number at least 2 is between 0 and 1. *)
Lemma div_two_sf my ey :
  valid_binary (S754_finite false my ey) = true ->
  2 ^ 1075 <= Zpos my * 2 ^ (ey + 1074) ->
  let t := SF64div (S754_finite false 4503599627370496 (-51)) (S754_finite false my ey) in
  t <> S754_nan /\ 0 <= B2Z t <= 2 ^ 1074.
Proof.
  intros V Y t.
  pose proof (valid_finite _ _ _ V) as [C B].
  pose proof (Zdigits2_bounds (Zpos my) ltac:(lia)) as [Lm Um].
  (* the exponent of a number at least 2 *)
  assert (Ey : -51 <= ey).
  { destruct (Z.le_gt_cases (-51) ey) as [L|G]; trivial. exfalso.
    assert (Zpos my * 2 ^ (ey + 1074) < 2 ^ (53 + (ey + 1074))).
    { apply pow2_lt_mul; try lia.
      apply Z.lt_le_trans with (1 := Um). apply Z.pow_le_mono_r; lia. }
    assert (2 ^ (53 + (ey + 1074)) <= 2 ^ 1075) by (apply Z.pow_le_mono_r; lia). lia. }
  assert (Dy : Zdigits2 (Zpos my) = 53) by lia.
  rewrite Dy in Lm, Um. change (53 - 1) with 52 in Lm.
  assert (Y' : 2 ^ 52 <= Zpos my * 2 ^ (ey + 51)).
  { replace (ey + 1074) with ((ey + 51) + 1023) in Y by lia.
    rewrite Z.pow_add_r in Y by lia.
    change (2 ^ 1075) with (2 ^ 52 * 2 ^ 1023) in Y.
    pose proof (pow2_pos 1023 ltac:(lia)). nia. }
  unfold t, SF64div, SFdiv.
  destruct (div_core 4503599627370496 (-51) (Zpos my) ey ltac:(lia) ltac:(lia))
    as [s [q [r [E [Hs [Hd [Hr He]]]]]]].
  rewrite E. clear E.
  change (Zdigits2 4503599627370496) with 53 in He. rewrite Dy in He.
  change 4503599627370496 with (2 ^ 52) in Hd.
  set (e' := -51 - ey - s) in *.
  assert (Ee2 : -2146 <= e') by (rewrite fexp_spec in He; lia).
  assert (He' : e' <= fexp prec emax (53 + -51 - (53 + ey))) by lia.
  clear He. rename He' into He.
  pose proof (pow2_pos s Hs) as Ps.
  (* the quotient is positive and has enough digits *)
  assert (Hq : 2 ^ 52 * 2 ^ s < (q + 1) * 2 ^ 53) by nia.
  assert (Q0 : 0 < q).
  { destruct (Z.le_gt_cases q 0); [|lia]. exfalso.
    rewrite fexp_spec in He.
    assert (1 <= s) by (unfold e' in He; lia).
    assert (2 ^ 1 <= 2 ^ s) by (apply Z.pow_le_mono_r; lia).
    change (2 ^ 53) with (2 ^ 52 * 2) in Hq. change (2 ^ 1) with 2 in *. nia. }
  assert (N : e' <= fexp prec emax (Zdigits2 q + e')).
  { apply Z.le_trans with (1 := He). apply fexp_mono.
    assert (s <= Zdigits2 q); [|unfold e'; lia].
    destruct (Z.le_gt_cases s 0); [pose proof (Zdigits2_nonneg q); lia|].
    apply Zdigits2_ge; [lia|].
    assert (2 ^ s = 2 ^ (s - 1) * 2).
    { replace s with (s - 1 + 1) at 1 by lia. rewrite Z.pow_add_r by lia. reflexivity. }
    assert (0 < 2 ^ (s - 1)) by (apply pow2_pos; lia).
    change (2 ^ 53) with (2 ^ 52 * 2) in Hq. nia. }
  rewrite binary_round_aux_inexact by assumption.
  pose proof (code_range (new_location (Zpos my) r)) as Cr.
  split.
  { eapply signed_not_nan. apply binary_round_aux_signed. lia. }
  rewrite round_value; try lia.
  cbv [cond_Zopp]. split; [apply RN_nonneg; apply Z.mul_nonneg_nonneg; [lia | apply Z.pow_nonneg; lia]|].
  assert (R1 : RN (2 ^ 2148) = 2 ^ 1074).
  { assert (V1 : valid_binary (S754_finite false 4503599627370496 (-52)) = true) by reflexivity.
    apply (RN_valid _ _ _ V1). }
  rewrite <- R1. apply RN_mono.
  { apply Z.mul_pos_pos; [lia | apply pow2_pos; rewrite fexp_spec in He; unfold e' in *; lia]. }
  (* the value is at most 1 *)
  assert (Ee : e' <= 0) by (unfold e'; lia).
  set (T := 2 ^ (- e')).
  assert (PT : 0 < T) by (apply pow2_pos; lia).
  assert (TM : 2 ^ 52 * 2 ^ s <= T * Zpos my).
  { unfold T. replace (- e') with ((ey + 51) + s) by (unfold e'; lia).
    rewrite Z.pow_add_r by lia. nia. }
  assert (QT : 4 * q + code (new_location (Zpos my) r) <= 4 * T).
  { assert (q <= T) by nia.
    destruct (Z.eq_dec q T) as [EQ|NEQ]; [|lia].
    assert (r = 0) by nia.
    apply (new_location_code (Zpos my) r) in H0; lia. }
  replace (2 ^ 2148) with (4 * T * 2 ^ (e' - 2 + 2148)).
  - apply Z.mul_le_mono_nonneg_r; [apply Z.pow_nonneg; lia | exact QT].
  - unfold T. change 4 with (2 ^ 2). rewrite <- !Z.pow_add_r by lia. f_equal. lia.
Qed.

End RoundingOrder.

(** * The ranges of the closed forms *)

(** ** Soundness of the interval evaluation *)

Lemma fmin_le p q a :
  is_nan p = false -> is_nan q = false ->
  (p <=? a) = true \/ (q <=? a) = true -> (fmin p q <=? a) = true.
Proof.
  intros Np Nq H. unfold fmin. destruct (p <=? q) eqn:E.
  - destruct H as [H|H]; [exact H | exact (leb_trans _ _ _ E H)].
  - destruct (leb_total p q Np Nq) as [T|T]; [congruence|].
    destruct H as [H|H]; [exact (leb_trans _ _ _ T H) | exact H].
Qed.

Lemma fmax_ge p q a :
  is_nan p = false -> is_nan q = false ->
  (a <=? p) = true \/ (a <=? q) = true -> (a <=? fmax p q) = true.
Proof.
  intros Np Nq H. unfold fmax. destruct (p <=? q) eqn:E.
  - destruct H as [H|H]; [exact (leb_trans _ _ _ H E) | exact H].
  - destruct (leb_total p q Np Nq) as [T|T]; [congruence|].
    destruct H as [H|H]; [exact H | exact (leb_trans _ _ _ H T)].
Qed.

Lemma contains_spec i x :
  contains i x = true <-> (fst i <=? x) = true /\ (x <=? snd i) = true.
Proof. unfold contains. apply andb_true_iff. Qed.

Lemma bounded_spec i :
  bounded_interval i = true <-> is_finite (fst i) = true /\ is_finite (snd i) = true.
Proof. unfold bounded_interval. apply andb_true_iff. Qed.

Lemma contains_finite i x :
  bounded_interval i = true -> contains i x = true -> is_finite x = true.
Proof.
  rewrite bounded_spec, contains_spec. intros [Fl Fh] [L H].
  exact (between_finite _ _ _ Fl Fh L H).
Qed.

Lemma imul_nonneg_sound t v a x :
  bounded_interval t = true -> bounded_interval v = true ->
  (0 <=? fst t) = true ->
  contains t a = true -> contains v x = true ->
  contains (imul_nonneg t v) (a * x) = true.
Proof.
  intros Bt Bv P Ca Cx.
  pose proof (contains_finite _ _ Bt Ca) as Fa. pose proof (contains_finite _ _ Bv Cx) as Fx.
  apply bounded_spec in Bt, Bv. destruct Bt as [Ftl Fth], Bv as [Fvl Fvh].
  apply contains_spec in Ca, Cx. destruct Ca as [A1 A2], Cx as [X1 X2].
  apply leb_le in A1, A2, X1, X2, P.
  destruct A1 as [_ [_ A1]], A2 as [_ [_ A2]], X1 as [_ [_ X1]], X2 as [_ [_ X2]],
    P as [_ [_ P]].
  change (F2Z 0) with 0%Z in P.
  destruct t as [tl th], v as [vl vh]. simpl fst in *. simpl snd in *.
  unfold imul_nonneg. simpl fst. simpl snd.
  apply contains_spec. simpl fst. simpl snd. split.
  - apply fmin_le; try (apply mul_F2Z; assumption).
    destruct (Z.le_gt_cases 0 (F2Z vl)).
    + left. apply mul_le; trivial. nia.
    + right. apply mul_le; trivial. nia.
  - apply fmax_ge; try (apply mul_F2Z; assumption).
    destruct (Z.le_gt_cases 0 (F2Z vh)).
    + right. apply mul_le; trivial. nia.
    + left. apply mul_le; trivial. nia.
Qed.

Lemma iadd_const_sound c v x :
  is_finite c = true -> bounded_interval v = true -> contains v x = true ->
  contains (iadd_const c v) (c + x) = true.
Proof.
  intros Fc Bv Cx. pose proof (contains_finite _ _ Bv Cx) as Fx.
  apply bounded_spec in Bv. destruct Bv as [Fvl Fvh].
  apply contains_spec in Cx. destruct Cx as [X1 X2].
  apply leb_le in X1, X2. destruct X1 as [_ [_ X1]], X2 as [_ [_ X2]].
  apply contains_spec. unfold iadd_const. simpl fst. simpl snd.
  split; apply add_le; trivial; lia.
Qed.

Lemma accept_spec i j : accept i = Some j -> i = j /\ bounded_interval j = true.
Proof.
  unfold accept. destruct (bounded_interval i) eqn:E; [|discriminate].
  intros H. injection H as <-. auto.
Qed.

Lemma leb_refl x : is_nan x = false -> (x <=? x) = true.
Proof. intros N. apply leb_le. repeat split; trivial. lia. Qed.

(** The nested form of a polynomial stays in the interval computed for it. *)
Lemma horner_range_sound cs t i a :
  horner_range cs t = Some i ->
  bounded_interval t = true -> (0 <=? fst t) = true -> contains t a = true ->
  bounded_interval i = true /\ contains i (nested cs a) = true.
Proof.
  intros H Bt P Ca. revert i H.
  induction cs as [|c cs IH]; intros i H.
  - simpl in H. injection H as <-. split; reflexivity.
  - destruct cs as [|c' cs'].
    + simpl in H. apply accept_spec in H. destruct H as [<- B]. split; [exact B|].
      apply bounded_spec in B. simpl in B. destruct B as [B _].
      apply contains_spec. simpl. split; apply leb_refl, finite_not_nan, B.
    + change (horner_range (c :: c' :: cs') t) with
        (match horner_range (c' :: cs') t with
         | Some v => match accept (imul_nonneg t v) with
                     | Some p => if is_finite c then accept (iadd_const c p) else None
                     | None => None
                     end
         | None => None
         end) in H.
      change (nested (c :: c' :: cs') a) with (c + a * nested (c' :: cs') a).
      destruct (horner_range (c' :: cs') t) as [v|]; [|discriminate].
      destruct (IH v eq_refl) as [Bv Cv].
      destruct (accept (imul_nonneg t v)) as [p|] eqn:Ep; [|discriminate].
      apply accept_spec in Ep. destruct Ep as [<- Bp].
      destruct (is_finite c) eqn:Fc; [|discriminate].
      apply accept_spec in H. destruct H as [<- Bi]. split; [exact Bi|].
      apply iadd_const_sound; trivial.
      apply imul_nonneg_sound; trivial.
Qed.

Lemma poly_range_sound cs t i a :
  poly_range cs t = Some i ->
  bounded_interval t = true -> (0 <=? fst t) = true -> contains t a = true ->
  contains i (a * nested cs a) = true.
Proof.
  unfold poly_range. intros H Bt P Ca.
  destruct (horner_range cs t) as [v|] eqn:E; [|discriminate].
  destruct (horner_range_sound cs t v a E Bt P Ca) as [Bv Cv].
  apply accept_spec in H. destruct H as [<- _].
  apply imul_nonneg_sound; trivial.
Qed.

(** A covering of [lo, final lo bs] bounds the polynomial on all of it. *)
Lemma covered_sound cs bs : forall lo lower upper t,
  covered cs lo bs lower upper = true ->
  bs <> [] ->
  (lo <=? t) = true -> (t <=? final lo bs) = true ->
  (lower <=? t * nested cs t) = true /\ (t * nested cs t <=? upper) = true.
Proof.
  induction bs as [|b bs IH]; intros lo lower upper t C NE L H; [congruence|].
  simpl covered in C.
  apply andb_prop in C. destruct C as [C C4].
  apply andb_prop in C. destruct C as [C C3].
  apply andb_prop in C. destruct C as [C1 C2].
  destruct (leb_not_nan _ _ L) as [_ Nt].
  assert (Nb : is_nan b = false).
  { apply bounded_spec in C2. apply finite_not_nan, C2. }
  destruct (leb_total t b Nt Nb) as [T|T].
  - destruct (poly_range cs (lo, b)) as [[l h]|] eqn:E; [|discriminate].
    apply andb_prop in C3. destruct C3 as [Cl Ch].
    assert (Ct : contains (lo, b) t = true) by (apply contains_spec; split; assumption).
    pose proof (poly_range_sound cs (lo, b) (l, h) t E C2 C1 Ct) as S.
    apply contains_spec in S. simpl in S. destruct S as [S1 S2].
    split; eapply leb_trans; eassumption.
  - destruct bs as [|b' bs'].
    + simpl in H.
      destruct (poly_range cs (lo, b)) as [[l h]|] eqn:E; [|discriminate].
      apply andb_prop in C3. destruct C3 as [Cl Ch].
      assert (Ct : contains (lo, b) t = true) by (apply contains_spec; split; assumption).
      pose proof (poly_range_sound cs (lo, b) (l, h) t E C2 C1 Ct) as S.
      apply contains_spec in S. simpl in S. destruct S as [S1 S2].
      split; eapply leb_trans; eassumption.
    + apply (IH b lower upper t C4); [discriminate | exact T | exact H].
Qed.

(** The polynomial of [chebyshevErf] on [0, 1], in sixteen steps. *)
Lemma chebyshev_covered :
  covered chebyshev_coefficients 0 chebyshev_grid 0 1.5 = true.
Proof. vm_compute. reflexivity. Qed.

Lemma chebyshev_poly_bound t :
  (0 <=? t) = true -> (t <=? 1) = true ->
  (0 <=? t * nested chebyshev_coefficients t) = true /\
  (t * nested chebyshev_coefficients t <=? 1.5) = true.
Proof.
  intros L H. apply (covered_sound _ chebyshev_grid 0 0 1.5 t chebyshev_covered); trivial.
  discriminate.
Qed.

(** ** [chebyshevErf] stays in the closed interval from -1 to 1 *)

Lemma F2Z_opp x : F2Z (- x) = (- F2Z x)%Z.
Proof.
  unfold F2Z. rewrite opp_spec.
  destruct (Prim2SF x) as [s|s| |s m e]; try reflexivity; destruct s; cbv [SFopp B2Z cond_Zopp negb]; lia.
Qed.

Lemma is_finite_opp x : is_finite (- x) = is_finite x.
Proof.
  apply eq_true_iff_eq. rewrite !is_finite_spec, opp_spec.
  destruct (Prim2SF x); simpl; tauto.
Qed.

(** [t = 2 / (2 + z)] is between 0 and 1. *)
Lemma div_two_bound y :
  (2 <=? y) = true ->
  (0 <=? 2 / y) = true /\ (2 / y <=? 1) = true.
Proof.
  intros H. apply leb_le in H. destruct H as [_ [Ny H]].
  assert (E2 : F2Z 2 = (2 ^ 1075)%Z) by (vm_compute; reflexivity).
  rewrite E2 in H. unfold F2Z in H.
  pose proof (Prim2SF_valid y) as Vy.
  assert (T : (0 < 2 ^ 1075)%Z) by (apply pow2_pos; lia).
  assert (G : Prim2SF (2 / y) <> S754_nan /\ (0 <= B2Z (Prim2SF (2 / y)) <= 2 ^ 1074)%Z).
  { rewrite div_spec.
    change (Prim2SF 2) with (S754_finite false 4503599627370496 (-51)).
    destruct (Prim2SF y) as [s|s| |s m e] eqn:Ey.
    - cbv [B2Z] in H. lia.
    - destruct s.
      + cbv [B2Z cond_Zopp] in H. assert (0 < 2 ^ 2098)%Z by (apply pow2_pos; lia). lia.
      + split; [discriminate|]. cbv [SF64div SFdiv xorb B2Z]. split; [lia|apply Z.pow_nonneg; lia].
    - rewrite is_nan_spec, Ey in Ny. discriminate.
    - destruct s.
      + pose proof (valid_bounds _ _ _ Vy). cbv [B2Z cond_Zopp] in H. lia.
      + apply div_two_sf; [exact Vy | exact H]. }
  destruct G as [N [L U]].
  assert (Nq : is_nan (2 / y) = false) by (apply not_nan_sf; exact N).
  assert (E1 : F2Z 1 = (2 ^ 1074)%Z) by (vm_compute; reflexivity).
  split; apply leb_le; (split; [|split]); try exact Nq; try reflexivity.
  - exact L.
  - rewrite E1. exact U.
Qed.

Lemma infinite_cases x :
  is_nan x = false -> is_finite x = false -> x = infinity \/ x = neg_infinity.
Proof.
  intros N F.
  assert (G : ~ finite_sf (Prim2SF x)) by (rewrite <- is_finite_spec; congruence).
  rewrite is_nan_spec in N.
  destruct (Prim2SF x) as [s|s| |s m e] eqn:E; simpl in G; try tauto; try discriminate.
  destruct s; [right | left]; apply Prim2SF_inj; rewrite E; reflexivity.
Qed.

Lemma abs_nonneg x : is_nan x = false -> (0 <=? abs x) = true.
Proof.
  rewrite is_nan_spec, leb_spec, abs_spec. unfold SFleb.
  change (Prim2SF 0) with (S754_zero false).
  destruct (Prim2SF x) as [s|s| |s m e]; try discriminate; reflexivity.
Qed.

Lemma neg_infinity_add q : is_finite q = true -> neg_infinity + q = neg_infinity.
Proof.
  rewrite is_finite_spec. intros F. apply Prim2SF_inj. rewrite add_spec.
  change (Prim2SF neg_infinity) with (S754_infinity true).
  destruct (Prim2SF q); try contradiction; reflexivity.
Qed.

Section ChebyshevRange.

Context (M : MathHost) (R : exp_keeps_range M).

(** [r = t * exp(..)] is between 0 and 2 when the exponent is at most 0.5. *)
Lemma r_of_parts t E :
  (0 <=? t) = true -> (t <=? 1) = true -> (E <=? 0.5) = true ->
  (0 <=? t * Math_exp M E) = true /\ (t * Math_exp M E <=? 2) = true.
Proof.
  intros T0 T1 HE. destruct (R E HE) as [X0 X2].
  assert (Ft : is_finite t = true) by (apply (between_finite 0 t 1); trivial).
  assert (Fe : is_finite (Math_exp M E) = true) by (apply (between_finite 0 _ 2); trivial).
  apply leb_le in T0, T1, X0, X2.
  destruct T0 as [_ [_ T0]], T1 as [_ [_ T1]], X0 as [_ [_ X0]], X2 as [_ [_ X2]].
  change (F2Z 0) with 0%Z in *.
  split.
  - change 0 with (0 * 0) at 1. apply mul_le; trivial. change (F2Z 0) with 0%Z. nia.
  - change 2 with (1 * 2). apply mul_le; trivial.
    assert (0 <= F2Z 1)%Z by (vm_compute; discriminate).
    assert (0 <= F2Z 2)%Z by (vm_compute; discriminate). nia.
Qed.

(** The exponent is at most -1.26551223 + 1.5. *)
Lemma chebyshev_exponent z t :
  is_finite z = true -> (0 <=? t) = true -> (t <=? 1) = true ->
  (- z * z - 1.26551223 + t * nested chebyshev_coefficients t <=? 0.5) = true.
Proof.
  intros Fz T0 T1.
  destruct (chebyshev_poly_bound t T0 T1) as [Q0 Q1].
  set (Q := t * nested chebyshev_coefficients t) in *.
  assert (FQ : is_finite Q = true) by (apply (between_finite 0 Q 1.5); trivial).
  assert (Fnz : is_finite (- z) = true) by (rewrite is_finite_opp; exact Fz).
  destruct (mul_F2Z (- z) z Fnz Fz) as [Nw Ew]. rewrite F2Z_opp in Ew.
  set (w := - z * z) in *.
  assert (W0 : (F2Z w <= 0)%Z).
  { rewrite Ew. change 0%Z with (RNs 0). apply RNs_mono. nia. }
  (* the first part is at most -1.26551223, or minus infinity *)
  assert (F1 : (w - 1.26551223 <=? -1.26551223) = true
               \/ w - 1.26551223 = neg_infinity).
  { destruct (is_finite w) eqn:Fw.
    - left. change (-1.26551223) with (0 - 1.26551223).
      apply sub_le; trivial; try lia; exact W0.
    - right. destruct (infinite_cases w Nw Fw) as [I|I]; rewrite I in *.
      + exfalso. revert W0. vm_compute. intros H. apply H. reflexivity.
      + reflexivity. }
  destruct F1 as [F1|F1].
  - destruct (is_finite (w - 1.26551223)) eqn:Ff.
    + apply leb_trans with (-1.26551223 + 1.5); [|reflexivity].
      apply leb_le in F1, Q1. destruct F1 as [_ [_ F1]], Q1 as [_ [_ Q1]].
      apply add_le; trivial.
    + destruct (leb_not_nan _ _ F1) as [Nf _].
      destruct (infinite_cases _ Nf Ff) as [I|I]; rewrite I in *.
      * discriminate F1.
      * rewrite neg_infinity_add by exact FQ. reflexivity.
  - rewrite F1, neg_infinity_add by exact FQ. reflexivity.
Qed.

Theorem chebyshev_r_range z :
  is_nan z = false -> (0 <=? z) = true ->
  (0 <=? chebyshev_r M z) = true /\ (chebyshev_r M z <=? 2) = true.
Proof.
  intros Nz Pz.
  change (chebyshev_r M z) with
    (let t := 2 / (2 + z) in
     t * Math_exp M (- z * z - 1.26551223 + t * nested chebyshev_coefficients t)).
  cbv zeta.
  destruct (is_finite z) eqn:Fz.
  - assert (Y : (2 <=? 2 + z) = true).
    { change 2 with (2 + 0) at 1. apply leb_le in Pz. destruct Pz as [_ [_ Pz]].
      apply add_le; trivial; lia. }
    destruct (div_two_bound _ Y) as [T0 T1].
    apply r_of_parts; trivial. apply chebyshev_exponent; trivial.
  - destruct (infinite_cases z Nz Fz) as [I|I]; rewrite I in *; [|discriminate Pz].
    apply r_of_parts; reflexivity.
Qed.

Lemma in_unit_spec x : in_unit x = true <-> (-1 <=? x) = true /\ (x <=? 1) = true.
Proof. unfold in_unit. apply andb_true_iff. Qed.

Theorem chebyshevErf_range x : is_nan x = false -> in_unit (chebyshevErf M x) = true.
Proof.
  intros Nx. rewrite chebyshevErf_r.
  destruct (x =? 0); [reflexivity|].
  destruct (chebyshev_r_range (abs x)) as [R0 R2];
    [rewrite abs_not_nan; exact Nx | apply abs_nonneg; exact Nx |].
  set (r := chebyshev_r M (abs x)) in *.
  assert (Fr : is_finite r = true) by (apply (between_finite 0 r 2); trivial).
  apply leb_le in R0, R2. destruct R0 as [_ [_ R0]], R2 as [_ [_ R2]].
  destruct (geb x 0); apply in_unit_spec; split.
  - change (-1) with (1 - 2). apply sub_le; trivial; try lia; try assumption.
  - change 1 with (1 - 0) at 2. apply sub_le; trivial; try lia; try assumption.
  - change (-1) with (0 - 1) at 1. apply sub_le; trivial; try lia; try assumption.
  - change 1 with (2 - 1) at 2. apply sub_le; trivial; try lia; try assumption.
Qed.

End ChebyshevRange.

Lemma in_unit_not_nan v : in_unit v = true -> is_nan v = false.
Proof. intros H. apply in_unit_spec in H. destruct H as [H _]. apply (leb_not_nan _ _ H). Qed.

(** ** [soranzoErf] stays in the closed interval from -1 to 1 *)

Lemma finite_le_max x : is_finite x = true -> (F2Z x <= F2Z MAX_VALUE)%Z.
Proof.
  rewrite is_finite_spec.
  assert (E : F2Z MAX_VALUE = ((2 ^ 53 - 1) * 2 ^ 2045)%Z) by (vm_compute; reflexivity).
  rewrite E. unfold F2Z. pose proof (Prim2SF_valid x) as V.
  assert (T : (0 < 2 ^ 2045)%Z) by (apply pow2_pos; lia).
  destruct (Prim2SF x) as [s|s| |s m e]; try contradiction; intros _.
  - cbv [B2Z]. lia.
  - pose proof (valid_bounds _ _ _ V) as B.
    destruct s; cbv [B2Z cond_Zopp]; [lia|].
    apply valid_finite in V. destruct V as [C U].
    pose proof (Zdigits2_bounds (Zpos m) ltac:(lia)) as [_ Um].
    assert (Zpos m < 2 ^ 53)%Z.
    { apply Z.lt_le_trans with (1 := Um). apply Z.pow_le_mono_r; lia. }
    assert (2 ^ (e + 1074) <= 2 ^ 2045)%Z by (apply Z.pow_le_mono_r; lia).
    assert (0 < 2 ^ (e + 1074))%Z by lia.
    apply Z.mul_le_mono_nonneg; lia.
Qed.

Lemma signed_true_nonpos x : signed true x -> (B2Z x <= 0)%Z.
Proof.
  intros H. destruct H; cbv [B2Z cond_Zopp].
  - lia.
  - assert (0 <= 2 ^ (e + 1074))%Z by (apply Z.pow_nonneg; lia). nia.
  - assert (0 < 2 ^ 2098)%Z by (apply pow2_pos; lia). lia.
Qed.

(** A quotient of a number that is not positive by a positive finite number
    is not positive, and is not NaN. *)
Lemma div_nonpos n d :
  is_nan n = false -> (F2Z n <= 0)%Z -> is_finite d = true -> (0 < F2Z d)%Z ->
  is_nan (n / d) = false /\ (F2Z (n / d) <= 0)%Z.
Proof.
  intros Nn Ln Fd Pd. rewrite not_nan_sf. unfold F2Z in *. rewrite div_spec.
  rewrite is_nan_spec in Nn. rewrite is_finite_spec in Fd.
  pose proof (Prim2SF_valid n) as Vn. pose proof (Prim2SF_valid d) as Vd.
  assert (T : (0 < 2 ^ 2098)%Z) by (apply pow2_pos; lia).
  destruct (Prim2SF d) as [sd|sd| |sd md ed]; try contradiction.
  { cbv [B2Z] in Pd. lia. }
  destruct sd.
  { pose proof (valid_bounds _ _ _ Vd). cbv [B2Z cond_Zopp] in Pd. lia. }
  destruct (Prim2SF n) as [sn|sn| |sn mn en]; try discriminate.
  - cbv [SF64div SFdiv B2Z]. split; [discriminate | lia].
  - destruct sn; cbv [B2Z cond_Zopp] in Ln; [|lia].
    cbv [SF64div SFdiv xorb B2Z cond_Zopp]. split; [discriminate | lia].
  - destruct sn.
    2:{ pose proof (valid_bounds _ _ _ Vn). cbv [B2Z cond_Zopp] in Ln. lia. }
    unfold SF64div, SFdiv.
    destruct (div_core (Zpos mn) en (Zpos md) ed ltac:(lia) ltac:(lia))
      as [s [q [r [E [Hs [Hd [Hr He]]]]]]].
    rewrite E. cbv [xorb].
    assert (S : signed true (binary_round_aux prec emax true q (en - ed - s)
                               (new_location (Zpos md) r))).
    { apply binary_round_aux_signed.
      pose proof (pow2_pos s Hs). nia. }
    split; [eapply signed_not_nan; exact S | apply signed_true_nonpos; exact S].
Qed.

Lemma mul_self x :
  is_nan x = false ->
  is_nan (x * x) = false /\ (0 <= F2Z (x * x))%Z /\
  (is_finite (x * x) = true -> is_finite x = true).
Proof.
  intros N. destruct (is_finite x) eqn:F.
  - destruct (mul_F2Z x x F F) as [Nm E]. repeat split; trivial.
    rewrite E. change 0%Z with (RNs 0). apply RNs_mono. nia.
  - destruct (infinite_cases x N F) as [I|I]; rewrite I;
      (split; [reflexivity | split; [vm_compute; discriminate | intros H; discriminate H]]).
Qed.

Lemma finite_below_infinity x :
  is_nan x = false -> (0 <= F2Z x)%Z -> (x =? infinity) = false -> is_finite x = true.
Proof.
  intros N P E. destruct (is_finite x) eqn:F; trivial.
  destruct (infinite_cases x N F) as [I|I]; rewrite I in *.
  - discriminate E.
  - exfalso. revert P. vm_compute. intros H. apply H. reflexivity.
Qed.

(** A product by a positive constant of a finite number that is not
    negative: not negative, and at most the product by the largest number. *)
Lemma scale_range c v :
  is_finite c = true -> (0 <= F2Z c)%Z -> is_finite v = true -> (0 <= F2Z v)%Z ->
  (0 <=? c * v) = true /\ (c * v <=? c * MAX_VALUE) = true.
Proof.
  intros Fc Pc Fv Pv. pose proof (finite_le_max v Fv).
  split.
  - change 0 with (0 * 0) at 1. apply mul_le; trivial. change (F2Z 0) with 0%Z. nia.
  - apply mul_le; trivial. nia.
Qed.

Lemma leb_F2Z_le x y : (x <=? y) = true -> (F2Z x <= F2Z y)%Z.
Proof. intros H. apply leb_le in H. tauto. Qed.

Section SoranzoRange.

Context (M : MathHost) (R : host_ranges M).

Lemma unit_of_exp q :
  is_nan q = false -> (F2Z q <= 0)%Z ->
  (0 <=? Math_sqrt M (1 - Math_exp M q)) = true /\
  (Math_sqrt M (1 - Math_exp M q) <=? 1) = true.
Proof.
  intros Nq Lq.
  assert (Q0 : (q <=? 0) = true) by (apply leb_le; repeat split; trivial).
  assert (Q5 : (q <=? 0.5) = true) by (apply leb_trans with 0; [exact Q0 | reflexivity]).
  destruct (exp_range M R q Q5) as [E0 _]. pose proof (exp_unit M R q Q0) as E1.
  set (e := Math_exp M q) in *.
  assert (Fe : is_finite e = true) by (apply (between_finite 0 e 1); trivial).
  apply leb_F2Z_le in E0, E1.
  apply (sqrt_unit M R).
  - change 0 with (1 - 1) at 1. apply sub_le; trivial; lia.
  - change 1 with (1 - 0) at 2. apply sub_le; trivial; lia.
Qed.

(** The argument of [exp] is a number that is not positive: the numerator is
    not positive, the denominator is finite and at least 1. *)
Lemma soranzo_quotient x2 x4 :
  is_finite x2 = true -> (0 <= F2Z x2)%Z -> is_finite x4 = true -> (0 <= F2Z x4)%Z ->
  let q := (- x2 * (1.2735457 + 0.1487936 * x2)) / (1 + 0.1480931 * x2 + 5.16e-4 * x4) in
  is_nan q = false /\ (F2Z q <= 0)%Z.
Proof.
  intros F2 P2 F4 P4 q. unfold q. clear q.
  destruct (scale_range 0.1487936 x2) as [B0 B1]; trivial; [vm_compute; discriminate|].
  destruct (scale_range 0.1480931 x2) as [C0 C1]; trivial; [vm_compute; discriminate|].
  destruct (scale_range 5.16e-4 x4) as [D0 D1]; trivial; [vm_compute; discriminate|].
  set (p1 := 0.1487936 * x2) in *. set (p2 := 0.1480931 * x2) in *.
  set (p3 := 5.16e-4 * x4) in *.
  assert (Fp1 : is_finite p1 = true) by (eapply between_finite; [| |exact B0|exact B1]; reflexivity).
  assert (Fp2 : is_finite p2 = true) by (eapply between_finite; [| |exact C0|exact C1]; reflexivity).
  assert (Fp3 : is_finite p3 = true) by (eapply between_finite; [| |exact D0|exact D1]; reflexivity).
  apply leb_F2Z_le in B0, B1, C0, C1, D0, D1.
  (* the numerator *)
  assert (A0 : (1.2735457 + 0 <=? 1.2735457 + p1) = true) by (apply add_le; trivial; lia).
  assert (A1 : (1.2735457 + p1 <=? 1.2735457 + 0.1487936 * MAX_VALUE) = true)
    by (apply add_le; trivial; lia).
  set (A := 1.2735457 + p1) in *.
  assert (FA : is_finite A = true) by (eapply between_finite; [| |exact A0|exact A1]; reflexivity).
  apply leb_F2Z_le in A0.
  assert (PA : (0 <= F2Z A)%Z).
  { apply Z.le_trans with (2 := A0). vm_compute. discriminate. }
  assert (Fn : is_finite (- x2) = true) by (rewrite is_finite_opp; exact F2).
  destruct (mul_F2Z (- x2) A Fn FA) as [NN EN]. rewrite F2Z_opp in EN.
  assert (LN : (F2Z (- x2 * A) <= 0)%Z).
  { rewrite EN. change 0%Z with (RNs 0). apply RNs_mono. nia. }
  (* the denominator *)
  assert (S0 : (1 + 0 <=? 1 + p2) = true) by (apply add_le; trivial; lia).
  assert (S1 : (1 + p2 <=? 1 + 0.1480931 * MAX_VALUE) = true) by (apply add_le; trivial; lia).
  set (s1 := 1 + p2) in *.
  assert (Fs : is_finite s1 = true) by (eapply between_finite; [| |exact S0|exact S1]; reflexivity).
  apply leb_F2Z_le in S0, S1.
  assert (T0 : (1 + 0 + 0 <=? s1 + p3) = true) by (apply add_le; trivial; lia).
  assert (T1 : (s1 + p3 <=? 1 + 0.1480931 * MAX_VALUE + 5.16e-4 * MAX_VALUE) = true)
    by (apply add_le; trivial; lia).
  set (D := s1 + p3) in *.
  assert (FD : is_finite D = true) by (eapply between_finite; [| |exact T0|exact T1]; reflexivity).
  apply leb_F2Z_le in T0.
  assert (PD : (0 < F2Z D)%Z).
  { apply Z.lt_le_trans with (2 := T0). vm_compute. reflexivity. }
  apply div_nonpos; trivial.
Qed.

Theorem soranzoErf_range x : is_nan x = false -> in_unit (soranzoErf M x) = true.
Proof.
  intros Nx. unfold soranzoErf. cbv zeta.
  destruct (mul_self x Nx) as [N2 [P2 F2]].
  destruct (mul_self (x * x) N2) as [N4 [P4 F4]].
  destruct (x * x * (x * x) =? infinity) eqn:G; [reflexivity|].
  pose proof (finite_below_infinity _ N4 P4 G) as Fx4.
  pose proof (F4 Fx4) as Fx2.
  destruct (soranzo_quotient (x * x) (x * x * (x * x)) Fx2 P2 Fx4 P4) as [Nq Lq].
  destruct (unit_of_exp _ Nq Lq) as [U0 U1].
  set (f := Math_sqrt M _) in *.
  assert (Ff : is_finite f = true) by (apply (between_finite 0 f 1); trivial).
  destruct (geb x 0); apply in_unit_spec; split; trivial.
  - apply leb_trans with 0; [reflexivity | exact U0].
  - apply leb_le. apply leb_le in U1. destruct U1 as [Nf [_ U1]].
    repeat split; try reflexivity.
    + rewrite is_nan_spec, opp_spec. rewrite is_nan_spec in Nf.
      destruct (Prim2SF f); try discriminate; reflexivity.
    + rewrite F2Z_opp. change (F2Z (-1)) with (- F2Z 1)%Z. lia.
  - apply leb_le. apply leb_le in U0. destruct U0 as [_ [Nf U0]].
    repeat split; try reflexivity.
    + rewrite is_nan_spec, opp_spec. rewrite is_nan_spec in Nf.
      destruct (Prim2SF f); try discriminate; reflexivity.
    + rewrite F2Z_opp. change (F2Z 0) with 0%Z in U0.
      assert (0 <= F2Z 1)%Z by (vm_compute; discriminate). lia.
Qed.

End SoranzoRange.

(** *** Where [soranzoErf] is odd *)

Lemma mul_opp_opp x : - x * - x = x * x.
Proof.
  apply Prim2SF_inj. rewrite !mul_spec, !opp_spec.
  destruct (Prim2SF x) as [s|s| |s m e]; try destruct s; reflexivity.
Qed.

Lemma opp_involutive x : - - x = x.
Proof.
  apply Prim2SF_inj. rewrite !opp_spec.
  destruct (Prim2SF x) as [s|s| |s m e]; try destruct s; reflexivity.
Qed.

Lemma number_eqb_refl x : is_nan x = false -> (x =? x) = true.
Proof.
  rewrite is_nan_spec, FloatAxioms.eqb_spec. intros N.
  destruct (SFeqb_refl (Prim2SF x)) as [E|E]; [rewrite E in N; discriminate | exact E].
Qed.

Section SoranzoOdd.

Context (M : MathHost) (Z : prescribed_zeros M) (R : host_ranges M).

Lemma soranzoErf_zero : soranzoErf M 0 = 0 /\ soranzoErf M (-0) = 0.
Proof.
  unfold soranzoErf. cbv zeta.
  split;
    match goal with |- context [Math_exp M ?a] => change a with (-0) end;
    rewrite (exp_neg_zero M Z); change (1 - 1) with 0; rewrite (sqrt_zero M Z);
    reflexivity.
Qed.

(** Where the fourth power does not overflow, [soranzoErf] is odd. *)
Lemma soranzoErf_odd_below_overflow x :
  is_nan x = false -> (x * x * (x * x) =? infinity) = false ->
  js_eq (soranzoErf M x) (- soranzoErf M (- x)) = true.
Proof.
  intros N G. unfold js_eq.
  destruct (x =? 0) eqn:E.
  { apply eqb_zero in E. destruct soranzoErf_zero as [S0 S1].
    destruct E as [-> | ->].
    - change (- 0) with (-0). rewrite S0, S1. reflexivity.
    - change (- -0) with 0. rewrite S0, S1. reflexivity. }
  pose proof (soranzoErf_range M R x N) as U. apply in_unit_not_nan in U.
  revert U. unfold soranzoErf. cbv zeta.
  rewrite mul_opp_opp, G, (geb_opp_zero x N E).
  destruct (geb x 0); simpl; intros U.
  - rewrite opp_involutive. apply number_eqb_refl, U.
  - apply number_eqb_refl, U.
Qed.

End SoranzoOdd.

(** ** [vazquezLealErf] stays in the closed interval from -1 to 1 *)

Section VazquezLealRange.

Context (M : MathHost) (R : host_ranges M).

Lemma mul_const_not_nan c x :
  is_finite c = true -> (c =? 0) = false -> is_nan x = false -> is_nan (c * x) = false.
Proof.
  intros Fc Zc Nx. destruct (is_finite x) eqn:Fx.
  - apply (mul_F2Z c x Fc Fx).
  - rewrite is_nan_spec, mul_spec.
    rewrite is_finite_spec in Fc. rewrite FloatAxioms.eqb_spec in Zc.
    change (Prim2SF 0) with (S754_zero false) in Zc.
    destruct (infinite_cases x Nx Fx) as [I|I]; rewrite I;
      [change (Prim2SF infinity) with (S754_infinity false)
      |change (Prim2SF neg_infinity) with (S754_infinity true)];
      destruct (Prim2SF c) as [s|s| |s m e]; try contradiction; try reflexivity;
      destruct s; discriminate Zc.
Qed.

Lemma infinity_sub q :
  is_finite q = true -> infinity - q = infinity /\ neg_infinity - q = neg_infinity.
Proof.
  rewrite is_finite_spec. intros F.
  split; apply Prim2SF_inj; rewrite sub_spec;
    [change (Prim2SF infinity) with (S754_infinity false)
    |change (Prim2SF neg_infinity) with (S754_infinity true)];
    destruct (Prim2SF q) as [s|s| |s m e]; try contradiction; reflexivity.
Qed.

(** The multiple of the arc tangent is finite. *)
Lemma atan_term_finite y : is_nan y = false -> is_finite (55.5 * Math_atan M y) = true.
Proof.
  intros N. destruct (atan_range M R y N) as [A0 A1].
  assert (Fa : is_finite (Math_atan M y) = true)
    by (apply (between_finite (-2) _ 2); trivial).
  apply leb_F2Z_le in A0, A1.
  assert (0 <= F2Z 55.5)%Z by (vm_compute; discriminate).
  apply (between_finite (55.5 * -2) _ (55.5 * 2)); try reflexivity;
    apply mul_le; trivial; nia.
Qed.

Theorem vazquezLealErf_range x : is_nan x = false -> in_unit (vazquezLealErf M x) = true.
Proof.
  intros Nx. unfold vazquezLealErf. cbv zeta.
  apply (tanh_range M R), sub_finite_not_nan.
  - apply atan_term_finite, mul_const_not_nan; trivial.
  - apply mul_const_not_nan; trivial.
Qed.

(** At the infinities the argument of [tanh] is the infinity itself. *)
Lemma vazquezLealErf_infinities :
  prescribed_values M ->
  vazquezLealErf M infinity = 1 /\ vazquezLealErf M neg_infinity = -1.
Proof.
  intros P. unfold vazquezLealErf. cbv zeta.
  change (0.17789761643397722 * infinity) with infinity.
  change (0.17789761643397722 * neg_infinity) with neg_infinity.
  change (11.001696879181248 * infinity) with infinity.
  change (11.001696879181248 * neg_infinity) with neg_infinity.
  rewrite (proj1 (infinity_sub _ (atan_term_finite infinity eq_refl))).
  rewrite (proj2 (infinity_sub _ (atan_term_finite neg_infinity eq_refl))).
  split; [apply (tanh_infinity M P) | apply (tanh_neg_infinity M P)].
Qed.

End VazquezLealRange.

(** ** The reference host keeps to the ranges *)

Lemma eqb_F2Z x y : (x =? y) = true -> F2Z x = F2Z y.
Proof.
  intros H. destruct (eqb_not_nan _ _ H) as [Nx Ny]. revert H.
  rewrite is_nan_spec in Nx, Ny. rewrite FloatAxioms.eqb_spec. unfold SFeqb, F2Z.
  rewrite SFcompare_B2Z; try apply Prim2SF_valid;
    try (intros E; rewrite E in *; discriminate).
  destruct (B2Z (Prim2SF x) ?= B2Z (Prim2SF y))%Z eqn:C; try discriminate.
  intros _. apply Z.compare_eq, C.
Qed.

Lemma clamp_range lo hi v :
  (lo <=? hi) = true ->
  (lo <=? RefHost.clamp lo hi v) = true /\ (RefHost.clamp lo hi v <=? hi) = true.
Proof.
  intros H. destruct (leb_not_nan _ _ H) as [Nl Nh]. unfold RefHost.clamp.
  destruct (v <=? hi) eqn:U; [destruct (lo <=? v) eqn:L|]; split; trivial;
    apply leb_refl; assumption.
Qed.

Lemma RefHost_zeros : prescribed_zeros RefHost.host.
Proof. split; reflexivity. Qed.

Lemma RefHost_ranges : host_ranges RefHost.host.
Proof.
  split; simpl.
  - intros y H. simpl. destruct (leb_not_nan _ _ H) as [Ny _]. unfold RefHost.exp.
    rewrite Ny. destruct (y <=? 0).
    + destruct (y <? -745.2); [split; reflexivity|].
      destruct (clamp_range 0 1 (RefHost.exp_series y) eq_refl) as [L U].
      split; [exact L | apply leb_trans with 1; [exact U | reflexivity]].
    + rewrite H. destruct (clamp_range 1 2 (RefHost.exp_series y) eq_refl) as [L U].
      split; [apply leb_trans with 1; [reflexivity | exact L] | exact U].
  - intros y H. destruct (leb_not_nan _ _ H) as [Ny _]. unfold RefHost.exp.
    rewrite Ny, H. destruct (y <? -745.2); [reflexivity|].
    apply (clamp_range 0 1 _ eq_refl).
  - intros y Ny. unfold RefHost.tanh. rewrite Ny.
    destruct (20 <? y); [reflexivity|]. destruct (y <? -20); [reflexivity|].
    destruct (y =? 0) eqn:Z.
    + apply in_unit_spec. apply eqb_F2Z in Z.
      split; apply leb_le; repeat split; trivial; rewrite Z; vm_compute; discriminate.
    + apply in_unit_spec. apply (clamp_range (-1) 1 _ eq_refl).
  - intros y Ny. unfold RefHost.atan. rewrite Ny.
    destruct (y =? 0) eqn:Z.
    + apply eqb_F2Z in Z.
      split; apply leb_le; repeat split; trivial; rewrite Z; vm_compute; discriminate.
    + apply (clamp_range (-2) 2 _ eq_refl).
  - intros u U0 U1. unfold RefHost.sqrt. rewrite U0, U1. simpl.
    apply (clamp_range 0 1 _ eq_refl).
Qed.

(** C8.  For every x that is a number (every finite x, and the infinities),
    [chebyshevErf(-x) == -chebyshevErf(x)]; [chebyshevErf] returns exactly 0
    at 0 (and at -0), 1 at +Infinity and -1 at -Infinity.  The host's [exp]
    is only asked to be 0 at -Infinity and between 0 and 2 up to 0.5. *)
Theorem chebyshevErf_odd (M : MathHost) (x : number) :
  prescribed_values M -> exp_keeps_range M -> is_nan x = false ->
  js_eq (chebyshevErf M (- x)) (- chebyshevErf M x) = true /\
  chebyshevErf M 0 = 0 /\ chebyshevErf M (-0) = 0 /\
  chebyshevErf M infinity = 1 /\ chebyshevErf M neg_infinity = -1.
Proof.
  intros P R N. refine (conj _ (conj _ (conj _ _))); try reflexivity.
  - apply chebyshevErf_odd_value, in_unit_not_nan, chebyshevErf_range; assumption.
  - apply chebyshevErf_infinities, P.
Qed.

Lemma chebyshevErf_odd_witness :
  js_eq (chebyshevErf RefHost.host (- 0.5)) (- chebyshevErf RefHost.host 0.5) = true.
Proof.
  apply (proj1 (chebyshevErf_odd RefHost.host 0.5 RefHost_prescribed
                  (exp_range _ RefHost_ranges) eq_refl)).
Defined.

(** C5, as stated, fails for [taylorErf]: at its default degree it returns
    NaN at +Infinity, and a value far above 1 at x = 6. *)
Lemma taylorErf_out_of_range :
  taylorErf RefHost.host infinity None = Normal nan /\ in_unit nan = false /\
  exists v, taylorErf RefHost.host 6 None = Normal v /\ in_unit v = false.
Proof. split; [|split]; [vm_compute; reflexivity .. | eexists; split; vm_compute; reflexivity]. Qed.

(** C5, amended.  For every input x that is a number, finite or infinite,
    each of [chebyshevErf], [vazquezLealErf] and [soranzoErf] returns a value
    in the closed interval [-1, 1], on a host whose [exp], [tanh], [atan] and
    [sqrt] keep to the ranges of the exact functions. *)
Theorem erf_strategies_in_unit (M : MathHost) (x : number) :
  host_ranges M -> is_nan x = false ->
  in_unit (chebyshevErf M x) = true /\
  in_unit (vazquezLealErf M x) = true /\
  in_unit (soranzoErf M x) = true.
Proof.
  intros R N. split; [|split].
  - apply chebyshevErf_range; [apply (exp_range M R) | assumption].
  - apply vazquezLealErf_range; assumption.
  - apply soranzoErf_range; assumption.
Qed.

Lemma erf_strategies_in_unit_witness :
  in_unit (chebyshevErf RefHost.host 0.5) = true /\
  in_unit (vazquezLealErf RefHost.host 0.5) = true /\
  in_unit (soranzoErf RefHost.host 0.5) = true.
Proof. apply (erf_strategies_in_unit RefHost.host 0.5 RefHost_ranges). reflexivity. Defined.

(** * The rest of the library: properties *)

(** The number of an integer: its rounding, never NaN. *)
Lemma Z2F_value q :
  (0 <= q < 2 ^ 63)%Z ->
  is_nan (Z2F q) = false /\ F2Z (Z2F q) = RNs (q * 2 ^ 2148).
Proof.
  intros H. destruct q as [|p|p]; [split; reflexivity| |lia].
  unfold Z2F, F2Z. rewrite is_nan_spec, of_uint63_spec, Uint63.of_Z_spec.
  rewrite Z.mod_small by (change Uint63.wB with (2 ^ 63)%Z; lia).
  split.
  - pose proof (binary_normalize_not_nan (Zpos p) 0) as N.
    destruct (binary_normalize prec emax (Zpos p) 0 false); congruence.
  - apply (binary_normalize_value (Zpos p) 0). lia.
Qed.

Lemma Z2F_mono a b :
  (0 <= a <= b)%Z -> (b < 2 ^ 63)%Z -> (Z2F a <=? Z2F b) = true.
Proof.
  intros H Hb.
  destruct (Z2F_value a ltac:(lia)) as [Na Ea]. destruct (Z2F_value b ltac:(lia)) as [Nb Eb].
  apply leb_le. repeat split; trivial. rewrite Ea, Eb. apply RNs_mono.
  apply Z.mul_le_mono_nonneg_r; [apply Z.pow_nonneg|]; lia.
Qed.

(** Every value of the table of the results is a number, at least 1. *)
Lemma blocked_product_positive (n : nat) :
  (n <= 170)%nat -> (1 <=? blocked_product n) = true.
Proof.
  intros H.
  assert (A : forallb (fun k => 1 <=? blocked_product k) (seq 0 171) = true)
    by (vm_compute; reflexivity).
  rewrite forallb_forall in A. apply A. apply in_seq. lia.
Qed.

Lemma factorial_of_floor (x : number) (q : Z) :
  (x <? 0) = false -> floor x = Z2F q -> (0 <= q < 2 ^ 53)%Z ->
  exists v, factorial x = Normal v /\ (1 <=? v) = true.
Proof.
  intros Hx E Hq. destruct (Z.le_gt_cases q 170) as [L|G].
  - exists (blocked_product (Z.to_nat q)). split.
    + apply factorial_fueled_tail; [lia | exact Hx |].
      rewrite E. rewrite <- (Z2Nat.id q) at 2 by lia. apply checked_upto. lia.
    + apply blocked_product_positive. lia.
  - exists infinity. split; [|reflexivity].
    assert (Hg : gtb (floor x) 170 = true).
    { rewrite E. unfold gtb.
      destruct (Z2F_value q ltac:(lia)) as [Nq _].
      pose proof (Z2F_mono 171 q ltac:(lia) ltac:(lia)) as M.
      rewrite ltb_F2Z by trivial. apply Z.ltb_lt.
      apply leb_le in M. destruct M as [_ [_ M]].
      apply Z.lt_le_trans with (2 := M). vm_compute. reflexivity. }
    unfold factorial, factorial_fueled. rewrite Hx.
    destruct (isNaN (floor x)) eqn:N.
    + unfold gtb in Hg. apply ltb_not_nan in Hg. unfold isNaN in N. destruct Hg; congruence.
    + unfold MAX_FACTORIAL_ARG. rewrite Hg. reflexivity.
Qed.

(** [factorial] returns for every number that is not negative. *)
Lemma factorial_returns (x : number) :
  is_nan x = false -> (x <? 0) = false ->
  exists v, factorial x = Normal v /\ (1 <=? v) = true.
Proof.
  intros N Hx. pose proof (Prim2SF_valid x) as V.
  assert (T : forall s, Prim2SF x = S754_zero s -> floor x = Z2F 0 \/ floor x = -0).
  { intros s E. unfold floor. rewrite E.
    destruct s; [right | left]; apply Prim2SF_inj; rewrite E; reflexivity. }
  destruct (Prim2SF x) as [s|s| |s m e] eqn:E.
  - destruct (T s eq_refl) as [F|F].
    + apply (factorial_of_floor x 0 Hx F). lia.
    + exists (blocked_product 0). split; [|reflexivity].
      apply factorial_fueled_tail; [lia | exact Hx |]. rewrite F. apply checked_all.
  - destruct s.
    + exfalso. revert Hx. rewrite ltb_spec, E. discriminate.
    + assert (x = infinity) by (apply Prim2SF_inj; rewrite E; reflexivity). subst x.
      exists infinity. split; reflexivity.
  - rewrite is_nan_spec, E in N. discriminate.
  - destruct s.
    { exfalso. revert Hx. rewrite ltb_spec, E. discriminate. }
    pose proof (valid_finite _ _ _ V) as [C B].
    pose proof (Zdigits2_bounds (Zpos m) ltac:(lia)) as [Lm Um].
    destruct (Z.leb_spec 0 e) as [P|P].
    + (* an integer of 53 digits: above 170 *)
      exists infinity. split; [|reflexivity].
      assert (Fx : floor x = x) by (unfold floor; rewrite E; destruct (0 <=? e)%Z eqn:Q;
                                     [reflexivity | apply Z.leb_gt in Q; lia]).
      assert (Hg : gtb x 170 = true).
      { unfold gtb. rewrite ltb_F2Z by trivial. apply Z.ltb_lt.
        unfold F2Z at 2. rewrite E. cbv [B2Z cond_Zopp].
        assert (D : Zdigits2 (Zpos m) = 53%Z) by lia.
        rewrite D in Lm. change (53 - 1)%Z with 52%Z in Lm.
        assert (F2Z 170 < 2 ^ 52 * 2 ^ 1074)%Z by (vm_compute; reflexivity).
        assert (2 ^ 1074 <= 2 ^ (e + 1074))%Z by (apply Z.pow_le_mono_r; lia).
        assert (0 < 2 ^ 1074)%Z by (apply pow2_pos; lia).
        nia. }
      unfold factorial, factorial_fueled. rewrite Hx, Fx.
      unfold isNaN. rewrite N. unfold MAX_FACTORIAL_ARG. rewrite Hg. reflexivity.
    + (* a number with a fraction: floored to an integer below 2^53 *)
      apply (factorial_of_floor x (Z.shiftl (Zpos m) e) Hx).
      * unfold floor. rewrite E. destruct (0 <=? e)%Z eqn:Q; [apply Z.leb_le in Q; lia|].
        reflexivity.
      * rewrite Z.shiftl_div_pow2 by lia.
        assert (0 < 2 ^ (- e))%Z by (apply pow2_pos; lia).
        split; [apply Z.div_pos; lia|].
        apply Z.div_lt_upper_bound; [lia|].
        assert (Zpos m < 2 ^ 53)%Z.
        { apply Z.lt_le_trans with (1 := Um). apply Z.pow_le_mono_r; lia. }
        assert (0 < 2 ^ 53)%Z by (apply pow2_pos; lia). nia.
Qed.

(** X1.  [factorial] of a number that is not negative: it does not throw, the
    table is read within its bounds, and the result is a number, at least 1
    (+Infinity from 171 on). *)
Theorem factorial_total (x : number) :
  is_nan x = false -> (x <? 0) = false ->
  exists v, factorial x = Normal v /\ (1 <=? v) = true.
Proof. apply factorial_returns. Qed.

Lemma factorial_total_witness :
  exists v, factorial 3.75 = Normal v /\ (1 <=? v) = true.
Proof. apply (factorial_total 3.75); reflexivity. Defined.




Section Quotient.

#[local] Open Scope Z_scope.

(** The magnitudes of two numbers in order. *)
Lemma magnitude_le mx ex my ey :
0 <= ex + 1074 -> 0 <= ey + 1074 ->
Zpos mx * 2 ^ (ex + 1074) <= Zpos my * 2 ^ (ey + 1074) ->
Zdigits2 (Zpos mx) + ex <= Zdigits2 (Zpos my) + ey.
Proof.
intros Kx Ky H.
pose proof (Zdigits2_bounds (Zpos mx) ltac:(lia)) as [Lx _].
pose proof (Zdigits2_bounds (Zpos my) ltac:(lia)) as [_ Uy].
pose proof (Zdigits2_nonneg (Zpos mx)). pose proof (Zdigits2_nonneg (Zpos my)).
assert (Dx : 1 <= Zdigits2 (Zpos mx)).
{ apply Zdigits2_ge; [lia|]. simpl. lia. }
assert (A : 2 ^ (Zdigits2 (Zpos mx) - 1 + (ex + 1074)) <= Zpos mx * 2 ^ (ex + 1074))
  by (apply pow2_le_mul; lia).
assert (B : Zpos my * 2 ^ (ey + 1074) < 2 ^ (Zdigits2 (Zpos my) + (ey + 1074)))
  by (apply pow2_lt_mul; lia).
assert (C : 2 ^ (Zdigits2 (Zpos mx) - 1 + (ex + 1074)) < 2 ^ (Zdigits2 (Zpos my) + (ey + 1074)))
  by lia.
apply Z.pow_lt_mono_r_iff in C; lia.
Qed.

(** The quotient of a positive number by a larger one, not too much larger,
  is between 0 and 1. *)
Lemma div_le_one_sf mx ex my ey :
valid_binary (S754_finite false mx ex) = true ->
valid_binary (S754_finite false my ey) = true ->
Zpos mx * 2 ^ (ex + 1074) <= Zpos my * 2 ^ (ey + 1074) ->
-1021 <= Zdigits2 (Zpos mx) + ex - (Zdigits2 (Zpos my) + ey) ->
let t := SF64div (S754_finite false mx ex) (S754_finite false my ey) in
t <> S754_nan /\ 0 <= B2Z t <= 2 ^ 1074.
Proof.
intros Vx Vy XY Hd t.
pose proof (valid_finite _ _ _ Vx) as [Cx Bx].
pose proof (valid_finite _ _ _ Vy) as [Cy By].
pose proof (Zdigits2_bounds (Zpos mx) ltac:(lia)) as [Lx Ux].
pose proof (Zdigits2_bounds (Zpos my) ltac:(lia)) as [Ly Uy].
pose proof (magnitude_le mx ex my ey ltac:(lia) ltac:(lia) XY) as Mg.
set (dx := Zdigits2 (Zpos mx)) in *. set (dy := Zdigits2 (Zpos my)) in *.
assert (Dx : 1 <= dx <= 53).
{ split; [apply Zdigits2_ge; [lia | simpl; lia] | lia]. }
assert (Dy : 1 <= dy <= 53).
{ split; [apply Zdigits2_ge; [lia | simpl; lia] | lia]. }
unfold t, SF64div, SFdiv.
destruct (div_core (Zpos mx) ex (Zpos my) ey ltac:(lia) ltac:(lia))
  as [s [q [r [E [Hs [Hq [Hr He]]]]]]].
rewrite E. clear E. fold dx dy in He. rewrite fexp_spec in He.
set (e' := ex - ey - s) in *.
assert (Ee : e' = dx + ex - (dy + ey) - 53) by lia.
assert (Es : s = 53 - dx + dy) by (unfold e' in Ee; lia).
pose proof (pow2_pos s Hs) as Ps.
(* the quotient has 53 digits or more *)
assert (Q52 : 2 ^ 52 <= q).
{ assert (A : 2 ^ (dx - 1 + s) <= Zpos mx * 2 ^ s) by (apply pow2_le_mul; lia).
  replace (dx - 1 + s) with (52 + dy) in A by lia.
  rewrite Z.pow_add_r in A by lia.
  assert (0 < 2 ^ 52) by (apply pow2_pos; lia). nia. }
assert (Dq : 53 <= Zdigits2 q) by (apply Zdigits2_ge; [lia | exact Q52]).
assert (N : e' <= fexp prec emax (Zdigits2 q + e')) by (rewrite fexp_spec; lia).
rewrite binary_round_aux_inexact by (trivial; lia).
pose proof (code_range (new_location (Zpos my) r)) as Cr.
split.
{ eapply signed_not_nan. apply binary_round_aux_signed. lia. }
rewrite round_value; try lia.
cbv [cond_Zopp].
split; [apply RN_nonneg; apply Z.mul_nonneg_nonneg; [lia | apply Z.pow_nonneg; lia]|].
assert (R1 : RN (2 ^ 2148) = 2 ^ 1074).
{ assert (V1 : valid_binary (S754_finite false 4503599627370496 (-52)) = true) by reflexivity.
  apply (RN_valid _ _ _ V1). }
rewrite <- R1. apply RN_mono.
{ apply Z.mul_pos_pos; [lia | apply pow2_pos; lia]. }
set (T := 2 ^ (- e')).
assert (PT : 0 < T) by (apply pow2_pos; lia).
assert (TM : Zpos mx * 2 ^ s <= T * Zpos my).
{ assert (P1 : T * 2 ^ (ex + 1074) = 2 ^ s * 2 ^ (ey + 1074)).
  { unfold T. rewrite <- !Z.pow_add_r by lia. f_equal. unfold e'. lia. }
  assert (PK : 0 < 2 ^ (ex + 1074)) by (apply pow2_pos; lia).
  apply Z.mul_le_mono_pos_r with (p := 2 ^ (ex + 1074)); [exact PK|].
  replace (T * Zpos my * 2 ^ (ex + 1074)) with (Zpos my * (T * 2 ^ (ex + 1074))) by ring.
  rewrite P1.
  replace (Zpos mx * 2 ^ s * 2 ^ (ex + 1074)) with (2 ^ s * (Zpos mx * 2 ^ (ex + 1074))) by ring.
  replace (Zpos my * (2 ^ s * 2 ^ (ey + 1074))) with (2 ^ s * (Zpos my * 2 ^ (ey + 1074))) by ring.
  apply Z.mul_le_mono_nonneg_l; lia. }
assert (QT : 4 * q + code (new_location (Zpos my) r) <= 4 * T).
{ assert (q <= T) by nia.
  destruct (Z.eq_dec q T) as [EQ|NEQ]; [|lia].
  assert (r = 0) by nia.
  apply (new_location_code (Zpos my) r) in H0; lia. }
replace (2 ^ 2148) with (4 * T * 2 ^ (e' - 2 + 2148)).
- apply Z.mul_le_mono_nonneg_r; [apply Z.pow_nonneg; lia | exact QT].
- unfold T. change 4 with (2 ^ 2). rewrite <- !Z.pow_add_r by lia. f_equal. lia.
Qed.

End Quotient.

Lemma div_le_one x y :
  is_finite x = true -> is_finite y = true ->
  (0 < F2Z x)%Z -> (F2Z x <= F2Z y)%Z -> (F2Z y <= 2 ^ 1021 * F2Z x)%Z ->
  (0 <=? x / y) = true /\ (x / y <=? 1) = true.
Proof.
  intros Fx Fy Px XY YX.
  pose proof (Prim2SF_valid x) as Vx. pose proof (Prim2SF_valid y) as Vy.
  rewrite is_finite_spec in Fx, Fy. unfold F2Z in Px, XY, YX.
  assert (G : Prim2SF (x / y) <> S754_nan /\ (0 <= B2Z (Prim2SF (x / y)) <= 2 ^ 1074)%Z).
  { rewrite div_spec.
    destruct (Prim2SF x) as [sx|sx| |sx mx ex]; try contradiction.
    { cbv [B2Z] in Px. lia. }
    destruct (Prim2SF y) as [sy|sy| |sy my ey]; try contradiction.
    { cbv [B2Z] in XY. cbv [B2Z] in Px. lia. }
    pose proof (valid_bounds _ _ _ Vx) as Bx. pose proof (valid_bounds _ _ _ Vy) as By.
    destruct sx; [cbv [B2Z cond_Zopp] in Px; lia|].
    destruct sy; [cbv [B2Z cond_Zopp] in XY, Px; lia|].
    cbv [B2Z cond_Zopp] in XY, YX.
    apply div_le_one_sf; trivial.
    pose proof (valid_finite _ _ _ Vx) as [Cx _]. pose proof (valid_finite _ _ _ Vy) as [Cy _].
    assert (M : (Zdigits2 (Zpos my) + ey <= Zdigits2 (Z.pos (mx * 2 ^ 1021)) + ex)%Z).
    { apply magnitude_le; lia. }
    rewrite Pos2Z.inj_mul, Pos2Z.inj_pow in M.
    rewrite Zdigits2_mul_pow2 in M by lia. lia. }
  destruct G as [N [L U]].
  assert (Nq : is_nan (x / y) = false) by (apply not_nan_sf; exact N).
  assert (E1 : F2Z 1 = (2 ^ 1074)%Z) by (vm_compute; reflexivity).
  split; apply leb_le; (split; [|split]); try exact Nq; try reflexivity.
  - exact L.
  - rewrite E1. exact U.
Qed.

(** ** Constructed distributions *)

(** What [of] returns has a mean that is a number and a standard deviation
    above 0. *)
Lemma of_constructed (M : MathHost) m s f (this : NormalDistribution) :
  of_ M m s f = Normal this ->
  is_nan (mean this) = false /\ (0 <? standardDeviation this) = true.
Proof.
  set (m' := match m with Some m => m | None => 0 end).
  set (s' := match s with Some s => s | None => 1 end).
  assert (E : of_ M m s f = constructor M (Some m') (Some s') f)
    by (destruct m, s; reflexivity).
  rewrite E, constructor_cases. unfold isNaN.
  destruct (is_nan m') eqn:Nm; [intros H; discriminate H|].
  destruct (is_nan s') eqn:Ns; [intros H; discriminate H|].
  destruct (s' <=? 0) eqn:Ls; [intros H; discriminate H|].
  rewrite (leb_negb_ltb 0 s' eq_refl Ns) in Ls. apply negb_false_iff in Ls.
  destruct f; intros H; inversion H; subst; simpl; auto.
Qed.

(** ** [cdf] *)

Lemma nothing_above_minus_one e :
  is_finite e = true -> (F2Z (-1) < F2Z e)%Z -> (F2Z above_minus_one <= F2Z e)%Z.
Proof.
  rewrite is_finite_spec. unfold F2Z at 2 4. pose proof (Prim2SF_valid e) as V.
  assert (E1 : F2Z (-1) = (- 2 ^ 1074)%Z) by (vm_compute; reflexivity).
  assert (E0 : F2Z above_minus_one = (- ((2 ^ 53 - 1) * 2 ^ 1021))%Z) by (vm_compute; reflexivity).
  rewrite E1, E0. clear E1 E0.
  assert (P : (0 < 2 ^ 1021)%Z) by (apply pow2_pos; lia).
  destruct (Prim2SF e) as [s|s| |s m ex]; try contradiction; intros _.
  - cbv [B2Z]. lia.
  - pose proof (valid_bounds _ _ _ V) as B. pose proof (valid_finite _ _ _ V) as [C U].
    destruct s; cbv [B2Z cond_Zopp]; [|lia]. intros H.
    pose proof (Zdigits2_bounds (Zpos m) ltac:(lia)) as [Lm Um].
    assert (D1 : (1 <= Zdigits2 (Zpos m))%Z) by (apply Zdigits2_ge; [lia | simpl; lia]).
    assert (A : (2 ^ (Zdigits2 (Zpos m) - 1 + (ex + 1074)) <= Zpos m * 2 ^ (ex + 1074))%Z)
      by (apply pow2_le_mul; lia).
    assert (L : (2 ^ (Zdigits2 (Zpos m) - 1 + (ex + 1074)) < 2 ^ 1074)%Z) by lia.
    apply Z.pow_lt_mono_r_iff in L; try lia.
    assert (Ex : (ex <= -53)%Z) by lia.
    assert (Hm : (Zpos m <= 2 ^ 53 - 1)%Z).
    { assert (2 ^ Zdigits2 (Zpos m) <= 2 ^ 53)%Z by (apply Z.pow_le_mono_r; lia). lia. }
    assert (He : (2 ^ (ex + 1074) <= 2 ^ 1021)%Z) by (apply Z.pow_le_mono_r; lia).
    assert (0 < 2 ^ (ex + 1074))%Z by (apply pow2_pos; lia).
    assert (Zpos m * 2 ^ (ex + 1074) <= (2 ^ 53 - 1) * 2 ^ 1021)%Z
      by (apply Z.mul_le_mono_nonneg; lia).
    lia.
Qed.

(** A finite number of value 0 is a zero. *)
Lemma zero_value s : is_finite s = true -> F2Z s = 0%Z -> s = 0 \/ s = -0.
Proof.
  rewrite is_finite_spec. unfold F2Z. pose proof (Prim2SF_valid s) as V.
  destruct (Prim2SF s) as [b|b| |b m e] eqn:E; try contradiction; intros _.
  - intros _. destruct b; [right | left]; apply Prim2SF_inj; rewrite E; reflexivity.
  - pose proof (valid_bounds _ _ _ V). destruct b; cbv [B2Z cond_Zopp]; lia.
Qed.

(** Half of [1 + e], for [e] between -1 and 1, is between 0 and 1. *)
Lemma half_of_shifted e :
  in_unit e = true -> (0 <=? (1.0 + e) / 2.0) = true /\ ((1.0 + e) / 2.0 <=? 1) = true.
Proof.
  intros U. apply in_unit_spec in U. destruct U as [L H].
  assert (Fe : is_finite e = true) by (apply (between_finite (-1) e 1); trivial).
  apply leb_F2Z_le in L, H.
  destruct (add_F2Z 1.0 e eq_refl Fe) as [Ns Es].
  assert (S2 : (1.0 + e <=? 1 + 1) = true) by (apply add_le; trivial; lia).
  assert (S0 : (1 + -1 <=? 1.0 + e) = true) by (apply add_le; trivial; lia).
  assert (Fs : is_finite (1.0 + e) = true) by (apply (between_finite (1 + -1) _ (1 + 1)); trivial).
  destruct (Z.eq_dec (F2Z e) (F2Z (-1))) as [Q|Q].
  - assert (Z0 : F2Z (1.0 + e) = 0%Z).
    { rewrite Es, Q. reflexivity. }
    destruct (zero_value _ Fs Z0) as [-> | ->]; split; reflexivity.
  - pose proof (nothing_above_minus_one e Fe ltac:(lia)) as A.
    assert (S1 : (1 + above_minus_one <=? 1.0 + e) = true) by (apply add_le; trivial; lia).
    apply leb_F2Z_le in S1, S2.
    assert (E5 : F2Z (1 + above_minus_one) = (2 ^ 1021)%Z) by (vm_compute; reflexivity).
    assert (E2 : F2Z (1 + 1) = (2 ^ 1075)%Z) by (vm_compute; reflexivity).
    rewrite E5 in S1. rewrite E2 in S2.
    assert (P : (0 < 2 ^ 1021)%Z) by (apply pow2_pos; lia).
    apply div_le_one; [exact Fs | reflexivity | lia | |].
    + change (F2Z 2.0) with (F2Z (1 + 1)). rewrite E2. exact S2.
    + change (F2Z 2.0) with (F2Z (1 + 1)). rewrite E2.
      apply Z.le_trans with (2 ^ 1021 * 2 ^ 1021)%Z;
        [rewrite <- Z.pow_add_r by lia; apply Z.pow_le_mono_r; lia|].
      apply Z.mul_le_mono_nonneg_l; lia.
Qed.

Lemma cdf_value (this : NormalDistribution) (x : number) :
  cdf this x = (1.0 + erf this (standardize this x * SQRT1_2)) / 2.0.
Proof. reflexivity. Qed.

(** X3.  [cdf(x)] is a probability, between 0 and 1, whenever the error function
    returns a value between -1 and 1; with [chebyshevErf] it is one whenever
    the standardized x is a number. *)
Theorem cdf_range (M : MathHost) (this : NormalDistribution) (x : number) :
  (in_unit (erf this (standardize this x * SQRT1_2)) = true ->
     (0 <=? cdf this x) = true /\ (cdf this x <=? 1) = true) /\
  (exp_keeps_range M -> erf this = chebyshevErf M -> is_nan (standardize this x) = false ->
     (0 <=? cdf this x) = true /\ (cdf this x <=? 1) = true).
Proof.
  rewrite cdf_value. split.
  - apply half_of_shifted.
  - intros R E N. apply half_of_shifted. rewrite E.
    apply chebyshevErf_range; [exact R|].
    rewrite is_nan_spec, mul_spec. rewrite is_nan_spec in N.
    change (Prim2SF SQRT1_2) with (S754_finite false 6369051672525773 (-53)).
    destruct (Prim2SF (standardize this x)) as [s|s| |s m e]; try discriminate; try reflexivity.
    unfold SF64mul, SFmul.
    pose proof (binary_round_aux_signed (xorb s false) (Zpos (m * 6369051672525773))
                  (e + -53) loc_Exact ltac:(lia)) as S.
    destruct S; reflexivity.
Qed.

Lemma cdf_range_witness :
  let this := Build_NormalDistribution 0 1 (chebyshevErf RefHost.host) in
  (0 <=? cdf this 0.25) = true /\ (cdf this 0.25 <=? 1) = true.
Proof.
  intros this.
  apply (proj2 (cdf_range RefHost.host this 0.25)); try reflexivity.
  apply (exp_range _ RefHost_ranges).
Defined.

Lemma sub_self x : is_finite x = true -> x - x = 0.
Proof.
  rewrite is_finite_spec. intros F. apply Prim2SF_inj. rewrite sub_spec.
  destruct (Prim2SF x) as [s|s| |s m e]; try contradiction.
  - destruct s; reflexivity.
  - unfold SF64sub, SFsub. rewrite Z.sub_diag. reflexivity.
Qed.

Lemma zero_div_positive d : (0 <? d) = true -> 0 / d = 0.
Proof.
  rewrite ltb_spec. intros H. apply Prim2SF_inj. rewrite div_spec. revert H.
  change (Prim2SF 0) with (S754_zero false).
  destruct (Prim2SF d) as [s|s| |s m e]; try destruct s; try discriminate; reflexivity.
Qed.

(** X4.  At the mean, when it is finite, [standardize] is exactly 0 and, with an
    error function that is 0 at 0, [cdf] is exactly one half. *)
Theorem cdf_at_mean (M : MathHost) m s f (this : NormalDistribution) :
  of_ M m s f = Normal this ->
  is_finite (mean this) = true ->
  standardize this (mean this) = 0 /\
  (js_eq (erf this 0) 0 = true -> cdf this (mean this) = 0.5).
Proof.
  intros C F. destruct (of_constructed M m s f this C) as [_ P].
  assert (Z : standardize this (mean this) = 0).
  { unfold standardize. rewrite (sub_self _ F). apply zero_div_positive, P. }
  split; [exact Z|].
  intros E. rewrite cdf_value, Z. change (0 * SQRT1_2) with 0.
  apply eqb_zero in E. destruct E as [-> | ->]; reflexivity.
Qed.

Lemma cdf_at_mean_witness :
  exists this, of_ RefHost.host (Some 3) (Some 2) Undefined = Normal this /\
               standardize this 3 = 0 /\ cdf this 3 = 0.5.
Proof.
  eexists. split; [reflexivity|].
  pose proof (cdf_at_mean RefHost.host (Some 3) (Some 2) Undefined _ eq_refl eq_refl) as [Z H].
  split; [exact Z | apply H; reflexivity].
Defined.

(** ** [variance] *)

(** X5.  The variance of a constructed distribution is a number, never negative. *)
Theorem variance_nonneg (M : MathHost) m s f (this : NormalDistribution) :
  of_ M m s f = Normal this -> (0 <=? variance this) = true.
Proof.
  intros C. destruct (of_constructed M m s f this C) as [_ P].
  destruct (ltb_not_nan _ _ P) as [_ N].
  destruct (mul_self _ N) as [Nv [Pv _]].
  apply leb_le. repeat split; trivial.
Qed.

Lemma variance_nonneg_witness :
  (0 <=? variance (Build_NormalDistribution 3 2 (chebyshevErf RefHost.host))) = true.
Proof.
  apply (variance_nonneg RefHost.host (Some 3) (Some 2) Undefined). reflexivity.
Defined.

(** ** [ppf] *)





(** ** The error measures *)

Lemma SFabs_opp x : SFabs (SFopp x) = SFabs x.
Proof. destruct x; reflexivity. Qed.

Lemma SFsub_abs_sym x y : SFabs (SF64sub x y) = SFabs (SF64sub y x).
Proof.
  unfold SF64sub.
  destruct x as [sx|sx| |sx mx ex], y as [sy|sy| |sy my ey];
    try (destruct sx, sy; reflexivity); try (destruct sx; reflexivity);
    try (destruct sy; reflexivity); try reflexivity.
  unfold SFsub. rewrite (Z.min_comm ey ex).
  set (ez := Z.min ex ey).
  set (X := cond_Zopp sx (Zpos (fst (shl_align mx ex ez)))).
  set (Y := cond_Zopp sy (Zpos (fst (shl_align my ey ez)))).
  destruct (Z.eq_dec (X - Y) 0) as [E|E].
  - replace (Y - X)%Z with 0%Z by lia. rewrite E. reflexivity.
  - rewrite <- (SFabs_opp (binary_normalize prec emax (X - Y) ez false)).
    rewrite binary_normalize_opp.
    replace (- (X - Y))%Z with (Y - X)%Z by lia.
    destruct (X - Y)%Z; [contradiction | reflexivity | reflexivity].
Qed.

(** X7.  [absoluteError] does not depend on the order of its arguments, and is
    never negative: NaN, or at least 0. *)
Theorem absoluteError_symmetric (exact approximation : number) :
  absoluteError exact approximation = absoluteError approximation exact /\
  (is_nan (absoluteError exact approximation) = false ->
     (0 <=? absoluteError exact approximation) = true).
Proof.
  unfold absoluteError. split.
  - apply Prim2SF_inj. rewrite !abs_spec, !sub_spec. apply SFsub_abs_sym.
  - rewrite abs_not_nan. apply abs_nonneg.
Qed.

Lemma absoluteError_symmetric_witness :
  absoluteError 1 3 = absoluteError 3 1 /\ (0 <=? absoluteError 1 3) = true.
Proof.
  split.
  - apply (proj1 (absoluteError_symmetric 1 3)).
  - apply (proj2 (absoluteError_symmetric 1 3)). reflexivity.
Defined.

Lemma eqb_F2Z_iff x y :
  is_nan x = false -> is_nan y = false -> (x =? y) = (F2Z x =? F2Z y)%Z.
Proof.
  rewrite !is_nan_spec, FloatAxioms.eqb_spec. unfold SFeqb, F2Z. intros Nx Ny.
  rewrite SFcompare_B2Z; try apply Prim2SF_valid;
    try (intros E; rewrite E in *; discriminate).
  rewrite Z.eqb_compare. destruct (B2Z (Prim2SF x) ?= B2Z (Prim2SF y))%Z; reflexivity.
Qed.

Lemma F2Z_abs x : F2Z (abs x) = Z.abs (F2Z x).
Proof.
  unfold F2Z. rewrite abs_spec.
  assert (T : (0 <= 2 ^ 2098)%Z) by (apply Z.pow_nonneg; lia).
  destruct (Prim2SF x) as [s|s| |s m e]; try reflexivity;
    destruct s; cbv [SFabs B2Z cond_Zopp]; try lia.
  all: assert (0 <= 2 ^ (e + 1074))%Z by (apply Z.pow_nonneg; lia); nia.
Qed.

(** Rounding takes no integer of a difference of numbers to 0 but 0. *)
Lemma RNs_zero D : RNs (D * 2 ^ 1074) = 0%Z -> D = 0%Z.
Proof.
  assert (P : (0 < 2 ^ 1074)%Z) by (apply pow2_pos; lia).
  assert (R1 : RN (2 ^ 1074) = 1%Z).
  { assert (V1 : valid_binary (S754_finite false 1 (-1074)) = true) by reflexivity.
    apply (RN_valid _ _ _ V1). }
  assert (G : forall p, (1 <= RN (Zpos p * 2 ^ 1074))%Z).
  { intros p. rewrite <- R1. apply RN_mono; nia. }
  destruct D as [|p|p]; trivial; intros H; exfalso.
  - pose proof (G p) as Q.
    destruct (Zpos p * 2 ^ 1074)%Z as [|q|q] eqn:E; try lia. simpl in H. lia.
  - pose proof (G p) as Q.
    assert (E : (Zneg p * 2 ^ 1074 = - (Zpos p * 2 ^ 1074))%Z) by lia.
    rewrite E in H.
    destruct (Zpos p * 2 ^ 1074)%Z as [|q|q] eqn:E'; try lia. simpl in H. lia.
Qed.

(** X8.  Of finite numbers, [absoluteError] is 0 exactly when they are equal:
    a difference never rounds to 0. *)
Theorem absoluteError_zero (exact approximation : number) :
  is_finite exact = true -> is_finite approximation = true ->
  js_eq (absoluteError exact approximation) 0 = js_eq exact approximation.
Proof.
  intros Fa Fb. unfold js_eq, absoluteError.
  destruct (sub_F2Z exact approximation Fa Fb) as [N E].
  rewrite eqb_F2Z_iff by (rewrite ?abs_not_nan; trivial).
  rewrite (eqb_F2Z_iff exact approximation) by (apply finite_not_nan; assumption).
  rewrite F2Z_abs, E. change (F2Z 0) with 0%Z.
  destruct (Z.eqb_spec (F2Z exact) (F2Z approximation)) as [Q|Q].
  - rewrite Q, Z.sub_diag. reflexivity.
  - apply Z.eqb_neq. intros H. apply Q.
    assert (Z0 : RNs ((F2Z exact - F2Z approximation) * 2 ^ 1074) = 0%Z) by lia.
    apply RNs_zero in Z0. lia.
Qed.

Lemma absoluteError_zero_witness :
  js_eq (absoluteError 1e-320 2e-320) 0 = false /\ js_eq (absoluteError 0.1 0.1) 0 = true.
Proof.
  split.
  - rewrite (absoluteError_zero 1e-320 2e-320); reflexivity.
  - rewrite (absoluteError_zero 0.1 0.1); reflexivity.
Defined.

(** X9.  [relativeError] at its edges: the exact value 0 gives NaN against 0 and
    +Infinity against any other finite number; a finite exact value other
    than 0 against an equal number gives exactly 0. *)
Theorem relativeError_edges (exact approximation : number) :
  is_finite exact = true -> is_finite approximation = true ->
  (js_eq exact 0 = true -> js_eq approximation 0 = true ->
     is_nan (relativeError exact approximation) = true) /\
  (js_eq exact 0 = true -> js_eq approximation 0 = false ->
     relativeError exact approximation = infinity) /\
  (js_eq exact 0 = false -> js_eq exact approximation = true ->
     relativeError exact approximation = 0).
Proof.
  intros Fa Fb. unfold js_eq, relativeError. refine (conj _ (conj _ _)).
  - intros Ea Eb. apply eqb_zero in Ea, Eb.
    destruct Ea as [-> | ->], Eb as [-> | ->]; reflexivity.
  - intros Ea Eb. apply Prim2SF_inj.
    rewrite abs_spec, div_spec, sub_spec.
    rewrite is_finite_spec in Fb. rewrite FloatAxioms.eqb_spec in Eb.
    change (Prim2SF 0) with (S754_zero false) in Eb.
    apply eqb_zero in Ea.
    destruct Ea as [-> | ->];
      [change (Prim2SF 0) with (S754_zero false)
      |change (Prim2SF (-0)) with (S754_zero true)];
      destruct (Prim2SF approximation) as [s|s| |s m e]; try contradiction;
      destruct s; try discriminate Eb; reflexivity.
  - intros Ea Eab. apply eqb_true in Eab.
    destruct Eab as [<- | [Z _]]; [|congruence].
    rewrite (sub_self _ Fa). apply Prim2SF_inj. rewrite abs_spec, div_spec.
    rewrite is_finite_spec in Fa. rewrite FloatAxioms.eqb_spec in Ea.
    change (Prim2SF 0) with (S754_zero false) in *.
    destruct (Prim2SF exact) as [s|s| |s m e]; try contradiction;
      destruct s; try discriminate Ea; reflexivity.
Qed.

Lemma relativeError_edges_witness :
  is_nan (relativeError 0 0) = true /\ relativeError 0 2 = infinity /\
  relativeError 3 3 = 0.
Proof.
  refine (conj _ (conj _ _)).
  - apply (proj1 (relativeError_edges 0 0 eq_refl eq_refl)); reflexivity.
  - apply (proj1 (proj2 (relativeError_edges 0 2 eq_refl eq_refl))); reflexivity.
  - apply (proj2 (proj2 (relativeError_edges 3 3 eq_refl eq_refl))); reflexivity.
Defined.

(** ** [random] *)

Lemma random_loop_step M this draws fuel calls :
  random_loop M this draws (S fuel) calls =
  if rejected (polar_radius (draws calls) (draws (S calls)))
  then random_loop M this draws fuel (S (S calls))
  else Some (polar_value M this (draws calls) (draws (S calls)), S (S calls)).
Proof. reflexivity. Qed.

(** The loop discards the pairs of draws it rejects and returns from the
    first pair it does not. *)
Lemma random_loop_skips M this draws (k : nat) :
  forall fuel calls,
  (forall j, (j < k)%nat ->
     rejected (polar_radius (draws (calls + 2 * j)%nat) (draws (S (calls + 2 * j)))) = true) ->
  rejected (polar_radius (draws (calls + 2 * k)%nat) (draws (S (calls + 2 * k)))) = false ->
  (k < fuel)%nat ->
  random_loop M this draws fuel calls =
  Some (polar_value M this (draws (calls + 2 * k)%nat) (draws (S (calls + 2 * k))),
        (calls + 2 * S k)%nat).
Proof.
  induction k as [|k IH]; intros fuel calls R A F;
    (destruct fuel as [|fuel]; [lia|]); rewrite random_loop_step.
  - replace (calls + 2 * 0)%nat with calls in * by lia. rewrite A.
    replace (calls + 2 * 1)%nat with (S (S calls)) by lia. reflexivity.
  - pose proof (R 0%nat ltac:(lia)) as R0.
    replace (calls + 2 * 0)%nat with calls in R0 by lia. rewrite R0.
    replace (calls + 2 * S k)%nat with (S (S calls) + 2 * k)%nat in * by lia.
    replace (calls + 2 * S (S k))%nat with (S (S calls) + 2 * S k)%nat by lia.
    apply IH; [|exact A|lia].
    intros j Hj. specialize (R (S j) ltac:(lia)).
    replace (calls + 2 * S j)%nat with (S (S calls) + 2 * j)%nat in R by lia. exact R.
Qed.

(** A draw from 0 to 1, doubled and shifted, is between -1 and 1. *)
Lemma shifted_draw a :
  (0 <=? a) = true -> (a <=? 1) = true -> in_unit (a * 2.0 - 1) = true.
Proof.
  intros L H.
  assert (Fa : is_finite a = true) by (apply (between_finite 0 a 1); trivial).
  apply leb_F2Z_le in L, H. change (F2Z 0) with 0%Z in L.
  assert (P1 : (0 <= F2Z 1)%Z) by (vm_compute; discriminate).
  assert (P2 : (0 <= F2Z 2.0)%Z) by (vm_compute; discriminate).
  assert (D0 : (0 * 2.0 <=? a * 2.0) = true)
    by (apply mul_le; trivial; change (F2Z 0) with 0%Z; nia).
  assert (D2 : (a * 2.0 <=? 1 * 2.0) = true) by (apply mul_le; trivial; nia).
  assert (Fd : is_finite (a * 2.0) = true) by (apply (between_finite (0 * 2.0) _ (1 * 2.0)); trivial).
  apply leb_F2Z_le in D0, D2.
  apply in_unit_spec. split.
  - change (-1) with (0 * 2.0 - 1). apply sub_le; trivial; lia.
  - change 1 with (1 * 2.0 - 1) at 2. apply sub_le; trivial; lia.
Qed.

(** The square of a number between -1 and 1 is between 0 and 1. *)
Lemma square_unit u :
  in_unit u = true -> (0 <=? u * u) = true /\ (u * u <=? 1) = true.
Proof.
  intros U. apply in_unit_spec in U. destruct U as [L H].
  assert (Fu : is_finite u = true) by (apply (between_finite (-1) u 1); trivial).
  apply leb_F2Z_le in L, H.
  assert (E1 : F2Z 1 = (2 ^ 1074)%Z) by (vm_compute; reflexivity).
  assert (E2 : F2Z (-1) = (- 2 ^ 1074)%Z) by (vm_compute; reflexivity).
  rewrite E1 in H. rewrite E2 in L.
  assert (P : (0 < 2 ^ 1074)%Z) by (apply pow2_pos; lia).
  split.
  - change 0 with (0 * 0) at 1. apply mul_le; trivial. change (F2Z 0) with 0%Z. nia.
  - change 1 with (1 * 1). apply mul_le; trivial. rewrite E1. nia.
Qed.

(** The radius of two draws from 0 to 1 is a finite number, not negative. *)
Lemma polar_radius_nonneg a b :
  (0 <=? a) = true -> (a <=? 1) = true -> (0 <=? b) = true -> (b <=? 1) = true ->
  (0 <=? polar_radius a b) = true.
Proof.
  intros A0 A1 B0 B1. unfold polar_radius. cbv zeta.
  destruct (square_unit _ (shifted_draw a A0 A1)) as [U0 U1].
  destruct (square_unit _ (shifted_draw b B0 B1)) as [V0 V1].
  set (uu := (a * 2.0 - 1) * (a * 2.0 - 1)) in *.
  set (vv := (b * 2.0 - 1) * (b * 2.0 - 1)) in *.
  assert (Fu : is_finite uu = true) by (apply (between_finite 0 uu 1); trivial).
  assert (Fv : is_finite vv = true) by (apply (between_finite 0 vv 1); trivial).
  apply leb_F2Z_le in U0, V0.
  change 0 with (0 + 0) at 1. apply add_le; trivial.
Qed.

(** X10.  [random] returns from the first pair of draws that the loop does not
    reject, after two calls of [Math.random] for every pair; when those two
    draws are from 0 to 1, the radius it takes the logarithm of and divides
    by is strictly between 0 and 1. *)
Theorem random_returns (M : MathHost) (this : NormalDistribution) (draws : nat -> number)
    (k fuel calls : nat) :
  let a := draws (calls + 2 * k)%nat in
  let b := draws (S (calls + 2 * k)) in
  (forall j, (j < k)%nat ->
     rejected (polar_radius (draws (calls + 2 * j)%nat) (draws (S (calls + 2 * j)))) = true) ->
  rejected (polar_radius a b) = false ->
  (k < fuel)%nat ->
  random_loop M this draws fuel calls = Some (polar_value M this a b, (calls + 2 * S k)%nat) /\
  ((0 <=? a) = true -> (a <=? 1) = true -> (0 <=? b) = true -> (b <=? 1) = true ->
     (0 <? polar_radius a b) = true /\ (polar_radius a b <? 1) = true).
Proof.
  intros a b R A F. split; [apply random_loop_skips; assumption|].
  intros A0 A1 B0 B1. pose proof (polar_radius_nonneg a b A0 A1 B0 B1) as P.
  set (r := polar_radius a b) in *.
  destruct (leb_not_nan _ _ P) as [_ N].
  unfold rejected in A. apply orb_false_iff in A. destruct A as [Z G].
  rewrite (eqb_F2Z_iff r 0 N eq_refl) in Z. apply Z.eqb_neq in Z.
  apply leb_F2Z_le in P. unfold geb in G.
  rewrite (leb_F2Z 1 r eq_refl N) in G. apply Z.leb_gt in G.
  split; rewrite ltb_F2Z by trivial; apply Z.ltb_lt; lia.
Qed.

Lemma random_returns_witness :
  let this := Build_NormalDistribution 0 1 (chebyshevErf RefHost.host) in
  let draws := fun n : nat => match n with 2%nat => 0.75 | 3%nat => 0.5 | _ => 1 end in
  random_loop RefHost.host this draws 2 0 = Some (polar_value RefHost.host this 0.75 0.5, 4%nat) /\
  (0 <? polar_radius 0.75 0.5) = true /\ (polar_radius 0.75 0.5 <? 1) = true.
Proof.
  intros this draws.
  destruct (random_returns RefHost.host this draws 1 2 0) as [E H].
  - intros j Hj. assert (j = 0%nat) by lia. subst j. reflexivity.
  - reflexivity.
  - lia.
  - split; [exact E | apply H; reflexivity].
Defined.

(** ** [pdf] *)

Lemma signed_false_nonneg x : signed false x -> (0 <= B2Z x)%Z.
Proof.
  intros H. destruct H; cbv [B2Z cond_Zopp].
  - lia.
  - apply Z.mul_nonneg_nonneg; [lia | apply Z.pow_nonneg; lia].
  - apply Z.pow_nonneg. lia.
Qed.

(** The inverse of a positive number is a number, not negative. *)
Lemma inverse_nonneg d :
  (0 <? d) = true -> is_nan (1.0 / d) = false /\ (0 <= F2Z (1.0 / d))%Z.
Proof.
  rewrite ltb_spec, not_nan_sf. unfold F2Z. rewrite div_spec.
  change (Prim2SF 0) with (S754_zero false).
  change (Prim2SF 1.0) with (S754_finite false 4503599627370496 (-52)).
  destruct (Prim2SF d) as [s|s| |s m e]; try destruct s; try discriminate; intros _.
  - split; [discriminate | reflexivity].
  - unfold SF64div, SFdiv.
    destruct (div_core 4503599627370496 (-52) (Zpos m) e ltac:(lia) ltac:(lia))
      as [k [q [r [E [Hk [Hd [Hr He]]]]]]].
    rewrite E. cbv [xorb].
    assert (S : signed false (binary_round_aux prec emax false q (-52 - e - k)
                                (new_location (Zpos m) r))).
    { apply binary_round_aux_signed. pose proof (pow2_pos k Hk). nia. }
    split; [eapply signed_not_nan; exact S | apply signed_false_nonneg; exact S].
Qed.

(** A finite number times 1 has the value it had. *)
Lemma F2Z_mul_one a : is_finite a = true -> RNs (F2Z a * F2Z 1) = F2Z a.
Proof.
  intros F. change (F2Z 1) with (2 ^ 1074)%Z. unfold F2Z.
  apply RNs_valid; [apply Prim2SF_valid | apply is_finite_spec, F].
Qed.

(** X11.  The density is between 0 and its scale [0.3989422804014327 * (1 / sd)],
    wherever that scale is finite and the standardized x is a number, on a
    host whose [pow] gives a square that is not negative and whose [exp]
    keeps to the range of the exponential. *)
Theorem pdf_range (M : MathHost) m s f (this : NormalDistribution) (x : number) :
  host_ranges M -> pow_square_nonneg M ->
  of_ M m s f = Normal this ->
  let scale := 0.3989422804014327 * (1.0 / standardDeviation this) in
  is_finite scale = true ->
  is_nan ((x - mean this) * (1.0 / standardDeviation this)) = false ->
  (0 <=? pdf M this x) = true /\ (pdf M this x <=? scale) = true.
Proof.
  intros R W C scale Fs Nz.
  destruct (of_constructed M m s f this C) as [_ P].
  destruct (inverse_nonneg _ P) as [Ni Pi].
  unfold pdf. cbv zeta. fold scale.
  set (i := 1.0 / standardDeviation this) in *.
  (* the inverse is finite, since the scale is *)
  assert (Fi : is_finite i = true).
  { destruct (is_finite i) eqn:F; trivial.
    destruct (infinite_cases i Ni F) as [I|I].
    - unfold scale in Fs. rewrite I in Fs. discriminate Fs.
    - exfalso. rewrite I in Pi. revert Pi. vm_compute. intros H. apply H. reflexivity. }
  destruct (mul_F2Z 0.3989422804014327 i eq_refl Fi) as [_ Es]. fold scale in Es.
  assert (Ps : (0 <= F2Z scale)%Z).
  { rewrite Es. change 0%Z with (RNs 0). apply RNs_mono.
    assert (0 <= F2Z 0.3989422804014327)%Z by (vm_compute; discriminate). nia. }
  (* the exponent is a number, not positive *)
  pose proof (W _ Nz) as B. set (b := Math_pow M _ 2) in *.
  destruct (leb_not_nan _ _ B) as [_ Nb]. apply leb_F2Z_le in B. change (F2Z 0) with 0%Z in B.
  destruct (div_nonpos (- b) 2.0) as [Nq Lq];
    [rewrite opp_not_nan; exact Nb | rewrite F2Z_opp; lia | reflexivity
    | vm_compute; reflexivity |].
  assert (Q0 : (- b / 2.0 <=? 0) = true) by (apply leb_le; repeat split; trivial).
  assert (Q5 : (- b / 2.0 <=? 0.5) = true) by (apply leb_trans with 0; [exact Q0 | reflexivity]).
  destruct (exp_range M R _ Q5) as [E0 _]. pose proof (exp_unit M R _ Q0) as E1.
  set (c := Math_exp M _) in *.
  assert (Fc : is_finite c = true) by (apply (between_finite 0 c 1); trivial).
  apply leb_F2Z_le in E0, E1. change (F2Z 0) with 0%Z in E0.
  assert (P1 : (0 <= F2Z 1)%Z) by (vm_compute; discriminate).
  destruct (mul_F2Z scale c Fs Fc) as [Nr Er].
  split; apply leb_le; repeat split; trivial; try (apply finite_not_nan; exact Fs).
  - rewrite Er. change (F2Z 0) with (RNs 0). apply RNs_mono.
    apply Z.mul_nonneg_nonneg; assumption.
  - rewrite Er. apply Z.le_trans with (RNs (F2Z scale * F2Z 1)).
    + apply RNs_mono, Z.mul_le_mono_nonneg_l; assumption.
    + rewrite (F2Z_mul_one scale Fs). lia.
Qed.

Lemma RefHost_pow_square : pow_square_nonneg RefHost.host.
Proof.
  intros z N. simpl. unfold RefHost.pow.
  change (is_nan 2) with false. change (2 =? 0) with false. rewrite N.
  change (is_infinity 2) with false. change (floor 2 =? 2) with true. cbv iota.
  change (SFtrunc (Prim2SF 2)) with 2%Z. cbv iota. simpl RefHost.pow_pos.
  destruct (mul_self z N) as [Nm [Pm _]].
  apply leb_le. repeat split; trivial.
Qed.

Lemma pdf_range_witness :
  let this := Build_NormalDistribution 3 2 (chebyshevErf RefHost.host) in
  (0 <=? pdf RefHost.host this 4) = true /\
  (pdf RefHost.host this 4 <=? 0.3989422804014327 * (1.0 / 2)) = true.
Proof.
  intros this.
  apply (pdf_range RefHost.host (Some 3) (Some 2) Undefined this 4
           RefHost_ranges RefHost_pow_square eq_refl); reflexivity.
Defined.

(** ** index.ts *)

(** X12.  The constructor of index.ts throws exactly for a negative standard
    deviation or an error function that is [undefined] or [null], the message
    carrying a negative standard deviation; a standard deviation that is 0
    or NaN, and any mean, are accepted. *)
Theorem Index_constructor_validates (mean standardDeviation : number)
    (erf : js_arg ErrorFunction) :
  throws (Index.constructor mean standardDeviation erf)
    = (standardDeviation <? 0) || absent_or_null erf /\
  ((standardDeviation <? 0) = true ->
     exists t, Index.constructor mean standardDeviation erf = Throw t /\
               mentions standardDeviation (message t)) /\
  (forall g, erf = Given g -> (standardDeviation <? 0) = false ->
     Index.constructor mean standardDeviation erf
     = Normal (Build_NormalDistribution mean standardDeviation g)) /\
  (forall g, erf = Given g -> is_nan standardDeviation = true \/ js_eq standardDeviation 0 = true ->
     throws (Index.constructor mean standardDeviation erf) = false).
Proof.
  unfold Index.constructor. refine (conj _ (conj _ (conj _ _))).
  - destruct (standardDeviation <? 0), erf; reflexivity.
  - intros ->. eexists. split; [reflexivity|]. unfold mentions. simpl. auto.
  - intros g -> ->. reflexivity.
  - intros g -> H.
    assert (L : (standardDeviation <? 0) = false).
    { destruct H as [H|H].
      - apply nan_only in H. subst. reflexivity.
      - unfold js_eq in H. destruct (eqb_not_nan _ _ H) as [N _].
        rewrite (ltb_F2Z _ 0 N eq_refl). apply eqb_F2Z in H. apply Z.ltb_ge. lia. }
    rewrite L. reflexivity.
Qed.

Lemma Index_constructor_validates_witness :
  (exists t, Index.constructor 0 (-1) (Given (fun x => x)) = Throw t /\ mentions (-1) (message t)) /\
  throws (Index.constructor nan nan (Given (fun x => x))) = false.
Proof.
  split.
  - apply (proj1 (proj2 (Index_constructor_validates 0 (-1) (Given (fun x => x))))). reflexivity.
  - apply (proj2 (proj2 (proj2 (Index_constructor_validates nan nan (Given (fun x => x)))))
             (fun x => x) eq_refl).
    left. reflexivity.
Defined.

(** ** The closed forms at their edges *)

(** X13.  Wherever the fourth power of x does not overflow, [soranzoErf] is odd:
    [soranzoErf(x) == -soranzoErf(-x)]. *)
Theorem soranzoErf_odd (M : MathHost) (x : number) :
  prescribed_zeros M -> host_ranges M ->
  is_nan x = false -> (x * x * (x * x) =? infinity) = false ->
  js_eq (soranzoErf M x) (- soranzoErf M (- x)) = true.
Proof. intros Z R. apply soranzoErf_odd_below_overflow; assumption. Qed.

Lemma soranzoErf_odd_witness :
  js_eq (soranzoErf RefHost.host 0.5) (- soranzoErf RefHost.host (- 0.5)) = true.
Proof.
  apply (soranzoErf_odd RefHost.host 0.5 RefHost_zeros RefHost_ranges); reflexivity.
Defined.

(** X14.  [vazquezLealErf] is exactly 1 at +Infinity and -1 at -Infinity, on a host
    whose [atan] stays between -2 and 2 and whose [tanh] is 1 and -1 at the
    infinities. *)
Theorem vazquezLealErf_limits (M : MathHost) :
  host_ranges M -> prescribed_values M ->
  vazquezLealErf M infinity = 1 /\ vazquezLealErf M neg_infinity = -1.
Proof. intros R P. apply vazquezLealErf_infinities; assumption. Qed.

Lemma vazquezLealErf_limits_witness :
  vazquezLealErf RefHost.host infinity = 1 /\ vazquezLealErf RefHost.host neg_infinity = -1.
Proof. apply (vazquezLealErf_limits RefHost.host RefHost_ranges RefHost_prescribed). Defined.

(** ** [cdf] at the infinities *)

Lemma infinity_div_positive d :
  is_finite d = true -> (0 <? d) = true ->
  infinity / d = infinity /\ neg_infinity / d = neg_infinity.
Proof.
  rewrite is_finite_spec, ltb_spec. intros F P.
  split; apply Prim2SF_inj; rewrite div_spec; revert P;
    change (Prim2SF 0) with (S754_zero false);
    [change (Prim2SF infinity) with (S754_infinity false)
    |change (Prim2SF neg_infinity) with (S754_infinity true)];
    destruct (Prim2SF d) as [s|s| |s m e]; try contradiction;
    destruct s; try discriminate; reflexivity.
Qed.

(** X15.  With a finite mean and a finite standard deviation, [cdf] is exactly 1
    at +Infinity and exactly 0 at -Infinity, for an error function that is
    1 and -1 there. *)
Theorem cdf_limits (M : MathHost) m s f (this : NormalDistribution) :
  of_ M m s f = Normal this ->
  is_finite (mean this) = true -> is_finite (standardDeviation this) = true ->
  (erf this infinity = 1 -> cdf this infinity = 1) /\
  (erf this neg_infinity = -1 -> cdf this neg_infinity = 0).
Proof.
  intros C Fm Fs. destruct (of_constructed M m s f this C) as [_ P].
  destruct (infinity_sub (mean this) Fm) as [S1 S2].
  destruct (infinity_div_positive _ Fs P) as [D1 D2].
  rewrite !cdf_value. unfold standardize. rewrite S1, S2, D1, D2.
  change (infinity * SQRT1_2) with infinity.
  change (neg_infinity * SQRT1_2) with neg_infinity.
  split; intros ->; reflexivity.
Qed.

Lemma cdf_limits_witness :
  let this := Build_NormalDistribution 3 2 (chebyshevErf RefHost.host) in
  cdf this infinity = 1 /\ cdf this neg_infinity = 0.
Proof.
  intros this.
  pose proof (cdf_limits RefHost.host (Some 3) (Some 2) Undefined this eq_refl eq_refl eq_refl)
    as [H1 H2].
  split; [apply H1 | apply H2]; reflexivity.
Defined.

(** ** [isNormalDistributed] and its tolerance *)

Lemma leb_nan_l x : (nan <=? x) = false.
Proof. rewrite leb_spec. reflexivity. Qed.

Lemma distance_nonneg v c :
  is_finite c = true -> is_nan v = false -> (0 <=? abs (v - c)) = true.
Proof. intros Fc Nv. apply abs_nonneg, sub_finite_not_nan; assumption. Qed.

(** X16.  The tolerance at its edges, for parameters that pass the validation:
    with a NaN tolerance [isNormalDistributed] returns true for every [cdf];
    with a tolerance at most 0 it returns false after the first band, two
    calls of [cdf], whenever that band is a number. *)
Theorem isNormalDistributed_tolerance (cdf : number -> number)
    (mean standardDeviation tolerance : number) :
  invalid_parameters mean standardDeviation = false ->
  (is_nan tolerance = true ->
     exists calls,
       isNormalDistributed cdf mean standardDeviation (Some tolerance) = Normal (true, calls)) /\
  ((tolerance <=? 0) = true -> is_nan (band_value cdf mean standardDeviation) = false ->
     isNormalDistributed cdf mean standardDeviation (Some tolerance)
     = Normal (false, band_calls mean standardDeviation)).
Proof.
  unfold invalid_parameters, isNormalDistributed. intros V.
  apply orb_false_iff in V. destruct V as [V V3].
  apply orb_false_iff in V. destruct V as [V1 V2].
  rewrite V1, V2, V3. split.
  - intros N. apply nan_only in N. subst tolerance.
    unfold band, tbind, tret, log_call, geb. simpl. rewrite !leb_nan_l.
    eexists. reflexivity.
  - intros T N.
    unfold band, tbind, tret, log_call. simpl.
    fold (band_value cdf mean standardDeviation).
    assert (G : geb (abs (band_value cdf mean standardDeviation - 0.6826894772086507))
                    tolerance = true).
    { unfold geb. apply leb_trans with 0; [exact T|].
      apply distance_nonneg; [reflexivity | exact N]. }
    rewrite G. reflexivity.
Qed.

Lemma isNormalDistributed_tolerance_witness :
  (exists calls, isNormalDistributed (fun x => x) 0 1 (Some nan) = Normal (true, calls)) /\
  isNormalDistributed (fun x => x) 0 1 (Some 0) = Normal (false, band_calls 0 1).
Proof.
  split.
  - apply (proj1 (isNormalDistributed_tolerance (fun x => x) 0 1 nan eq_refl)). reflexivity.
  - apply (proj2 (isNormalDistributed_tolerance (fun x => x) 0 1 0 eq_refl)); reflexivity.
Defined.

(** X17.  Whatever it returns, [isNormalDistributed] calls [cdf] two, four or
    six times, band after band and the upper end first; it returns true only
    after all six calls. *)
Theorem isNormalDistributed_calls (cdf : number -> number)
    (mean standardDeviation : number) (tolerance : option number) (r : traced bool) :
  isNormalDistributed cdf mean standardDeviation tolerance = Normal r ->
  let c1 := band_calls mean standardDeviation in
  let c2 := band_calls mean (2 * standardDeviation) in
  let c3 := band_calls mean (3 * standardDeviation) in
  (calls r = c1 \/ calls r = c1 ++ c2 \/ calls r = c1 ++ c2 ++ c3) /\
  (value r = true -> calls r = c1 ++ c2 ++ c3).
Proof.
  unfold isNormalDistributed.
  destruct (isNaN mean); [discriminate|].
  destruct (isNaN standardDeviation); [discriminate|].
  destruct (standardDeviation <=? 0); [discriminate|].
  intros H. injection H as <-. cbv zeta.
  unfold band, tbind, tret, log_call, value, calls. simpl.
  destruct (geb _ _); simpl; [split; [auto | discriminate]|].
  destruct (geb _ _); simpl; [split; [auto | discriminate]|].
  destruct (geb _ _); simpl; split; auto; discriminate.
Qed.

Lemma isNormalDistributed_calls_witness :
  exists r, isNormalDistributed (fun x => x) 0 1 None = Normal r /\
            calls r = band_calls 0 1.
Proof.
  eexists. split; [reflexivity|].
  destruct (isNormalDistributed_calls (fun x => x) 0 1 None _ eq_refl) as [[H|[H|H]] _];
    [exact H | discriminate H | discriminate H].
Defined.

Lemma opp_range f :
  (0 <=? f) = true -> (f <=? 1) = true -> (-1 <=? - f) = true /\ (- f <=? 0) = true.
Proof.
  intros L H. destruct (leb_not_nan _ _ H) as [N _].
  apply leb_F2Z_le in L, H. change (F2Z 0) with 0%Z in L.
  assert (E1 : F2Z (-1) = (- F2Z 1)%Z) by (vm_compute; reflexivity).
  split; apply leb_le; (split; [|split]); try reflexivity;
    try (rewrite opp_not_nan; exact N); rewrite F2Z_opp.
  - rewrite E1. lia.
  - change (F2Z 0) with 0%Z. lia.
Qed.

(** X18.  [soranzoErf] has the sign of its argument: from 0 to 1 at every x >= 0,
    and from -1 to 0 at every x < 0 whose fourth power does not overflow. *)
Theorem soranzoErf_sign (M : MathHost) (x : number) :
  host_ranges M -> is_nan x = false ->
  (geb x 0 = true ->
     (0 <=? soranzoErf M x) = true /\ (soranzoErf M x <=? 1) = true) /\
  (geb x 0 = false -> (x * x * (x * x) =? infinity) = false ->
     (-1 <=? soranzoErf M x) = true /\ (soranzoErf M x <=? 0) = true).
Proof.
  intros R Nx. unfold soranzoErf. cbv zeta.
  destruct (mul_self x Nx) as [N2 [P2 F2]].
  destruct (mul_self (x * x) N2) as [N4 [P4 F4]].
  destruct (x * x * (x * x) =? infinity) eqn:G.
  { split; [intros _; split; reflexivity | intros _ H; discriminate H]. }
  pose proof (finite_below_infinity _ N4 P4 G) as Fx4.
  pose proof (F4 Fx4) as Fx2.
  destruct (soranzo_quotient (x * x) (x * x * (x * x)) Fx2 P2 Fx4 P4) as [Nq Lq].
  destruct (unit_of_exp M R _ Nq Lq) as [U0 U1].
  split.
  - intros ->. split; assumption.
  - intros -> _. apply opp_range; assumption.
Qed.

Lemma soranzoErf_sign_witness :
  ((0 <=? soranzoErf RefHost.host 0.5) = true /\ (soranzoErf RefHost.host 0.5 <=? 1) = true) /\
  ((-1 <=? soranzoErf RefHost.host (-0.5)) = true /\ (soranzoErf RefHost.host (-0.5) <=? 0) = true).
Proof.
  split.
  - apply (proj1 (soranzoErf_sign RefHost.host 0.5 RefHost_ranges eq_refl)). reflexivity.
  - apply (proj2 (soranzoErf_sign RefHost.host (-0.5) RefHost_ranges eq_refl)); reflexivity.
Defined.

(** ** NaN bounds *)

Lemma sub_nan x : x - nan = nan /\ nan - x = nan.
Proof.
  split; apply Prim2SF_inj; rewrite sub_spec; change (Prim2SF nan) with S754_nan;
    destruct (Prim2SF x) as [s|s| |s m e]; try destruct s; reflexivity.
Qed.

Lemma cdf_nan (this : NormalDistribution) : erf this nan = nan -> cdf this nan = nan.
Proof.
  intros E. rewrite cdf_value. unfold standardize.
  rewrite (proj2 (sub_nan (mean this))).
  assert (D : nan / standardDeviation this * SQRT1_2 = nan).
  { apply Prim2SF_inj. rewrite mul_spec, div_spec. reflexivity. }
  rewrite D, E. reflexivity.
Qed.

(** X19.  A NaN bound is not a degenerate interval: with an error function
    that returns NaN for NaN, as [chebyshevErf] does on every host, [cdf(NaN)]
    is NaN and [between] returns NaN, not 0, as soon as one of its bounds is
    NaN. *)
Theorem between_nan (M : MathHost) (this : NormalDistribution) (x : number) :
  chebyshevErf M nan = nan /\
  (erf this nan = nan ->
     cdf this nan = nan /\ between this nan x = nan /\ between this x nan = nan).
Proof.
  split; [apply chebyshevErf_nan_in|].
  intros E. pose proof (cdf_nan this E) as C.
  unfold between, between_traced, geb. rewrite leb_nan_l.
  assert (G : (x <=? nan) = false) by (rewrite leb_spec; unfold SFleb;
    change (Prim2SF nan) with S754_nan; destruct (Prim2SF x) as [s|s| |s m e];
    try destruct s; reflexivity).
  rewrite G. unfold tbind, value. fold (cdf this).
  refine (conj C (conj _ _)).
  - change (fst (cdf_traced this nan)) with (cdf this nan).
    destruct (cdf_traced this x) as [a l] eqn:Ex, (cdf_traced this nan) as [b l'] eqn:En.
    simpl. assert (B : b = nan) by (change b with (fst (b, l')); rewrite <- En; exact C).
    subst b. apply sub_nan.
  - destruct (cdf_traced this nan) as [b l'] eqn:En, (cdf_traced this x) as [a l] eqn:Ex.
    simpl. assert (B : b = nan) by (change b with (fst (b, l')); rewrite <- En; exact C).
    subst b. apply sub_nan.
Qed.

Lemma between_nan_witness :
  let this := Build_NormalDistribution 0 1 (chebyshevErf RefHost.host) in
  between this nan 1 = nan /\ between this 1 nan = nan.
Proof.
  intros this.
  destruct (proj2 (between_nan RefHost.host this 1)) as [_ H]; [reflexivity | exact H].
Defined.
